(** * morningChats: the call-session turn processor and its text classifiers

    A shallow embedding of [src/routes/gather.js] and of [handleVoice] of
    [src/routes/voice.js]: the JavaScript regular expressions the classifiers
    are built from, the classifiers themselves, the insight extractor, and
    the request handlers as programs of a state-and-exception monad over the
    session registry and the context store.  The registry and the store
    ([utils/sessionManager.js], [memory/context.js]) are not among the
    sources and follow the specification; the services behind the handlers
    are parameters. *)

From Stdlib Require Import Ascii String List Bool Arith ZArith Lia.
From stdpp Require Import base option list gmap strings pretty.

Import ListNotations.
Local Open Scope string_scope.
Local Open Scope list_scope.
Local Open Scope nat_scope.

Set Default Proof Using "Type".

(** ** JavaScript strings

    A JavaScript string is a sequence of UTF-16 code units.  A Rocq [string]
    stands for one whose code units are all below 256; the operations below
    are the ECMAScript ones restricted to that range. *)
Module JsString.

Definition chars (s : string) : list ascii := list_ascii_of_string s.
Definition ofChars (l : list ascii) : string := string_of_list_ascii l.

Definition code (c : ascii) : nat := nat_of_ascii c.

Definition isDigit (c : ascii) : bool := (48 <=? code c) && (code c <=? 57).
Definition isUpper (c : ascii) : bool := (65 <=? code c) && (code c <=? 90).
Definition isLower (c : ascii) : bool := (97 <=? code c) && (code c <=? 122).

(** [\w]: the basic word characters, A-Z a-z 0-9 and underscore. *)
Definition isWordChar (c : ascii) : bool :=
  isUpper c || isLower c || isDigit c || (code c =? 95).

(** LineTerminator: LF and CR (U+2028 and U+2029 are out of range). *)
Definition isLineTerminator (c : ascii) : bool :=
  (code c =? 10) || (code c =? 13).

(** WhiteSpace and LineTerminator, the set [\s] and [trim] share:
    TAB, LF, VT, FF, CR, SPACE and NO-BREAK SPACE. *)
Definition isWhiteSpace (c : ascii) : bool :=
  ((9 <=? code c) && (code c <=? 13)) || (code c =? 32) || (code c =? 160).

(** [String.prototype.toLowerCase], one code unit at a time: A-Z, and the
    Latin-1 capitals U+00C0..U+00DE except the multiplication sign. *)
Definition lowerChar (c : ascii) : ascii :=
  if isUpper c then ascii_of_nat (code c + 32)
  else if (192 <=? code c) && (code c <=? 222) && negb (code c =? 215)
       then ascii_of_nat (code c + 32)
  else c.

(** Canonicalize of a case-insensitive, non-unicode RegExp.  It upper-cases
    a code unit unless that would map a non-ASCII unit onto an ASCII one;
    every pattern of this program is ASCII, so on the non-ASCII units only
    the fact that they stay non-ASCII matters. *)
Definition canonicalize (c : ascii) : ascii :=
  if isLower c then ascii_of_nat (code c - 32) else c.

Definition toLowerCaseL (l : list ascii) : list ascii := map lowerChar l.
Definition toLowerCase (s : string) : string := ofChars (toLowerCaseL (chars s)).

Fixpoint trimStartL (l : list ascii) : list ascii :=
  match l with
  | c :: l' => if isWhiteSpace c then trimStartL l' else l
  | [] => []
  end.
Definition trimEndL (l : list ascii) : list ascii := rev (trimStartL (rev l)).
Definition trimL (l : list ascii) : list ascii := trimEndL (trimStartL l).
Definition trim (s : string) : string := ofChars (trimL (chars s)).

Fixpoint startsWithL (needle hay : list ascii) : bool :=
  match needle, hay with
  | [], _ => true
  | a :: needle', b :: hay' => if ascii_dec a b then startsWithL needle' hay' else false
  | _ :: _, [] => false
  end.

(** [String.prototype.includes]. *)
Fixpoint includesL (needle hay : list ascii) : bool :=
  startsWithL needle hay ||
  match hay with
  | [] => false
  | _ :: hay' => includesL needle hay'
  end.
Definition includes (hay needle : string) : bool := includesL (chars needle) (chars hay).

(** [s.split(sep)] for a one-unit separator: never empty, the pieces
    between the separators, empty pieces kept. *)
Fixpoint splitL (sep : ascii) (l : list ascii) : list (list ascii) :=
  match l with
  | [] => [[]]
  | c :: l' =>
      if ascii_dec c sep then [] :: splitL sep l'
      else match splitL sep l' with
           | w :: ws => (c :: w) :: ws
           | [] => [[c]]
           end
  end.
Definition split (sep : ascii) (s : string) : list string := map ofChars (splitL sep (chars s)).

(** [arr.join(sep)]. *)
Fixpoint join (sep : string) (l : list string) : string :=
  match l with
  | [] => ""
  | [x] => x
  | x :: l' => x +:+ sep +:+ join sep l'
  end.

(** [s.substring(0, n)]. *)
Definition substring0 (n : nat) (s : string) : string := ofChars (take n (chars s)).

(** Truthiness of a string: the empty string is falsy. *)
Definition truthy (s : string) : bool :=
  match s with EmptyString => false | _ => true end.

(** The 256 code units, for properties checked by enumeration. *)
Definition allAscii : list ascii := map ascii_of_nat (seq 0 256).

End JsString.

(** ** Regular expressions

    The fragment of ECMAScript regular expressions the program uses, with the
    backtracking semantics of the language specification: a matcher maps a
    position to the positions a match can end at, in the order backtracking
    tries them, so that the head of the list is the match [exec] reports. *)
Module Regex.
Import JsString.

Inductive classItem : Type :=
| CChar (c : ascii)        (* a literal member *)
| CSpace.                  (* \s inside a class *)

Inductive regex : Type :=
| Empty                                   (* the empty pattern *)
| Lit (c : ascii)                         (* a pattern character *)
| Dot                                     (* .   *)
| Digit                                   (* \d  *)
| Space                                   (* \s  *)
| Class (invert : bool) (items : list classItem)   (* [...] and [^...] *)
| Seq (r1 r2 : regex)
| Alt (r1 r2 : regex)                     (* r1|r2 *)
| Quant (min : nat) (max : option nat) (r : regex) (* greedy {min,max} *)
| Group (r : regex)                       (* ( r ), capturing *)
| Bol                                     (* ^   *)
| Eol                                     (* $   *)
| WordBoundary.                           (* \b  *)

Definition Star (r : regex) : regex := Quant 0 None r.
Definition Plus (r : regex) : regex := Quant 1 None r.
Definition Opt (r : regex) : regex := Quant 0 (Some 1) r.
Definition Exactly (n : nat) (r : regex) : regex := Quant n (Some n) r.
Definition Between (n m : nat) (r : regex) : regex := Quant n (Some m) r.

(** A run of pattern characters, e.g. [str "leave"]. *)
Fixpoint strL (l : list ascii) : regex :=
  match l with
  | [] => Empty
  | [c] => Lit c
  | c :: l' => Seq (Lit c) (strL l')
  end.
Definition str (s : string) : regex := strL (chars s).

(** [alts [r1; ...; rn]] is r1|...|rn. *)
Fixpoint alts (rs : list regex) : regex :=
  match rs with
  | [] => Empty
  | [r] => r
  | r :: rs' => Alt r (alts rs')
  end.

(** [seqs [r1; ...; rn]] is the concatenation r1...rn. *)
Fixpoint seqs (rs : list regex) : regex :=
  match rs with
  | [] => Empty
  | [r] => r
  | r :: rs' => Seq r (seqs rs')
  end.

(** A position in the input: the code unit just before the cursor (none at
    index 0) and the input from the cursor on. *)
Record pos : Type := Pos { before : option ascii; rest : list ascii }.

Definition classItemMatches (i : bool) (c : ascii) (it : classItem) : bool :=
  match it with
  | CChar a => if i then bool_decide (canonicalize a = canonicalize c)
               else bool_decide (a = c)
  | CSpace => isWhiteSpace c
  end.

(** One code unit against an atom. *)
Definition atomMatches (i : bool) (r : regex) (c : ascii) : bool :=
  match r with
  | Lit a => if i then bool_decide (canonicalize a = canonicalize c)
             else bool_decide (a = c)
  | Dot => negb (isLineTerminator c)
  | Digit => isDigit c
  | Space => isWhiteSpace c
  | Class invert items => xorb invert (existsb (classItemMatches i c) items)
  | _ => false
  end.

Definition stepAtom (i : bool) (r : regex) (x : pos) : list pos :=
  match rest x with
  | c :: l => if atomMatches i r c then [Pos (Some c) l] else []
  | [] => []
  end.

Definition isWordBefore (x : pos) : bool :=
  match before x with Some c => isWordChar c | None => false end.
Definition isWordAfter (x : pos) : bool :=
  match rest x with c :: _ => isWordChar c | [] => false end.

(** RepeatMatcher: [body] is the matcher of the quantified atom.  An
    iteration beyond the minimum that consumes nothing is rejected; the
    greedy order tries one more iteration before stopping.  The fuel
    bounds the number of iterations: each one lowers [min] or shortens
    the input. *)
Fixpoint repeatMatcher (body : pos -> list pos) (fuel : nat)
         (min : nat) (max : option nat) (x : pos) : list pos :=
  match fuel with
  | 0 => []
  | S fuel' =>
      match max with
      | Some 0 => [x]
      | _ =>
          let again :=
            flat_map (fun y =>
                        if (min =? 0) && (length (rest y) =? length (rest x)) then []
                        else repeatMatcher body fuel' (pred min) (pred <$> max) y)
                     (body x) in
          if min =? 0 then again ++ [x] else again
      end
  end.

(** The positions a match of [r] starting at [x] can end at, best first.
    [i] is the ignoreCase flag. *)
Fixpoint run (i : bool) (r : regex) (x : pos) : list pos :=
  match r with
  | Empty => [x]
  | Lit _ | Dot | Digit | Space | Class _ _ => stepAtom i r x
  | Seq r1 r2 => flat_map (run i r2) (run i r1 x)
  | Alt r1 r2 => run i r1 x ++ run i r2 x
  | Quant min max r' =>
      repeatMatcher (run i r') (S (min + length (rest x))) min max x
  | Group r' => run i r' x
  | Bol => match before x with None => [x] | Some _ => [] end
  | Eol => match rest x with [] => [x] | _ :: _ => [] end
  | WordBoundary => if xorb (isWordBefore x) (isWordAfter x) then [x] else []
  end.

(** A compiled pattern: the flags that matter and the body. *)
Record RegExp : Type := RE { ignoreCase : bool; global : bool; body : regex }.

(** A match: where it starts and where it ends. *)
Record matchResult : Type := Match { mstart : pos; mend : pos }.

(** The matched text, [m[0]]. *)
Definition matched (m : matchResult) : list ascii :=
  take (length (rest (mstart m)) - length (rest (mend m))) (rest (mstart m)).

(** RegExpBuiltinExec from a given position: the first start index, from
    the cursor rightwards, at which the pattern matches. *)
Fixpoint execFrom (i : bool) (r : regex) (prev : option ascii) (l : list ascii)
  : option matchResult :=
  match run i r (Pos prev l) with
  | e :: _ => Some (Match (Pos prev l) e)
  | [] =>
      match l with
      | [] => None
      | c :: l' => execFrom i r (Some c) l'
      end
  end.

Definition execL (re : RegExp) (l : list ascii) : option matchResult :=
  execFrom (ignoreCase re) (body re) None l.

(** [re.test(s)], for a pattern without the global flag. *)
Definition testL (re : RegExp) (l : list ascii) : bool :=
  match execL re l with Some _ => true | None => false end.
Definition test (re : RegExp) (s : string) : bool := testL re (chars s).

(** [s.match(re)] for a pattern without the global flag: the text of the
    first match. *)
Definition match1 (re : RegExp) (s : string) : option string :=
  (fun m => ofChars (matched m)) <$> execL re (chars s).

(** [s.match(re)] for a global pattern: the texts of the successive
    matches; after an empty match the search resumes one unit later. *)
Fixpoint matchAllFrom (fuel : nat) (i : bool) (r : regex) (prev : option ascii)
         (l : list ascii) : list (list ascii) :=
  match fuel with
  | 0 => []
  | S fuel' =>
      match execFrom i r prev l with
      | None => []
      | Some m =>
          matched m ::
          (if length (rest (mend m)) =? length (rest (mstart m)) then
             match rest (mend m) with
             | [] => []
             | c :: l' => matchAllFrom fuel' i r (Some c) l'
             end
           else matchAllFrom fuel' i r (before (mend m)) (rest (mend m)))
      end
  end.

(** [null] when there is no match at all. *)
Definition matchAll (re : RegExp) (s : string) : option (list string) :=
  match matchAllFrom (S (String.length s)) (ignoreCase re) (body re) None (chars s) with
  | [] => None
  | ms => Some (map ofChars ms)
  end.

(** *** Vocabulary of the statements about matching *)

Definition nonEmpty {A} (l : list A) : bool :=
  match l with [] => false | _ :: _ => true end.

(** [test] as a search: some suffix of the input has a match at its head. *)
Fixpoint matchesSomewhere (i : bool) (r : regex) (p : option ascii) (l : list ascii) : bool :=
  nonEmpty (run i r (Pos p l)) ||
  match l with
  | [] => false
  | c :: l' => matchesSomewhere i r (Some c) l'
  end.

(** The position reached after reading [cs] from [Pos p (cs ++ l)]. *)
Definition after (p : option ascii) (cs l : list ascii) : pos :=
  Pos (match cs with [] => p | _ :: _ => Some (List.last cs "000"%char) end) l.

Definition withinMax (n : nat) (max : option nat) : Prop :=
  match max with Some m => n <= m | None => True end.

(** The patterns that read exactly one code unit. *)
Definition isAtom (r : regex) : Prop :=
  match r with Lit _ | Dot | Digit | Space | Class _ _ => True | _ => False end.

(** Under flag [i], the pattern character [a] accepts exactly the units
    that [f] sends to [a]: [f] is the identity without the flag and
    lower-casing with it. *)
Definition litOk (i : bool) (f : ascii -> ascii) (a : ascii) : Prop :=
  forall c, atomMatches i (Lit a) c = bool_decide (f c = a).

(** A pattern character on which matching under the [i] flag is the same
    as comparing with the lower-cased input. *)
Definition ciStable (a : ascii) : bool :=
  forallb (fun c => eqb (atomMatches true (Lit a) c) (bool_decide (lowerChar c = a)))
          allAscii.

End Regex.

(** ** The utterance classifiers of [gather.js] *)
Module Classifier.
Import JsString Regex.

(** [.*] *)
Definition anything : regex := Star Dot.
(** [x?] for a single pattern character. *)
Definition optLit (s : string) : regex := Opt (str s).
(** [[-.]] *)
Definition dashOrDot : regex := Class false [CChar "-"%char; CChar "."%char].

(** A pattern with the [i] flag, and one without flags. *)
Definition reI (r : regex) : RegExp := RE true false r.
Definition re0 (r : regex) : RegExp := RE false false r.

(** [/^\d{3}[-.]?\d{3}[-.]?\d{4}\.?$/] *)
Definition phoneNumberPattern : RegExp :=
  re0 (seqs [Bol; Exactly 3 Digit; Opt dashOrDot; Exactly 3 Digit; Opt dashOrDot;
             Exactly 4 Digit; optLit "."; Eol]).

(** [/^\d{3}\s*\d{3}\.?$/], the "866 200." pattern *)
Definition threeThreePattern : RegExp :=
  re0 (seqs [Bol; Exactly 3 Digit; Star Space; Exactly 3 Digit; optLit "."; Eol]).

(** [/^\d{2,4}\s*\d{2,4}\.?$/] *)
Definition twoGroupsPattern : RegExp :=
  re0 (seqs [Bol; Between 2 4 Digit; Star Space; Between 2 4 Digit; optLit "."; Eol]).

(** [/^\d{3,10}\.?$/] *)
Definition shortNumericPattern : RegExp :=
  re0 (seqs [Bol; Between 3 10 Digit; optLit "."; Eol]).

(** [/^\d+[\s.]*\d*\.?$/] *)
Definition justNumbersPattern : RegExp :=
  re0 (seqs [Bol; Plus Digit; Star (Class false [CSpace; CChar "."%char]);
             Star Digit; optLit "."; Eol]).

Definition voicemailPatterns : list RegExp :=
  [ (* Standard voicemail messages *)
    (* /not available.*leave.*message/i *)
    reI (seqs [str "not available"; anything; str "leave"; anything; str "message"]);
    (* /can't come to.*phone/i *)
    reI (seqs [str "can't come to"; anything; str "phone"]);
    (* /leave.*message.*after.*tone/i *)
    reI (seqs [str "leave"; anything; str "message"; anything; str "after"; anything;
               str "tone"]);
    (* /press.*for.*delivery.*options/i *)
    reI (seqs [str "press"; anything; str "for"; anything; str "delivery"; anything;
               str "options"]);
    (* /nothing.*recorded.*hang.*up/i *)
    reI (seqs [str "nothing"; anything; str "recorded"; anything; str "hang"; anything;
               str "up"]);
    (* /message.*after.*tone.*hang.*up/i *)
    reI (seqs [str "message"; anything; str "after"; anything; str "tone"; anything;
               str "hang"; anything; str "up"]);
    (* /simply.*hang.*up/i *)
    reI (seqs [str "simply"; anything; str "hang"; anything; str "up"]);
    (* /your.*message.*after.*beep/i *)
    reI (seqs [str "your"; anything; str "message"; anything; str "after"; anything;
               str "beep"]);
    (* /please.*leave.*your.*name/i *)
    reI (seqs [str "please"; anything; str "leave"; anything; str "your"; anything;
               str "name"]);
    (* /mailbox.*full/i *)
    reI (seqs [str "mailbox"; anything; str "full"]);
    (* /unavailable.*right.*now/i *)
    reI (seqs [str "unavailable"; anything; str "right"; anything; str "now"]);

    (* Phone number patterns *)
    phoneNumberPattern;
    (* /^you'?ve reached.*/i *)
    reI (seqs [Bol; str "you"; optLit "'"; str "ve reached"; anything]);
    (* /^this is.*(voicemail|message)/i *)
    reI (seqs [Bol; str "this is"; anything; Group (alts [str "voicemail"; str "message"])]);
    (* /^hello.*not here/i *)
    reI (seqs [Bol; str "hello"; anything; str "not here"]);
    (* /^sorry.*missed.*call/i *)
    reI (seqs [Bol; str "sorry"; anything; str "missed"; anything; str "call"]);

    (* Patterns for short digit groups *)
    threeThreePattern;
    twoGroupsPattern;
    (* /^at the tone/i *)
    reI (seqs [Bol; str "at the tone"]);
    (* /^please record/i *)
    reI (seqs [Bol; str "please record"]);

    (* Common voicemail endings *)
    (* /when you have finished recording.*hang up/i *)
    reI (seqs [str "when you have finished recording"; anything; str "hang up"]);
    (* /you may hang up/i *)
    reI (str "you may hang up");
    (* /recording.*hang up/i *)
    reI (seqs [str "recording"; anything; str "hang up"]) ].

(** [isVoicemailMessage(userInput)].  The early return on the "866 200."
    pattern and the two numeric checks read the trimmed input; the phrase
    patterns read the lower-cased input as it was passed. *)
Definition isVoicemailMessage (userInput : string) : bool :=
  let trimmedInput := trim userInput in
  if test threeThreePattern trimmedInput then true
  else
    let isShortNumeric := test shortNumericPattern trimmedInput in
    let isJustNumbers := test justNumbersPattern trimmedInput in
    let isAutomatedMessage :=
      existsb (fun pattern => test pattern (toLowerCase userInput)) voicemailPatterns in
    if isAutomatedMessage || isShortNumeric || isJustNumbers then true else false.

Definition endPhrases : list RegExp :=
  [ (* /^(no|nothing else|that'?s it|i'?m done|all set|wrap up|finished|bye|goodbye)$/i *)
    reI (seqs [Bol;
               Group (alts [str "no"; str "nothing else";
                            seqs [str "that"; optLit "'"; str "s it"];
                            seqs [str "i"; optLit "'"; str "m done"];
                            str "all set"; str "wrap up"; str "finished"; str "bye";
                            str "goodbye"]);
               Eol]);
    (* /^(good|ok|sounds good|alright|perfect)\s*(bye|goodbye|thanks)?$/i *)
    reI (seqs [Bol;
               Group (alts [str "good"; str "ok"; str "sounds good"; str "alright";
                            str "perfect"]);
               Star Space;
               Opt (Group (alts [str "bye"; str "goodbye"; str "thanks"]));
               Eol]);
    (* /^(thanks|thank you|appreciate it)\s*(bye|goodbye)?$/i *)
    reI (seqs [Bol;
               Group (alts [str "thanks"; str "thank you"; str "appreciate it"]);
               Star Space;
               Opt (Group (alts [str "bye"; str "goodbye"]));
               Eol]);
    (* /end call|hang up|gotta go|have to go/i *)
    reI (alts [str "end call"; str "hang up"; str "gotta go"; str "have to go"]);
    (* /see you tomorrow|talk tomorrow|tomorrow/i *)
    reI (alts [str "see you tomorrow"; str "talk tomorrow"; str "tomorrow"]) ].

(** [isSessionEnding(userInput)] *)
Definition isSessionEnding (userInput : string) : bool :=
  existsb (fun pattern => test pattern (trim userInput)) endPhrases.

(** [/\b(add|create|schedule|remind|put.*calendar|todo)\b/i] *)
Definition needsToolsPattern : RegExp :=
  reI (seqs [WordBoundary;
             Group (alts [str "add"; str "create"; str "schedule"; str "remind";
                          seqs [str "put"; anything; str "calendar"]; str "todo"]);
             WordBoundary]).

(** [/\b(will|going to|plan to|commit|promise)\b/i] *)
Definition commitmentPattern : RegExp :=
  reI (seqs [WordBoundary;
             Group (alts [str "will"; str "going to"; str "plan to"; str "commit";
                          str "promise"]);
             WordBoundary]).

End Classifier.

(** ** Data model: sessions, conversation context, responses *)
Module Model.

(** The [state] of a session. *)
Inductive SessionState : Type :=
| StInitializing | StOverview | StConversation | StEnding | StEnded | StVoicemail.

(** The [sessionType] of a session. *)
Inductive SessionType : Type := TyUnknown | TyConversation | TyVoicemail.

(** A habit of the day plan; [voice.js] reads [h.text || h.title || 'Task'],
    so either field may be missing. *)
Record Habit : Type := { habitText : option string; habitTitle : option string }.
(** A calendar event; [start] in milliseconds, when it parses as a date. *)
Record Event : Type := { eventTitle : string; eventStart : option Z }.
Record Plan : Type := { events : list Event; habits : list Habit }.

(** The metadata object handed to [addExchange]. *)
Record ExchangeMeta : Type :=
  { toolUsed : option string; toolSuccess : option bool;
    taskCount : option nat; eventCount : option nat }.

Record Exchange : Type :=
  { exUser : string; exAssistant : string; exMeta : ExchangeMeta }.

(** [session.sessionData].  [conversation] is the field the handler reads
    as [session.sessionData.conversation]: the exchanges of spec §3, in the
    order [addExchange] recorded them. *)
Record Session : Type :=
  { state : SessionState;
    sessionType : SessionType;
    conversation : list Exchange;
    decisions : list string;
    todaysPlan : option Plan;
    dayAnalysis : option string;
    startedAt : Z;
    endedAt : option Z }.

Inductive Role : Type := system | user | assistant.

#[global] Instance Role_eq_dec : EqDecision Role.
Proof. solve_decision. Defined.

(** An entry of the conversation context. *)
Record Message : Type := { role : Role; content : string }.

(** The record written by [log.insertOne]. *)
Record LogRecord : Type :=
  { logCallSid : string; logTimestamp : Z; logUserInput : string;
    logAssistantReply : string; logToolUsed : option string;
    logToolSuccess : option bool; logSessionState : SessionState;
    logSource : string }.

(** The arguments of [notionClient.logMissedCall]. *)
Record MissedCall : Type :=
  { missedDb : string; missedTo : option string; missedReason : string }.

(** The options of a TwiML [Gather]. *)
Record GatherOpts : Type :=
  { gInput : string; gAction : string; gSpeechTimeout : string;
    gTimeout : option nat; gFinishOnKey : option string; gHints : option string }.

(** The verbs of a [twiml.VoiceResponse], in document order. *)
Inductive Verb : Type :=
| Say (voice text : string)
| Gather (opts : GatherOpts)
| Hangup.

(** What the handler sends back: a TwiML document
    ([res.type('text/xml').send(response.toString())]) or a bare
    acknowledgement ([res.status(200).send(body)]). *)
Inductive HttpResponse : Type :=
| Xml (twiml : list Verb)
| Status200 (body : option string).

(** [req.body] *)
Record Request : Type :=
  { CallSid : string; SpeechResult : option string;
    CallStatus : option string; To : option string }.

(** What the reply-generation service answers to [llmReplyWithTools]. *)
Record LlmResponse : Type :=
  { type : string; action : option string; task : option string;
    title : option string; time : option string;
    originalResponse : option string; llmContent : string }.

(** The object [executeToolCall] returns. *)
Record ToolResult : Type :=
  { tool : option string; success : bool; message : string; item : option string }.

(** The insight summary. *)
Record Insights : Type :=
  { date : string; priorities : list string; mood : string;
    energyLevel : string; notes : string }.

(** A thrown JavaScript value. *)
Inductive Exn : Type := Error (msg : string).

(** The process-wide mutable state the handlers touch: the session
    registry of [sessionManager.js], the context store [ctx], and what has
    been written to the external stores. *)
Record World : Type :=
  { sessions : gmap string Session;
    contexts : gmap string (list Message);
    savedSessions : list (string * Session);
    legacyLog : list LogRecord;
    missedCalls : list MissedCall }.

(** The collaborators outside the core and the process environment.  A
    collaborator either returns or throws. *)
Record Env : Type :=
  { NOTION_LOGS_DB_ID : option string;
    NOTION_TASKS_DB_ID : option string;
    GOOGLE_CALENDAR_ACCESS_TOKEN : option string;
    (* Date.now(), in milliseconds *)
    now : Z;
    (* new Date().toISOString().split('T')[0] *)
    today : string;
    (* new Date().getHours() *)
    hour : nat;
    (* Math.floor(Math.random() * 5) *)
    randomIndex : nat;
    (* the text exported by prompts/systemPrompt.js *)
    systemPrompt : string;
    getTodayPlan : Exn + Plan;
    llmReply : list Message -> Exn + string;
    llmReplyWithTools : list Message -> Exn + LlmResponse;
    generateConversationalResponse : list Exchange -> string -> Exn + string;
    (* notionClient.addTask(db, {title, priority}); the boolean is the
       truthiness of what it returns *)
    addTask : string -> option string -> string -> Exn + bool;
    (* calendarClient.addEvent({title, time}) *)
    addEvent : option string -> option string -> Exn + bool;
    logMissedCall : MissedCall -> option Exn;
    insertOne : LogRecord -> option Exn;
    (* the write of a finished session to the database *)
    saveSession : string -> Session -> option Exn }.

(** ** The monad of handlers: state that survives a throw *)
Definition M (A : Type) : Type := World -> (Exn + A) * World.

Definition ret {A} (a : A) : M A := fun w => (inr a, w).
Definition throw {A} (e : Exn) : M A := fun w => (inl e, w).
Definition bind {A B} (m : M A) (k : A -> M B) : M B :=
  fun w => match m w with
           | (inr a, w') => k a w'
           | (inl e, w') => (inl e, w')
           end.
(** [try { m } catch (error) { h error }] *)
Definition tryCatch {A} (m : M A) (h : Exn -> M A) : M A :=
  fun w => match m w with
           | (inl e, w') => h e w'
           | r => r
           end.
Definition get : M World := fun w => (inr w, w).
Definition modify (f : World -> World) : M unit := fun w => (inr tt, f w).
(** The outcome of an awaited collaborator call. *)
Definition await {A} (r : Exn + A) : M A :=
  match r with inl e => throw e | inr a => ret a end.
Definition awaitUnit (r : option Exn) : M unit :=
  match r with Some e => throw e | None => ret tt end.

Declare Scope handler_scope.
Delimit Scope handler_scope with handler.
Notation "x <- m ;; k" := (bind m (fun x => k))
  (at level 100, m at next level, right associativity) : handler_scope.
Notation "m ;;; k" := (bind m (fun _ => k))
  (at level 100, right associativity) : handler_scope.

(** Truthiness of a possibly undefined string. *)
Definition truthyOpt (o : option string) : bool :=
  match o with Some s => JsString.truthy s | None => false end.
(** [a || b] on possibly undefined strings. *)
Definition orElse (a b : option string) : option string :=
  if truthyOpt a then a else b.
(** A possibly undefined string inside a template literal. *)
Definition interp (o : option string) : string := default "undefined" o.

End Model.

(** ** The session registry and the context store *)
Module Store.
Import Model.
Local Open Scope handler_scope.

Definition withSessions (f : gmap string Session -> gmap string Session) (w : World) : World :=
  {| sessions := f (sessions w); contexts := contexts w;
     savedSessions := savedSessions w; legacyLog := legacyLog w;
     missedCalls := missedCalls w |}.

Definition withContexts (f : gmap string (list Message) -> gmap string (list Message))
           (w : World) : World :=
  {| sessions := sessions w; contexts := f (contexts w);
     savedSessions := savedSessions w; legacyLog := legacyLog w;
     missedCalls := missedCalls w |}.

Definition isTerminal (st : SessionState) : bool :=
  match st with StEnded | StVoicemail => true | _ => false end.

(** Modelled from the spec: [utils/sessionManager.js] is not among the
    sources.  §4.2 [get]: a session created on first access has the default
    [unknown] type; §4.4: the first state is [initializing]. *)
Definition newSession (t : Z) : Session :=
  {| state := StInitializing; sessionType := TyUnknown; conversation := [];
     decisions := []; todaysPlan := None; dayAnalysis := None;
     startedAt := t; endedAt := None |}.

(** Modelled from the spec: [getSession] of the missing
    [utils/sessionManager.js].  §4.2 [get(id)]: "creates-on-first-access
    with default unknown type if absent — never fails".  The JavaScript
    value is a reference to the registry's object: the handlers read it
    through [sessionData] and write it through [updateSession]. *)
Definition getSession (env : Env) (id : string) : M unit :=
  modify (withSessions (fun m =>
    match m !! id with
    | Some _ => m
    | None => <[id := newSession (now env)]> m
    end)).

(** The session object [getSession] hands out in world [w]. *)
Definition sessionOf (env : Env) (id : string) (w : World) : Session :=
  default (newSession (now env)) (sessions w !! id).

(** [session.sessionData], read through the reference. *)
Definition sessionData (env : Env) (id : string) : M Session :=
  w <- get ;; ret (default (newSession (now env)) (sessions w !! id)).

(** An in-place write to the session object. *)
Definition updateSession (id : string) (f : Session -> Session) : M unit :=
  modify (withSessions (alter f id)).

Definition setSessionType (ty : SessionType) (s : Session) : Session :=
  {| state := state s; sessionType := ty; conversation := conversation s;
     decisions := decisions s; todaysPlan := todaysPlan s;
     dayAnalysis := dayAnalysis s; startedAt := startedAt s; endedAt := endedAt s |}.

Definition setTodaysPlan (p : Plan) (s : Session) : Session :=
  {| state := state s; sessionType := sessionType s; conversation := conversation s;
     decisions := decisions s; todaysPlan := Some p;
     dayAnalysis := dayAnalysis s; startedAt := startedAt s; endedAt := endedAt s |}.

(** Modelled from the spec: [session.setState] of the missing
    [utils/sessionManager.js].  §4.2 [setState(id, newState)]; §4.4: "ended
    and voicemail are terminal — once reached, further classifier-driven
    transitions are no-ops". *)
Definition setState (st : SessionState) (s : Session) : Session :=
  {| state := if isTerminal (state s) then state s else st;
     sessionType := sessionType s; conversation := conversation s;
     decisions := decisions s; todaysPlan := todaysPlan s;
     dayAnalysis := dayAnalysis s; startedAt := startedAt s; endedAt := endedAt s |}.

(** Modelled from the spec: [session.markAsVoicemail] of the missing
    [utils/sessionManager.js].  §4.2 [markVoicemail(id)]: "sets
    sessionType=voicemail, state=voicemail, endedAt=now; idempotent"; §3:
    [endedAt] is set exactly once. *)
Definition markAsVoicemail (t : Z) (s : Session) : Session :=
  {| state := StVoicemail; sessionType := TyVoicemail;
     conversation := conversation s; decisions := decisions s;
     todaysPlan := todaysPlan s; dayAnalysis := dayAnalysis s;
     startedAt := startedAt s;
     endedAt := match endedAt s with Some t0 => Some t0 | None => Some t end |}.

(** Modelled from the spec: [session.addExchange] of the missing
    [utils/sessionManager.js].  §4.2 [recordExchange]; §3: exchanges are an
    append-only ordered sequence of (userText, agentText, toolMetadata). *)
Definition addExchange (userText agentText : string) (meta : ExchangeMeta)
           (s : Session) : Session :=
  {| state := state s; sessionType := sessionType s;
     conversation := conversation s ++ [{| exUser := userText; exAssistant := agentText;
                                            exMeta := meta |}];
     decisions := decisions s; todaysPlan := todaysPlan s;
     dayAnalysis := dayAnalysis s; startedAt := startedAt s; endedAt := endedAt s |}.

(** Modelled from the spec: [session.addDecision] of the missing
    [utils/sessionManager.js].  §4.2 [recordDecision]; §3: decisions are an
    append-only ordered sequence of strings. *)
Definition addDecision (text : string) (s : Session) : Session :=
  {| state := state s; sessionType := sessionType s; conversation := conversation s;
     decisions := decisions s ++ [text]; todaysPlan := todaysPlan s;
     dayAnalysis := dayAnalysis s; startedAt := startedAt s; endedAt := endedAt s |}.

(** The final snapshot of §4.2 [end]: "sets state=ended if not already
    terminal, sets endedAt if unset". *)
Definition finalize (t : Z) (s : Session) : Session :=
  {| state := if isTerminal (state s) then state s else StEnded;
     sessionType := sessionType s; conversation := conversation s;
     decisions := decisions s; todaysPlan := todaysPlan s;
     dayAnalysis := dayAnalysis s; startedAt := startedAt s;
     endedAt := match endedAt s with Some t0 => Some t0 | None => Some t end |}.

(** Modelled from the spec: [endSession] of the missing
    [utils/sessionManager.js].  §4.2 [end(id)]: it finalizes the snapshot,
    "returns the final snapshot, then removes the entry"; a second call for
    the same id finds no entry and has no further effect.  The source says
    the call "saves to MongoDB" and §7(d) lets that write fail: a failing
    write throws, leaving the finalized entry in the registry. *)
Definition endSession (env : Env) (id : string) : M (option Session) :=
  w <- get ;;
  match sessions w !! id with
  | None => ret None
  | Some s =>
      let s' := finalize (now env) s in
      modify (withSessions (<[id := s']>)) ;;;
      awaitUnit (saveSession env id s') ;;;
      modify (fun w =>
                {| sessions := delete id (sessions w); contexts := contexts w;
                   savedSessions := savedSessions w ++ [(id, s')];
                   legacyLog := legacyLog w; missedCalls := missedCalls w |}) ;;;
      ret (Some s')
  end.

(** Modelled from the spec: the store [ctx] of the missing
    [memory/context.js].  §3: one ordered message list per call id, set at
    call start and cleared at call end.  The store keeps the array it is
    given, so [get] hands out the stored array itself. *)
Definition ctxGet (id : string) : M (option (list Message)) :=
  w <- get ;; ret (contexts w !! id).
Definition ctxSet (id : string) (h : list Message) : M unit :=
  modify (withContexts (<[id := h]>)).
Definition ctxClear (id : string) : M unit :=
  modify (withContexts (delete id)).

(** [history.push(msg)], where [history] is [ctx.get(callSid) || []]: when
    the store had an array for the call ([aliased]), the push is a push on
    the stored array. *)
Definition historyPush (id : string) (aliased : bool) (history : list Message)
           (msg : Message) : M (list Message) :=
  let history' := history ++ [msg] in
  (if aliased then ctxSet id history' else ret tt) ;;;
  ret history'.

End Store.

(** ** The insight extractor and the closing line *)
Module Insight.
Import JsString Regex Classifier Model.

(** [/\b(\d+)\s*(minutes?|mins?|hours?|hrs?)\b/i] *)
Definition timePattern : RegExp :=
  reI (seqs [WordBoundary; Group (Plus Digit); Star Space;
             Group (alts [seqs [str "minute"; optLit "s"]; seqs [str "min"; optLit "s"];
                          seqs [str "hour"; optLit "s"]; seqs [str "hr"; optLit "s"]]);
             WordBoundary]).

(** [/\b(start|begin|do|work on|focus on)\s+(G)/gi], where the group G is
    the class [[^.!?]] under a star *)
Definition actionPattern : RegExp :=
  RE true true
     (seqs [WordBoundary;
            Group (alts [str "start"; str "begin"; str "do"; str "work on"; str "focus on"]);
            Plus Space;
            Group (Star (Class true [CChar "."%char; CChar "!"%char; CChar "?"%char]))]).

Definition positiveWords : list string :=
  ["good"; "great"; "excellent"; "awesome"; "ready"; "excited"; "energized"; "yes";
   "absolutely"; "perfect"].
Definition negativeWords : list string :=
  ["tired"; "slow"; "difficult"; "hard"; "struggle"; "overwhelmed"; "no"; "maybe";
   "unsure"].
Definition neutralWords : list string :=
  ["ok"; "fine"; "decent"; "normal"; "alright"; "sure"].
Definition focusWords : list string :=
  ["focused"; "concentrate"; "priority"; "important"; "urgent"].

(** [/w1|w2|...|wn/], without flags. *)
Definition wordsPattern (ws : list string) : RegExp := re0 (alts (map str ws)).

(** /good|great|excellent|awesome|ready|excited|energized|yes|absolutely|perfect/ *)
Definition positivePattern : RegExp := wordsPattern positiveWords.
(** /tired|slow|difficult|hard|struggle|overwhelmed|no|maybe|unsure/ *)
Definition negativePattern : RegExp := wordsPattern negativeWords.
(** /ok|fine|decent|normal|alright|sure/ *)
Definition neutralPattern : RegExp := wordsPattern neutralWords.
(** /focused|concentrate|priority|important|urgent/ *)
Definition focusPattern : RegExp := wordsPattern focusWords.

(** [conversationHistory.filter(msg => msg.role === 'user').map(msg => msg.content)] *)
Definition userMessagesOf (conversationHistory : list Message) : list string :=
  map content (filter (fun msg => role msg = user) conversationHistory).

(** The inner [habits.forEach]: a habit without [text] makes
    [habit.text.toLowerCase()] throw a TypeError. *)
Fixpoint habitMentions (msg : string) (hs : list Habit) : Exn + list string :=
  match hs with
  | [] => inr []
  | habit :: hs' =>
      match habitText habit with
      | None => inl (Error "TypeError: Cannot read properties of undefined (reading 'toLowerCase')")
      | Some text =>
          let firstWord := hd "" (split " "%char (toLowerCase text)) in
          match habitMentions msg hs' with
          | inl e => inl e
          | inr more =>
              inr (if includes (toLowerCase msg) firstWord then text :: more else more)
          end
      end
  end.

(** What one user message pushes onto [taskMentions]. *)
Definition mentionsOf (plan : option Plan) (msg : string) : Exn + list string :=
  match match plan with Some p => habitMentions msg (habits p) | None => inr [] end with
  | inl e => inl e
  | inr fromHabits =>
      let fromTime :=
        if test timePattern msg then
          match match1 timePattern msg with
          | Some m0 => [m0 +:+ " commitment made"]
          | None => []
          end
        else [] in
      let fromActions :=
        match matchAll actionPattern msg with
        | Some actionMatches => map trim actionMatches
        | None => []
        end in
      inr (fromHabits ++ fromTime ++ fromActions)
  end.

(** The outer [userMessages.forEach]. *)
Fixpoint taskMentionsOf (plan : option Plan) (msgs : list string) : Exn + list string :=
  match msgs with
  | [] => inr []
  | msg :: msgs' =>
      match mentionsOf plan msg with
      | inl e => inl e
      | inr here =>
          match taskMentionsOf plan msgs' with
          | inl e => inl e
          | inr later => inr (here ++ later)
          end
      end
  end.

(** [[...new Set(l)]]: the first occurrence of each string, in order. *)
Fixpoint uniqueFrom (seen : list string) (l : list string) : list string :=
  match l with
  | [] => []
  | x :: l' =>
      if existsb (String.eqb x) seen then uniqueFrom seen l'
      else x :: uniqueFrom (x :: seen) l'
  end.
Definition unique (l : list string) : list string := uniqueFrom [] l.

(** The mood analysis: the if / else-if chain over [combinedText]. *)
Definition moodOf (combinedText : string) : string * string :=
  if test positivePattern combinedText then ("Positive", "High")
  else if test negativePattern combinedText then ("Low", "Low")
  else if test neutralPattern combinedText then ("Neutral", "Medium")
  else if test focusPattern combinedText then ("Focused", "High")
  else ("Neutral", "Medium").

(** [userMessages.join(' ').toLowerCase()] *)
Definition combinedTextOf (userMessages : list string) : string :=
  toLowerCase (join " " userMessages).

(** The notes digest. *)
Definition notesOf (commitments : list string) (priorities : list string)
           (userMessages : list string) : string :=
  let k1 := if 0 <? length commitments
            then ["Made " +:+ pretty (length commitments) +:+ " commitments"]
            else [] in
  let k2 := match priorities with
            | p :: _ => ["Focus: " +:+ p]
            | [] => []
            end in
  let k3 := if 3 <? length userMessages then ["Extended conversation"]
            else if 1 <? length userMessages then ["Brief interaction"]
            else [] in
  let joined := join ". " (k1 ++ k2 ++ k3) in
  if truthy joined then joined else "Quick check-in completed".

(** [extractSessionInsights(conversationHistory, session)] *)
Definition extractSessionInsights (env : Env) (conversationHistory : list Message)
           (session : Session) : Exn + Insights :=
  let userMessages := userMessagesOf conversationHistory in
  match taskMentionsOf (todaysPlan session) userMessages with
  | inl e => inl e
  | inr taskMentions =>
      let priorities := take 3 (unique taskMentions) in
      let '(mood, energyLevel) := moodOf (combinedTextOf userMessages) in
      inr {| date := today env; priorities := priorities; mood := mood;
             energyLevel := energyLevel;
             notes := notesOf (decisions session) priorities userMessages |}
  end.

Definition endingMessages : list string :=
  ["Good session. Execute those plans.";
   "Solid check-in. Make it happen.";
   "Plans set. Time to work.";
   "Clear priorities. Go execute.";
   "Session logged. Get after it."].

(** [getEndingMessage(insights)] *)
Definition getEndingMessage (env : Env) (insights : Insights) : string :=
  match priorities insights with
  | priority :: _ =>
      let shortPriority :=
        if 30 <? String.length priority
        then join " " (removelast (split " "%char (substring0 30 priority)))
        else priority in
      shortPriority +:+ " locked in. Execute."
  | [] => nth (randomIndex env mod 5) endingMessages ""
  end.

End Insight.

(** ** The request handlers of [gather.js] *)
Module GatherRoute.
Import JsString Regex Classifier Model Store Insight.
Local Open Scope handler_scope.

Definition coachVoice : string := "Google.en-US-Neural2-I".

Definition voicemailReply : string :=
  "Voicemail detected. Call back when you can actually talk.".
Definition fallbackReply : string := "Let's stay focused. What's your main priority?".
Definition fallbackEnding : string := "Session complete. Talk tomorrow!".

(** [{ input: 'speech', action: '/gather', speechTimeout: 'auto',
       timeout: 8, finishOnKey: '#' }] *)
Definition listenOpts : GatherOpts :=
  {| gInput := "speech"; gAction := "/gather"; gSpeechTimeout := "auto";
     gTimeout := Some 8; gFinishOnKey := Some "#"; gHints := None |}.
(** [{ input: 'speech', action: '/gather', speechTimeout: 'auto' }] *)
Definition fallbackListenOpts : GatherOpts :=
  {| gInput := "speech"; gAction := "/gather"; gSpeechTimeout := "auto";
     gTimeout := None; gFinishOnKey := None; gHints := None |}.

(** The session once a normal turn has typed it as a conversation. *)
Definition typed (s : Session) : Session :=
  match sessionType s with
  | TyUnknown => setSessionType TyConversation s
  | _ => s
  end.

(** The reply of a turn whose tool call was dispatched:
    [llmResponse.originalResponse ||
     (toolResult.success ? `Got it. ${toolResult.message}`
                         : `Couldn't add that. ${toolResult.message}`)]. *)
Definition toolReply (llmResponse : LlmResponse) (toolResult : ToolResult) : string :=
  if truthyOpt (originalResponse llmResponse)
  then default "" (originalResponse llmResponse)
  else if success toolResult then "Got it. " +:+ message toolResult
  else "Couldn't add that. " +:+ message toolResult.

Section Handlers.
Variable env : Env.

(** [executeToolCall(toolCall)]: the whole body sits in a try/catch, so
    a throwing client becomes a failed result. *)
Definition executeToolCall (toolCall : LlmResponse) : ToolResult :=
  let failed :=
    {| tool := action toolCall; success := false;
       message := "Something went wrong."; item := None |} in
  if bool_decide (action toolCall = Some "add_task") then
    match NOTION_TASKS_DB_ID env with
    | Some db =>
        if truthy db then
          match addTask env db (task toolCall) "Medium" with
          | inr result =>
              {| tool := Some "add_task"; success := result;
                 message := if result then "Added to your tasks."
                            else "Task creation failed.";
                 item := task toolCall |}
          | inl _ => failed
          end
        else {| tool := Some "add_task"; success := false;
                message := "Tasks not configured."; item := None |}
    | None => {| tool := Some "add_task"; success := false;
                 message := "Tasks not configured."; item := None |}
    end
  else if bool_decide (action toolCall = Some "add_event") then
    if truthyOpt (GOOGLE_CALENDAR_ACCESS_TOKEN env) then
      match addEvent env (title toolCall) (time toolCall) with
      | inr result =>
          {| tool := Some "add_event"; success := result;
             message := if result then "Added to your calendar."
                        else "Calendar event failed.";
             item := Some (interp (title toolCall) +:+ " at " +:+ interp (time toolCall)) |}
      | inl _ => failed
      end
    else {| tool := Some "add_event"; success := false;
            message := "Calendar not configured."; item := None |}
  else {| tool := Some "unknown"; success := false;
          message := "Unknown action."; item := None |}.

(** [handleSessionEnd(callSid, userInput, response, res)].  [response] is
    the TwiML built so far; nothing in the try block can throw once the
    closing line has been said, so the catch block sees it unchanged. *)
Definition handleSessionEnd (callSid userInput : string) (response : list Verb)
  : M HttpResponse :=
  tryCatch
    (getSession env callSid ;;;
     session <- sessionData env callSid ;;
     stored <- ctxGet callSid ;;
     let conversationHistory := default [] stored in
     sessionInsights <- await (extractSessionInsights env conversationHistory session) ;;
     updateSession callSid (setState StEnding) ;;;
     _ <- endSession env callSid ;;
     ctxClear callSid ;;;
     let endMessage := getEndingMessage env sessionInsights in
     ret (Xml (response ++ [Say coachVoice endMessage; Hangup])))
    (fun _ =>
       ret (Xml (response ++ [Say coachVoice fallbackEnding; Hangup]))).

(** The voicemail branch of [handleGather]. *)
Definition voicemailPath (req : Request) (response : list Verb) : M HttpResponse :=
  let callSid := CallSid req in
  getSession env callSid ;;;
  updateSession callSid (markAsVoicemail (now env)) ;;;
  match NOTION_LOGS_DB_ID env with
  | Some db =>
      if truthy db then
        let record := {| missedDb := db; missedTo := To req;
                         missedReason := "voicemail-answered" |} in
        awaitUnit (logMissedCall env record) ;;;
        modify (fun w =>
                  {| sessions := sessions w; contexts := contexts w;
                     savedSessions := savedSessions w; legacyLog := legacyLog w;
                     missedCalls := missedCalls w ++ [record] |})
      else ret tt
  | None => ret tt
  end ;;;
  _ <- endSession env callSid ;;
  ctxClear callSid ;;;
  ret (Xml (response ++ [Say coachVoice voicemailReply; Hangup])).

(** The reply of a turn that asked for a tool. *)
Definition toolTurn (callSid : string) (history : list Message)
  : M (string * option ToolResult) :=
  llmResponse <- await (llmReplyWithTools env history) ;;
  if bool_decide (type llmResponse = "tool_call") then
    let toolResult := executeToolCall llmResponse in
    let assistantReply := toolReply llmResponse toolResult in
    (* Track this as a decision *)
    (if success toolResult then
       updateSession callSid
         (addDecision ("Added: " +:+
            interp (orElse (orElse (item toolResult) (task llmResponse))
                           (title llmResponse))))
     else ret tt) ;;;
    ret (assistantReply, Some toolResult)
  else ret (llmContent llmResponse, None).

(** The reply of a turn that did not. *)
Definition chatTurn (callSid : string) (history : list Message)
  : M (string * option ToolResult) :=
  session <- sessionData env callSid ;;
  assistantReply <-
    (* if (session.sessionData.dayAnalysis): an empty analysis is falsy *)
    match dayAnalysis session with
    | Some analysis =>
        if truthy analysis then
          tryCatch
            (await (generateConversationalResponse env (conversation session) analysis))
            (fun _ => await (llmReply env history))
        else await (llmReply env history)
    | None => await (llmReply env history)
    end ;;
  ret (assistantReply, None).

(** The try block of [handleGather]: a normal turn. *)
Definition normalTurn (callSid userInput : string) (response : list Verb)
  : M HttpResponse :=
  getSession env callSid ;;;
  stored <- ctxGet callSid ;;
  let aliased := bool_decide (is_Some stored) in
  let history := default [] stored in
  session <- sessionData env callSid ;;
  match sessionType session with
  | TyUnknown => updateSession callSid (setSessionType TyConversation)
  | _ => ret tt
  end ;;;
  history <- historyPush callSid aliased history
               {| role := user; content := userInput |} ;;
  let needsTools := test needsToolsPattern userInput in
  reply <- (if needsTools then toolTurn callSid history
            else chatTurn callSid history) ;;
  let assistantReply := fst reply in
  let toolResult := snd reply in
  history <- historyPush callSid aliased history
               {| role := assistant; content := assistantReply |} ;;
  ctxSet callSid history ;;;
  updateSession callSid
    (addExchange userInput assistantReply
       {| toolUsed := toolResult ≫= tool; toolSuccess := success <$> toolResult;
          taskCount := None; eventCount := None |}) ;;;
  (if test commitmentPattern userInput
   then updateSession callSid (addDecision ("User commitment: " +:+ userInput))
   else ret tt) ;;;
  session <- sessionData env callSid ;;
  let record :=
    {| logCallSid := callSid; logTimestamp := now env; logUserInput := userInput;
       logAssistantReply := assistantReply;
       logToolUsed := toolResult ≫= tool; logToolSuccess := success <$> toolResult;
       logSessionState := state session; logSource := "morningCoach" |} in
  awaitUnit (insertOne env record) ;;;
  modify (fun w =>
            {| sessions := sessions w; contexts := contexts w;
               savedSessions := savedSessions w; legacyLog := legacyLog w ++ [record];
               missedCalls := missedCalls w |}) ;;;
  ret (Xml (response ++ [Say coachVoice assistantReply; Gather listenOpts])).

(** [handleGather(req, res)] *)
Definition handleGather (req : Request) : M HttpResponse :=
  let callSid := CallSid req in
  let userInput := trim (default "" (SpeechResult req)) in
  let response : list Verb := [] in
  if isVoicemailMessage userInput then voicemailPath req response
  else if isSessionEnding userInput then
    handleSessionEnd callSid userInput response
  else if bool_decide (CallStatus req = Some "completed")
          || bool_decide (CallStatus req = Some "no-answer") then
    _ <- endSession env callSid ;;
    ret (Status200 None)
  else
    tryCatch (normalTurn callSid userInput response)
             (fun _ =>
                ret (Xml (response ++ [Say coachVoice fallbackReply;
                                       Gather fallbackListenOpts]))).

End Handlers.
End GatherRoute.

(** ** The request handlers of [voice.js] *)
Module VoiceRoute.
Import JsString Model Store GatherRoute.
Local Open Scope handler_scope.

Section Handlers.
Variable env : Env.

(** An event is soon when it starts within the next three hours:
    [hoursUntil > 0 && hoursUntil < 3], with
    [hoursUntil = (start - now) / 3600000]; a start that is not a date
    compares false. *)
Definition isSoon (e : Event) : bool :=
  match eventStart e with
  | Some start => (0 <? start - now env)%Z && (start - now env <? 3 * 3600000)%Z
  | None => false
  end.

(** [h.text || h.title || 'Task'], cut to 20 units for the voice. *)
Definition habitName (h : Habit) : string :=
  let text := default "Task" (orElse (orElse (habitText h) (habitTitle h)) (Some "Task")) in
  if 20 <? String.length text then substring0 20 text +:+ "..." else text.

(** [generateDominantOpener(habits, events)] *)
Definition generateDominantOpener (habits : list Habit) (events : list Event) : string :=
  let greeting :=
    if hour env <? 7 then "Early. Good."
    else if hour env <? 8 then "On time. Let's work."
    else if hour env <? 9 then "Morning."
    else if hour env <? 10 then "Getting late."
    else "Already behind schedule." in
  let soonEvents := filter (fun e => isSoon e = true) events in
  let topHabits := take 2 habits in
  let eventDetails :=
    match soonEvents with
    | nextEvent :: _ =>
        let minutesUntil := ((default 0%Z (eventStart nextEvent) - now env) / 60000)%Z in
        if (minutesUntil <? 60)%Z then
          [eventTitle nextEvent +:+ " in " +:+ pretty minutesUntil +:+ " minutes. Prep time."]
        else if (minutesUntil <? 90)%Z then [eventTitle nextEvent +:+ " soon. Ready?"]
        else []
    | [] => []
    end in
  let habitDetails :=
    match map habitName topHabits with
    | [] => []
    | [n0] => [n0 +:+ " needs doing."]
    | n0 :: n1 :: _ => [n0 +:+ " and " +:+ n1 +:+ " waiting."]
    end in
  let details := eventDetails ++ habitDetails in
  match details with
  | [] => greeting +:+ " No excuses today. What's your focus?"
  | [d] => greeting +:+ " " +:+ d +:+ " Start now or explain why not."
  | _ => greeting +:+ " " +:+ join " " details +:+ " Pick one and commit."
  end.

Definition isTerminalStatus (callStatus : option string) : bool :=
  bool_decide (callStatus = Some "completed")
  || bool_decide (callStatus = Some "no-answer")
  || bool_decide (callStatus = Some "failed").

(** [handleVoice(req, res)] *)
Definition handleVoice (req : Request) : M HttpResponse :=
  let callSid := CallSid req in
  let callStatus := CallStatus req in
  (* Handle call completion/hangup *)
  if isTerminalStatus callStatus then
    _ <- endSession env callSid ;;
    ctxClear callSid ;;;
    ret (Status200 None)
  else
    tryCatch
      (plan <- await (getTodayPlan env) ;;
       getSession env callSid ;;;
       updateSession callSid (setTodaysPlan plan) ;;;
       let opener := generateDominantOpener (habits plan) (events plan) in
       ctxSet callSid [ {| role := system; content := systemPrompt env |};
                        {| role := assistant; content := opener |} ] ;;;
       updateSession callSid
         (addExchange "SESSION_START" opener
            {| toolUsed := None; toolSuccess := None;
               taskCount := Some (length (habits plan));
               eventCount := Some (length (events plan)) |}) ;;;
       updateSession callSid (setState StOverview) ;;;
       ret (Xml [ Say coachVoice opener;
                  Gather {| gInput := "speech"; gAction := "/gather";
                            gSpeechTimeout := "auto"; gTimeout := Some 8;
                            gFinishOnKey := Some "#";
                            gHints := Some "DTT, office attendance, yes, no, done, fifteen minutes" |};
                  Say coachVoice "Still there? Stop wasting time. What are you doing first?";
                  Gather {| gInput := "speech"; gAction := "/gather";
                            gSpeechTimeout := "auto"; gTimeout := Some 5;
                            gFinishOnKey := None; gHints := None |};
                  Say coachVoice "Not responding counts as avoidance. Call me back when you are ready to work.";
                  Hangup ]))
      (fun _ =>
         let opener := "Morning. Time to work. What's first?" in
         ctxSet callSid [ {| role := system; content := systemPrompt env |};
                          {| role := assistant; content := opener |} ] ;;;
         ret (Xml [ Say coachVoice opener;
                    Gather listenOpts;
                    Say coachVoice "Call back when ready.";
                    Hangup ])).

End Handlers.
End VoiceRoute.

(** ** A concrete call

    One call id, collaborators that answer, and the state the call is in
    once it has been opened: the inputs the examples below are run on. *)
Module Scenario.
Import JsString Regex Classifier Model Store Insight GatherRoute VoiceRoute.

Definition plan : Plan :=
  {| events := [];
     habits := [ {| habitText := Some "Workout 30 min"; habitTitle := None |} ] |}.

(** The structured action the reply-generation service answers a tool
    request with. *)
Definition addTaskCall : LlmResponse :=
  {| type := "tool_call"; action := Some "add_task";
     task := Some "call the dentist"; title := None; time := None;
     originalResponse := None; llmContent := "" |}.

(** A plan whose only habit has a title but no text. *)
Definition untitledPlan : Plan :=
  {| events := [];
     habits := [ {| habitText := None; habitTitle := Some "Read" |} ] |}.

(** Collaborators that all answer, unless the reply-generation service is
    down ([llmDown]) or the session store rejects its writes
    ([storeDown]); [dayPlan] is what the day-plan source returns. *)
Definition collaboratorsWith (dayPlan : Plan) (llmDown storeDown : bool) : Env :=
  {| NOTION_LOGS_DB_ID := Some "logs-db";
     NOTION_TASKS_DB_ID := Some "tasks-db";
     GOOGLE_CALENDAR_ACCESS_TOKEN := None;
     now := 1700000000000%Z;
     today := "2023-11-14";
     hour := 7;
     randomIndex := 2;
     systemPrompt := "You are a dominant, results-driven life coach AI.";
     getTodayPlan := inr dayPlan;
     llmReply := fun _ =>
       if llmDown then inl (Error "reply generation unavailable")
       else inr "Name the first task.";
     llmReplyWithTools := fun _ =>
       if llmDown then inl (Error "reply generation unavailable")
       else inr addTaskCall;
     generateConversationalResponse := fun _ _ => inr "Stay on plan.";
     addTask := fun _ _ _ => inr true;
     addEvent := fun _ _ => inr true;
     logMissedCall := fun _ => None;
     insertOne := fun _ => None;
     saveSession := fun _ _ =>
       if storeDown then Some (Error "session store unavailable") else None |}.

Definition collaborators : bool -> bool -> Env := collaboratorsWith plan.

Definition env : Env := collaborators false false.

Definition emptyWorld : World :=
  {| sessions := ∅; contexts := ∅; savedSessions := []; legacyLog := [];
     missedCalls := [] |}.

Definition request (speech status : option string) : Request :=
  {| CallSid := "CA1"; SpeechResult := speech; CallStatus := status;
     To := Some "+15550100" |}.


(** A voicemail greeting that also reads as a closing phrase. *)
Definition greeting : string := "You've reached Bob. Talk tomorrow.".

(** A scheduling request that mentions tomorrow. *)
Definition meeting : string := "put a meeting on the calendar tomorrow".

(** A turn that is neither voicemail, nor a closing, nor a tool request. *)
Definition question : string := "what should i do first".

Definition live : option string := Some "in-progress".

(** The state once [handleVoice] has opened the call. *)
Definition openedWorld : World :=
  snd (handleVoice env (request None live) emptyWorld).

(** The state of a call opened on [untitledPlan], after one normal turn. *)
Definition untitledWorld : World :=
  let env' := collaboratorsWith untitledPlan false false in
  snd (handleGather env' (request (Some question) live)
         (snd (handleVoice env' (request None live) emptyWorld))).

End Scenario.

(** ** The status callback of [voice.js] *)
Module StatusRoute.
Import JsString Model Store GatherRoute VoiceRoute.
Local Open Scope handler_scope.

Section Handlers.
Variable env : Env.

(** [callStatus === 'no-answer' || callStatus === 'failed' ||
     callStatus === 'canceled'] *)
Definition isMissedStatus (callStatus : option string) : bool :=
  bool_decide (callStatus = Some "no-answer")
  || bool_decide (callStatus = Some "failed")
  || bool_decide (callStatus = Some "canceled").

(** [handleStatus(req, res)].  Inside the missed-call branch the status is
    one of three strings, which is what the record carries as its reason. *)
Definition handleStatus (req : Request) : M HttpResponse :=
  let callSid := CallSid req in
  let callStatus := CallStatus req in
  let phoneNumber := To req in
  (* Log missed calls *)
  (if isMissedStatus callStatus then
     match NOTION_LOGS_DB_ID env with
     | Some db =>
         if truthy db then
           let record := {| missedDb := db; missedTo := phoneNumber;
                            missedReason := default "" callStatus |} in
           awaitUnit (logMissedCall env record) ;;;
           modify (fun w =>
                     {| sessions := sessions w; contexts := contexts w;
                        savedSessions := savedSessions w; legacyLog := legacyLog w;
                        missedCalls := missedCalls w ++ [record] |})
         else ret tt
     | None => ret tt
     end ;;;
     (* Clean up any session that might have been created *)
     _ <- endSession env callSid ;;
     ctxClear callSid
   else ret tt) ;;;
  (if bool_decide (callStatus = Some "completed") then
     _ <- endSession env callSid ;;
     ctxClear callSid
   else ret tt) ;;;
  ret (Status200 (Some "OK")).

End Handlers.
End StatusRoute.

(** ** Vocabulary of the statements about letter case *)
Module CaseBlind.
Import JsString Regex.

(** A position with everything around the cursor lower-cased. *)
Definition lowerPos (x : pos) : pos :=
  Pos (lowerChar <$> before x) (toLowerCaseL (rest x)).

(** Under flag [i] the atom [r] accepts a code unit exactly when it accepts
    its lower case. *)
Definition atomCaseBlind (i : bool) (r : regex) : bool :=
  forallb (fun c => eqb (atomMatches i r (lowerChar c)) (atomMatches i r c)) allAscii.

(** Every atom of the pattern is blind to letter case. *)
Fixpoint caseBlind (i : bool) (r : regex) : bool :=
  match r with
  | Empty | Bol | Eol | WordBoundary => true
  | Lit _ | Dot | Digit | Space | Class _ _ => atomCaseBlind i r
  | Seq r1 r2 | Alt r1 r2 => caseBlind i r1 && caseBlind i r2
  | Quant _ _ r' | Group r' => caseBlind i r'
  end.

Definition caseBlindRegExp (re : RegExp) : bool := caseBlind (ignoreCase re) (body re).

End CaseBlind.

(** ** Vocabulary of the statements about a turn *)
Module TurnVocabulary.
Import JsString Regex Classifier Model Store GatherRoute.

(** The free-text reply of a turn: the contextual generation when the
    session carries a truthy day analysis and that generation returns, the
    plain generation otherwise. *)
Definition chatReply (env : Env) (session : Session) (history : list Message)
  : Exn + string :=
  if truthyOpt (dayAnalysis session) then
    match generateConversationalResponse env (conversation session)
            (default "" (dayAnalysis session)) with
    | inr r => inr r
    | inl _ => llmReply env history
    end
  else llmReply env history.

(** The decision a turn records for a commitment phrase. *)
Definition commitmentNote (userInput : string) : list string :=
  if test commitmentPattern userInput then ["User commitment: " +:+ userInput] else [].


(** The metadata of the exchange a turn records. *)
Definition exchangeMeta (toolResult : option ToolResult) : ExchangeMeta :=
  {| toolUsed := toolResult ≫= tool; toolSuccess := success <$> toolResult;
     taskCount := None; eventCount := None |}.

(** The session after the decisions [notes] have been recorded in order. *)
Definition noteAll (notes : list string) (s : Session) : Session :=
  foldl (fun s note => addDecision note s) s notes.

(** The log record of a turn. *)
Definition turnRecord (env : Env) (callSid userInput assistantReply : string)
           (toolResult : option ToolResult) (st : SessionState) : LogRecord :=
  {| logCallSid := callSid; logTimestamp := now env; logUserInput := userInput;
     logAssistantReply := assistantReply;
     logToolUsed := toolResult ≫= tool; logToolSuccess := success <$> toolResult;
     logSessionState := st; logSource := "morningCoach" |}.

(** The request is neither classified as voicemail or as an end-intent nor
    carries one of the two statuses [handleGather] tests: it reaches the
    try block. *)
Definition reachesTurn (req : Request) : bool :=
  let userInput := trim (default "" (SpeechResult req)) in
  negb (isVoicemailMessage userInput) && negb (isSessionEnding userInput)
  && negb (bool_decide (CallStatus req = Some "completed")
           || bool_decide (CallStatus req = Some "no-answer")).

(** The session type once a turn has run. *)
Definition typedAs (ty : SessionType) : SessionType :=
  match ty with TyUnknown => TyConversation | _ => ty end.

(** The closing phrases the anchored patterns accept on their own. *)
Definition closers : list string :=
  ["no"; "nothing else"; "that's it"; "thats it"; "i'm done"; "im done"; "all set";
   "wrap up"; "finished"; "bye"; "goodbye";
   "good"; "ok"; "sounds good"; "alright"; "perfect";
   "thanks"; "thank you"; "appreciate it"].

End TurnVocabulary.

(** ** Vocabulary of the statements about what a handler touches *)
Module Footprint.
Import Model.

(** From [w] to [w'] only the call [id] was touched: every other call keeps
    its session and its context, and the external stores only grew, the
    session store and the turn log by records of the call [id]. *)
Definition touchesOnly (id : string) (w w' : World) : Prop :=
  (forall id', id' <> id -> sessions w' !! id' = sessions w !! id') /\
  (forall id', id' <> id -> contexts w' !! id' = contexts w !! id') /\
  (exists saved, savedSessions w' = savedSessions w ++ saved /\
                 Forall (fun p => fst p = id) saved) /\
  (exists records, legacyLog w' = legacyLog w ++ records /\
                   Forall (fun r => logCallSid r = id) records) /\
  (exists missed, missedCalls w' = missedCalls w ++ missed).

(** A computation that touches only the call [id], however it ends. *)
Definition confined {A} (id : string) (m : M A) : Prop :=
  forall w, touchesOnly id w (snd (m w)).

End Footprint.

(** ** Variants of the concrete call *)
Module Variants.
Import Model Store.

(** The collaborators [env] with a turn log ([logDown]) or a missed-call
    log ([missedDown]) that rejects its writes. *)
Definition withOutage (logDown missedDown : bool) (env : Env) : Env :=
  {| NOTION_LOGS_DB_ID := NOTION_LOGS_DB_ID env;
     NOTION_TASKS_DB_ID := NOTION_TASKS_DB_ID env;
     GOOGLE_CALENDAR_ACCESS_TOKEN := GOOGLE_CALENDAR_ACCESS_TOKEN env;
     now := now env; today := today env; hour := hour env;
     randomIndex := randomIndex env; systemPrompt := systemPrompt env;
     getTodayPlan := getTodayPlan env; llmReply := llmReply env;
     llmReplyWithTools := llmReplyWithTools env;
     generateConversationalResponse := generateConversationalResponse env;
     addTask := addTask env; addEvent := addEvent env;
     logMissedCall := fun r =>
       if missedDown then Some (Error "missed-call log unavailable")
       else logMissedCall env r;
     insertOne := fun r =>
       if logDown then Some (Error "turn log unavailable") else insertOne env r;
     saveSession := saveSession env |}.

(** The collaborators [env] with a day-plan source that throws. *)
Definition withoutPlan (env : Env) : Env :=
  {| NOTION_LOGS_DB_ID := NOTION_LOGS_DB_ID env;
     NOTION_TASKS_DB_ID := NOTION_TASKS_DB_ID env;
     GOOGLE_CALENDAR_ACCESS_TOKEN := GOOGLE_CALENDAR_ACCESS_TOKEN env;
     now := now env; today := today env; hour := hour env;
     randomIndex := randomIndex env; systemPrompt := systemPrompt env;
     getTodayPlan := inl (Error "day plan unavailable"); llmReply := llmReply env;
     llmReplyWithTools := llmReplyWithTools env;
     generateConversationalResponse := generateConversationalResponse env;
     addTask := addTask env; addEvent := addEvent env;
     logMissedCall := logMissedCall env; insertOne := insertOne env;
     saveSession := saveSession env |}.

(** The world [w] once the session of the concrete call carries the day
    analysis [analysis]. *)
Definition withAnalysis (analysis : string) (w : World) : World :=
  withSessions
    (alter (fun s =>
              {| state := state s; sessionType := sessionType s;
                 conversation := conversation s; decisions := decisions s;
                 todaysPlan := todaysPlan s; dayAnalysis := Some analysis;
                 startedAt := startedAt s; endedAt := endedAt s |}) "CA1") w.

(** An event that starts [minutes] minutes after the clock of [env]. *)
Definition eventIn (env : Env) (name : string) (minutes : Z) : Event :=
  {| eventTitle := name; eventStart := Some (now env + minutes * 60000)%Z |}.

End Variants.

(** ** Facts about the string operations *)
Module JsStringFacts.
Import JsString.

Lemma chars_ofChars (l : list ascii) : chars (ofChars l) = l.
Proof. apply list_ascii_of_string_of_list_ascii. Qed.

Lemma ofChars_chars (s : string) : ofChars (chars s) = s.
Proof. apply string_of_list_ascii_of_string. Qed.

Lemma in_allAscii (c : ascii) : In c allAscii.
Proof.
  unfold allAscii. apply in_map_iff. exists (nat_of_ascii c). split.
  - apply ascii_nat_embedding.
  - apply in_seq. pose proof (nat_ascii_bounded c). lia.
Qed.

(** A boolean property checked on all 256 code units holds of each. *)
Lemma forall_ascii (P : ascii -> bool) :
  forallb P allAscii = true -> forall c, P c = true.
Proof.
  intros H c. rewrite forallb_forall in H. apply H, in_allAscii.
Qed.

Lemma digit_lower_fixed (c : ascii) : isDigit c = true -> lowerChar c = c.
Proof.
  revert c.
  assert (H : forall c, (implb (isDigit c) (bool_decide (lowerChar c = c))) = true).
  { apply forall_ascii. vm_compute. reflexivity. }
  intros c Hd. specialize (H c). rewrite Hd in H. simpl in H.
  now apply bool_decide_eq_true in H.
Qed.
End JsStringFacts.

(** ** Facts about the matcher *)
Module RegexFacts.
Import JsString Regex JsStringFacts.

Lemma nonEmpty_app {A} (l1 l2 : list A) :
  nonEmpty (l1 ++ l2) = nonEmpty l1 || nonEmpty l2.
Proof. destruct l1; reflexivity. Qed.

Lemma nonEmpty_In {A} (l : list A) x : In x l -> nonEmpty l = true.
Proof. destruct l; [contradiction | reflexivity]. Qed.

(** *** Composing matches *)

Lemma run_seq_intro i r1 r2 x y z :
  In y (run i r1 x) -> In z (run i r2 y) -> In z (run i (Seq r1 r2) x).
Proof. intros Hy Hz. simpl. apply in_flat_map. eauto. Qed.

Lemma run_seqs_cons i r rs x y z :
  In y (run i r x) -> In z (run i (seqs rs) y) -> In z (run i (seqs (r :: rs)) x).
Proof.
  intros Hy Hz. destruct rs as [|r' rs].
  - simpl in *. destruct Hz as [<-|[]]. exact Hy.
  - change (seqs (r :: r' :: rs)) with (Seq r (seqs (r' :: rs))).
    eapply run_seq_intro; eauto.
Qed.

Lemma run_bol i l : In (Pos None l) (run i Bol (Pos None l)).
Proof. simpl. auto. Qed.

Lemma run_eol i p : In (Pos p []) (run i Eol (Pos p [])).
Proof. simpl. auto. Qed.

(** *** Quantifiers over atoms *)

Lemma repeatMatcher_fuel_mono body f f' min max x z :
  f <= f' ->
  In z (repeatMatcher body f min max x) -> In z (repeatMatcher body f' min max x).
Proof.
  revert f' min max x z. induction f as [|f IH]; intros f' min max x z Hle Hin.
  - destruct Hin.
  - destruct f' as [|f']; [lia|].
    simpl in *. destruct max as [[|m]|]; auto.
    + assert (Hflat : forall w,
        In w (flat_map (fun y => if (min =? 0) && (length (rest y) =? length (rest x)) then []
                                 else repeatMatcher body f (pred min) (pred <$> Some (S m)) y) (body x)) ->
        In w (flat_map (fun y => if (min =? 0) && (length (rest y) =? length (rest x)) then []
                                 else repeatMatcher body f' (pred min) (pred <$> Some (S m)) y) (body x))).
      { intros w Hw. apply in_flat_map in Hw as (y & Hy & Hw). apply in_flat_map.
        exists y. split; auto. destruct (_ && _); auto. eapply IH; [|exact Hw]. lia. }
      destruct (min =? 0); auto.
      apply in_app_iff in Hin as [Hin|Hin]; apply in_app_iff; auto.
    + assert (Hflat : forall w,
        In w (flat_map (fun y => if (min =? 0) && (length (rest y) =? length (rest x)) then []
                                 else repeatMatcher body f (pred min) (pred <$> None) y) (body x)) ->
        In w (flat_map (fun y => if (min =? 0) && (length (rest y) =? length (rest x)) then []
                                 else repeatMatcher body f' (pred min) (pred <$> None) y) (body x))).
      { intros w Hw. apply in_flat_map in Hw as (y & Hy & Hw). apply in_flat_map.
        exists y. split; auto. destruct (_ && _); auto. eapply IH; [|exact Hw]. lia. }
      destruct (min =? 0); auto.
      apply in_app_iff in Hin as [Hin|Hin]; apply in_app_iff; auto.
Qed.

(** A quantified atom can stop after any run of units the atom accepts
    whose length lies between the bounds. *)
Lemma repeatMatcher_atoms i r cs :
  forall fuel min max p l,
    (forall x, run i r x = stepAtom i r x) ->
    Forall (fun c => atomMatches i r c = true) cs ->
    min <= length cs -> withinMax (length cs) max ->
    length cs < fuel ->
    In (after p cs l) (repeatMatcher (run i r) fuel min max (Pos p (cs ++ l))).
Proof.
  induction cs as [|c cs IH]; intros fuel min max p l Hatom Hall Hmin Hmax Hfuel.
  - simpl in Hmin. assert (min = 0) as -> by lia.
    destruct fuel as [|fuel]; [simpl in Hfuel; lia|].
    simpl. destruct max as [[|m]|]; simpl; auto; apply in_app_iff; simpl; auto.
  - destruct fuel as [|fuel]; [simpl in Hfuel; lia|].
    inversion Hall as [|? ? Hc Hcs]; subst.
    assert (Hstep : run i r (Pos p ((c :: cs) ++ l)) = [Pos (Some c) (cs ++ l)]).
    { rewrite Hatom. unfold stepAtom. simpl. now rewrite Hc. }
    assert (Hafter : after p (c :: cs) l = after (Some c) cs l).
    { unfold after. destruct cs; reflexivity. }
    rewrite Hafter.
    assert (Hrec : In (after (Some c) cs l)
                      (repeatMatcher (run i r) fuel (pred min) (pred <$> max)
                         (Pos (Some c) (cs ++ l)))).
    { apply IH; auto.
      - simpl in Hmin. lia.
      - destruct max as [m|]; simpl in *; lia.
      - simpl in Hfuel. lia. }
    assert (Hlen : (length (cs ++ l) =? length ((c :: cs) ++ l)) = false).
    { apply Nat.eqb_neq. simpl. lia. }
    simpl repeatMatcher.
    destruct max as [[|m]|].
    + simpl in Hmax. lia.
    + change (run i r (Pos p (c :: cs ++ l))) with (run i r (Pos p ((c :: cs) ++ l))).
      rewrite Hstep. simpl flat_map. simpl rest. simpl in Hlen. rewrite Hlen.
      rewrite andb_false_r, app_nil_r.
      destruct (min =? 0); [apply in_app_iff; left|]; exact Hrec.
    + change (run i r (Pos p (c :: cs ++ l))) with (run i r (Pos p ((c :: cs) ++ l))).
      rewrite Hstep. simpl flat_map. simpl rest. simpl in Hlen. rewrite Hlen.
      rewrite andb_false_r, app_nil_r.
      destruct (min =? 0); [apply in_app_iff; left|]; exact Hrec.
Qed.

Lemma run_atom i r x : isAtom r -> run i r x = stepAtom i r x.
Proof. destruct r; simpl; intros []; reflexivity. Qed.

(** *** The fuel of the quantifier is enough *)

Lemma flat_map_ext_in {A B} (g h : A -> list B) l :
  (forall a, In a l -> g a = h a) -> flat_map g l = flat_map h l.
Proof.
  induction l as [|a l IH]; intros E; simpl; [reflexivity|].
  rewrite (E a) by (left; reflexivity). rewrite IH; [reflexivity|].
  intros b Hb. apply E. now right.
Qed.

Lemma repeatMatcher_shrinks body :
  (forall x y, In y (body x) -> length (rest y) <= length (rest x)) ->
  forall fuel min max x y,
    In y (repeatMatcher body fuel min max x) -> length (rest y) <= length (rest x).
Proof.
  intros Hb. induction fuel as [|fuel IH]; intros min max x y Hin; [destruct Hin|].
  cbn [repeatMatcher] in Hin.
  assert (Hagain : forall max',
             In y (flat_map (fun y0 =>
                     if (min =? 0) && (length (rest y0) =? length (rest x)) then []
                     else repeatMatcher body fuel (pred min) max' y0) (body x)) ->
             length (rest y) <= length (rest x)).
  { intros max' H. apply in_flat_map in H as (y0 & Hy0 & H).
    destruct (_ && _); [destruct H|].
    apply IH in H. apply Hb in Hy0. lia. }
  assert (Hhere : In y [x] -> length (rest y) <= length (rest x)).
  { intros [<-|[]]. lia. }
  destruct max as [[|m]|]; auto;
    destruct (min =? 0); eauto;
    apply in_app_iff in Hin as [Hin|Hin]; eauto.
Qed.

(** A match never ends before it starts. *)
Lemma run_shrinks i r :
  forall x y, In y (run i r x) -> length (rest y) <= length (rest x).
Proof.
  assert (Hatom : forall r x y, In y (stepAtom i r x) ->
                                length (rest y) <= length (rest x)).
  { intros r0 x y. unfold stepAtom. destruct (rest x) as [|c l] eqn:E; [intros []|].
    destruct (atomMatches i r0 c); [|intros []].
    intros [<-|[]]. simpl. lia. }
  induction r as [| | | | | | r1 IH1 r2 IH2 | r1 IH1 r2 IH2 | min max r IH | r IH | | |];
    intros x y Hin; cbn [run] in Hin; eauto.
  - destruct Hin as [<-|[]]. lia.
  - apply in_flat_map in Hin as (y0 & H0 & H). apply IH1 in H0. apply IH2 in H. lia.
  - apply in_app_iff in Hin as [H|H]; eauto.
  - eapply repeatMatcher_shrinks; eauto.
  - destruct (before x); [destruct Hin|]. destruct Hin as [<-|[]]. lia.
  - assert (y = x) as ->; [|lia].
    destruct (rest x); [destruct Hin as [<-|[]]; reflexivity | destruct Hin].
  - destruct (xorb _ _); [|destruct Hin]. destruct Hin as [<-|[]]. lia.
Qed.

(** Any fuel above [min] plus the length of the input gives the same
    result: the quantifier never runs out of it. *)
Lemma repeatMatcher_fuel_stable body :
  (forall x y, In y (body x) -> length (rest y) <= length (rest x)) ->
  forall f1 f2 min max x,
    min + length (rest x) < f1 -> min + length (rest x) < f2 ->
    repeatMatcher body f1 min max x = repeatMatcher body f2 min max x.
Proof.
  intros Hb. induction f1 as [|f1 IH]; intros f2 min max x H1 H2; [lia|].
  destruct f2 as [|f2]; [lia|].
  cbn [repeatMatcher].
  assert (Hagain : forall max',
             flat_map (fun y =>
                 if (min =? 0) && (length (rest y) =? length (rest x)) then []
                 else repeatMatcher body f1 (pred min) max' y) (body x)
             = flat_map (fun y =>
                 if (min =? 0) && (length (rest y) =? length (rest x)) then []
                 else repeatMatcher body f2 (pred min) max' y) (body x)).
  { intros max'. apply flat_map_ext_in. intros y Hy.
    destruct ((min =? 0) && (length (rest y) =? length (rest x))) eqn:E; [reflexivity|].
    apply Hb in Hy.
    apply IH.
    - destruct min as [|min]; simpl in *; [|lia].
      apply Nat.eqb_neq in E. lia.
    - destruct min as [|min]; simpl in *; [|lia].
      apply Nat.eqb_neq in E. lia. }
  destruct max as [[|m]|]; [reflexivity| |]; now rewrite Hagain.
Qed.

Lemma run_quant_fuel i min max r x fuel :
  min + length (rest x) < fuel ->
  run i (Quant min max r) x = repeatMatcher (run i r) fuel min max x.
Proof.
  intros H. cbn [run].
  apply repeatMatcher_fuel_stable; [apply run_shrinks | lia | exact H].
Qed.

Lemma run_quant i min max r x :
  run i (Quant min max r) x
  = repeatMatcher (run i r) (S (min + length (rest x))) min max x.
Proof. reflexivity. Qed.

Lemma run_quant_atoms i r min max cs p l :
  isAtom r ->
  Forall (fun c => atomMatches i r c = true) cs ->
  min <= length cs -> withinMax (length cs) max ->
  In (after p cs l) (run i (Quant min max r) (Pos p (cs ++ l))).
Proof.
  intros Hr Hall Hmin Hmax. rewrite run_quant.
  apply repeatMatcher_atoms; auto.
  - intros x. now apply run_atom.
  - cbn [rest]. rewrite length_app. lia.
Qed.

(** *** Searching for a match *)

Lemma execFrom_here i r p l y :
  In y (run i r (Pos p l)) -> is_Some (execFrom i r p l).
Proof.
  intros Hin. destruct l; simpl; destruct (run i r _); try contradiction; eauto.
Qed.

Lemma testL_anchored i g r l y :
  In y (run i r (Pos None l)) -> testL (RE i g r) l = true.
Proof.
  intros Hin. unfold testL, execL. simpl.
  destruct (execFrom_here i r None l y Hin) as [m ->]. reflexivity.
Qed.

Lemma execFrom_matchesSomewhere i r p l :
  match execFrom i r p l with Some _ => true | None => false end
  = matchesSomewhere i r p l.
Proof.
  revert p. induction l as [|c l IH]; intros p; simpl.
  - destruct (run i r (Pos p [])); reflexivity.
  - destruct (run i r (Pos p (c :: l))); simpl; [apply IH | reflexivity].
Qed.

(** *** The fuel of the global search is enough *)

Lemma execFrom_bounds i r p l m :
  execFrom i r p l = Some m ->
  length (rest (mend m)) <= length (rest (mstart m)) /\
  length (rest (mstart m)) <= length l.
Proof.
  revert p. induction l as [|c l IH]; intros p H; cbn [execFrom] in H.
  - destruct (run i r (Pos p [])) as [|e es] eqn:E; [discriminate|].
    injection H as <-. cbn [mstart mend rest]. split; [|lia].
    apply (run_shrinks i r (Pos p [])). rewrite E. now left.
  - destruct (run i r (Pos p (c :: l))) as [|e es] eqn:E.
    + apply IH in H. cbn [length]. lia.
    + injection H as <-. cbn [mstart mend]. split; [|cbn [rest]; lia].
      apply (run_shrinks i r (Pos p (c :: l))). rewrite E. now left.
Qed.

(** Any fuel above the length of the input gives the same matches. *)
Lemma matchAllFrom_fuel_stable i r :
  forall f1 f2 p l,
    length l < f1 -> length l < f2 ->
    matchAllFrom f1 i r p l = matchAllFrom f2 i r p l.
Proof.
  induction f1 as [|f1 IH]; intros f2 p l H1 H2; [lia|].
  destruct f2 as [|f2]; [lia|].
  cbn [matchAllFrom].
  destruct (execFrom i r p l) as [m|] eqn:E; [|reflexivity].
  apply execFrom_bounds in E as [B1 B2]. f_equal.
  destruct (length (rest (mend m)) =? length (rest (mstart m))) eqn:Q.
  - destruct (rest (mend m)) as [|c l'] eqn:R; [reflexivity|].
    cbn [length] in *. apply IH; lia.
  - apply Nat.eqb_neq in Q. apply IH; lia.
Qed.

Lemma testL_matchesSomewhere re l :
  testL re l = matchesSomewhere (ignoreCase re) (body re) None l.
Proof. apply execFrom_matchesSomewhere. Qed.

End RegexFacts.

Module LiteralFacts.
Import JsString Regex JsStringFacts RegexFacts.

(** *** Patterns made of literal words *)
Section Literal.
Variable i : bool.
(** How the flag normalises an input unit before it is compared with a
    pattern character: not at all, or by lower-casing. *)
Variable f : ascii -> ascii.

Lemma flat_map_singleton {A} (l : list A) : flat_map (fun y => [y]) l = l.
Proof. induction l; simpl; congruence. Qed.

Lemma run_strL_cons c w x :
  run i (strL (c :: w)) x = flat_map (run i (strL w)) (stepAtom i (Lit c) x).
Proof.
  destruct w; [|reflexivity].
  simpl. symmetry. apply flat_map_singleton.
Qed.

Lemma run_strL_nonEmpty w :
  Forall (litOk i f) w ->
  forall p l, nonEmpty (run i (strL w) (Pos p l)) = startsWithL w (map f l).
Proof.
  induction w as [|a w IH]; intros Hw p l; [reflexivity|].
  inversion Hw as [|? ? Ha Hw']; subst.
  rewrite run_strL_cons. unfold stepAtom. cbn [rest].
  destruct l as [|c l]; [reflexivity|].
  rewrite (Ha c). cbn [map startsWithL].
  destruct (ascii_dec a (f c)) as [->|Hne].
  - rewrite bool_decide_eq_true_2 by reflexivity.
    cbn [flat_map]. rewrite app_nil_r. now apply IH.
  - rewrite bool_decide_eq_false_2 by congruence. reflexivity.
Qed.

Lemma run_alts_nonEmpty rs x :
  rs <> [] ->
  nonEmpty (run i (alts rs) x) = existsb (fun r => nonEmpty (run i r x)) rs.
Proof.
  induction rs as [|r rs IH]; intros Hne; [congruence|].
  destruct rs as [|r' rs].
  - simpl. now rewrite orb_false_r.
  - change (alts (r :: r' :: rs)) with (Alt r (alts (r' :: rs))).
    cbn [run]. rewrite nonEmpty_app, IH by discriminate. reflexivity.
Qed.

Lemma existsb_map {A B} (g : B -> bool) (h : A -> B) l :
  existsb g (map h l) = existsb (fun a => g (h a)) l.
Proof. induction l as [|a l IH]; simpl; congruence. Qed.

Lemma existsb_ext {A} (g h : A -> bool) l :
  (forall a, g a = h a) -> existsb g l = existsb h l.
Proof. intros E. induction l as [|a l IH]; simpl; congruence. Qed.

Lemma existsb_orb {A} (g h : A -> bool) l :
  existsb (fun a => g a || h a) l = existsb g l || existsb h l.
Proof.
  induction l as [|a l IH]; simpl; [reflexivity|]. rewrite IH.
  destruct (g a), (h a), (existsb g l), (existsb h l); reflexivity.
Qed.

Lemma matchesSomewhere_words ws :
  ws <> [] -> Forall (Forall (litOk i f)) ws ->
  forall p l,
    matchesSomewhere i (alts (map strL ws)) p l
    = existsb (fun w => includesL w (map f l)) ws.
Proof.
  intros Hne Hws p l. revert p.
  assert (Hhere : forall p l,
             nonEmpty (run i (alts (map strL ws)) (Pos p l))
             = existsb (fun w => startsWithL w (map f l)) ws).
  { intros p0 l0. rewrite run_alts_nonEmpty by (destruct ws; [congruence|discriminate]).
    rewrite existsb_map. clear Hne.
    induction Hws as [|w ws Hw Hws IH]; simpl; [reflexivity|].
    now rewrite run_strL_nonEmpty, IH. }
  induction l as [|c l IH]; intros p.
  - cbn [matchesSomewhere map]. rewrite Hhere, orb_false_r.
    apply existsb_ext. intros w. simpl. cbn [map]. now rewrite orb_false_r.
  - cbn [matchesSomewhere]. rewrite Hhere, IH. cbn [map].
    rewrite <- existsb_orb. apply existsb_ext. intros w. reflexivity.
Qed.
End Literal.


Lemma litOk_ignoreCase a : ciStable a = true -> litOk true lowerChar a.
Proof.
  intros H c. unfold ciStable in H. rewrite forallb_forall in H.
  apply eqb_prop, H, in_allAscii.
Qed.

Lemma Forall_litOk_ignoreCase ws :
  forallb (forallb ciStable) ws = true -> Forall (Forall (litOk true lowerChar)) ws.
Proof.
  intros H. rewrite forallb_forall in H. apply List.Forall_forall. intros w Hw.
  specialize (H w Hw). rewrite forallb_forall in H.
  apply List.Forall_forall. intros a Ha. apply litOk_ignoreCase, H, Ha.
Qed.


(** The same under the [i] flag, for words of stable characters: the
    lower-cased input includes one of the words. *)
Lemma test_words_ignoreCase g ws s :
  ws <> [] -> forallb (forallb ciStable) (map chars ws) = true ->
  test (RE true g (alts (map str ws))) s = existsb (includes (toLowerCase s)) ws.
Proof.
  intros Hne Hst. unfold test. rewrite testL_matchesSomewhere. cbn [ignoreCase body].
  unfold str. rewrite <- map_map.
  rewrite (matchesSomewhere_words true lowerChar).
  - rewrite existsb_map. apply existsb_ext. intros w. unfold includes, toLowerCase.
    now rewrite chars_ofChars.
  - destruct ws; [congruence|discriminate].
  - now apply Forall_litOk_ignoreCase.
Qed.

End LiteralFacts.

(** ** Facts about trimming, inclusion and the digit patterns *)
Module ClassifierFacts.
Import JsString Regex Classifier JsStringFacts RegexFacts LiteralFacts.

(** *** Trimming keeps what lies between two non-blank units *)

Lemma trimStartL_keeps pre c w :
  isWhiteSpace c = false ->
  exists pre', trimStartL (pre ++ c :: w) = pre' ++ c :: w.
Proof.
  intros Hc. induction pre as [|a pre IH]; simpl.
  - rewrite Hc. now exists [].
  - destruct (isWhiteSpace a); [exact IH|]. now exists (a :: pre).
Qed.

Lemma trimL_keeps pre mid post a b :
  isWhiteSpace a = false -> isWhiteSpace b = false ->
  exists pre' post', trimL (pre ++ (a :: mid ++ [b]) ++ post) = pre' ++ (a :: mid ++ [b]) ++ post'.
Proof.
  intros Ha Hb. unfold trimL, trimEndL.
  cbn [app]. destruct (trimStartL_keeps pre a ((mid ++ [b]) ++ post) Ha) as [pre' ->].
  replace (rev (pre' ++ a :: (mid ++ [b]) ++ post))
    with (rev post ++ b :: (rev mid ++ a :: rev pre')).
  2:{ rewrite !rev_app_distr. cbn [rev]. rewrite !rev_app_distr. cbn [rev app].
      rewrite <- !app_assoc. reflexivity. }
  destruct (trimStartL_keeps (rev post) b (rev mid ++ a :: rev pre') Hb) as [post' ->].
  exists pre', (rev post').
  rewrite rev_app_distr. cbn [rev]. rewrite !rev_app_distr. cbn [rev app].
  rewrite !rev_involutive, <- !app_assoc. reflexivity.
Qed.

Lemma startsWithL_app w l : startsWithL w (w ++ l) = true.
Proof.
  induction w as [|a w IH]; simpl; [reflexivity|].
  destruct (ascii_dec a a); [exact IH | congruence].
Qed.

Lemma startsWithL_inv w l : startsWithL w l = true -> exists post, l = w ++ post.
Proof.
  revert l. induction w as [|a w IH]; intros l H; simpl in *; [now exists l|].
  destruct l as [|b l]; [discriminate|].
  destruct (ascii_dec a b) as [->|]; [|discriminate].
  destruct (IH l H) as [post ->]. now exists post.
Qed.

Lemma includesL_here w l : startsWithL w l = true -> includesL w l = true.
Proof. intros H. destruct l; simpl; rewrite H; reflexivity. Qed.

Lemma includesL_intro w pre post : includesL w (pre ++ w ++ post) = true.
Proof.
  induction pre as [|a pre IH].
  - change ([] ++ w ++ post) with (w ++ post).
    apply includesL_here, startsWithL_app.
  - cbn [app includesL]. rewrite IH. apply orb_true_r.
Qed.

Lemma includesL_inv w l :
  includesL w l = true -> exists pre post, l = pre ++ w ++ post.
Proof.
  induction l as [|a l IH]; simpl; intros H.
  - rewrite orb_false_r in H. apply startsWithL_inv in H as [post ->].
    now exists [], post.
  - apply orb_true_iff in H as [H|H].
    + apply startsWithL_inv in H as [post ->]. now exists [], post.
    + destruct (IH H) as (pre & post & ->). now exists (a :: pre), post.
Qed.

Lemma lowerChar_blank c : isWhiteSpace c = true -> isWhiteSpace (lowerChar c) = true.
Proof.
  revert c.
  assert (H : forall c, implb (isWhiteSpace c) (isWhiteSpace (lowerChar c)) = true).
  { apply forall_ascii. vm_compute. reflexivity. }
  intros c Hc. specialize (H c). now rewrite Hc in H.
Qed.

(** A word with non-blank ends that the lower-cased input includes is
    still included after trimming. *)
Lemma includes_trim a mid b l :
  isWhiteSpace a = false -> isWhiteSpace b = false ->
  includesL (a :: mid ++ [b]) (toLowerCaseL l) = true ->
  includesL (a :: mid ++ [b]) (toLowerCaseL (trimL l)) = true.
Proof.
  intros Ha Hb H. apply includesL_inv in H as (pre & post & E).
  unfold toLowerCaseL in E.
  apply map_eq_app in E as (pre0 & rest0 & -> & Epre & E).
  apply map_eq_app in E as (w0 & post0 & -> & Ew & Epost).
  destruct w0 as [|a0 w0]; [discriminate|].
  cbn [map] in Ew. injection Ew as Ea Ew.
  apply map_eq_app in Ew as (mid0 & last0 & -> & Emid & Elast).
  destruct last0 as [|b0 [|? ?]]; try discriminate.
  cbn [map] in Elast. injection Elast as Eb.
  assert (Ha0 : isWhiteSpace a0 = false).
  { destruct (isWhiteSpace a0) eqn:E0; [|reflexivity].
    apply lowerChar_blank in E0. congruence. }
  assert (Hb0 : isWhiteSpace b0 = false).
  { destruct (isWhiteSpace b0) eqn:E0; [|reflexivity].
    apply lowerChar_blank in E0. congruence. }
  destruct (trimL_keeps pre0 mid0 post0 a0 b0 Ha0 Hb0) as (pre' & post' & ->).
  unfold toLowerCaseL. rewrite !map_app. cbn [map].
  rewrite map_app. cbn [map]. rewrite Ea, Eb, Emid.
  apply includesL_intro.
Qed.

Lemma digit_atom c : isDigit c = true -> atomMatches false Digit c = true.
Proof. auto. Qed.

Lemma forallb_digits_atoms l :
  forallb isDigit l = true -> Forall (fun c => atomMatches false Digit c = true) l.
Proof.
  intros H. rewrite forallb_forall in H. apply List.Forall_forall. exact H.
Qed.

(** The just-numbers pattern accepts every non-empty run of digits. *)
Lemma justNumbers_digits l :
  l <> [] -> forallb isDigit l = true -> testL justNumbersPattern l = true.
Proof.
  intros Hne Hd. unfold justNumbersPattern, re0.
  eapply testL_anchored.
  eapply run_seqs_cons; [apply run_bol|].
  rewrite <- (app_nil_r l) at 1.
  eapply run_seqs_cons.
  { apply run_quant_atoms with (cs := l); [exact I | now apply forallb_digits_atoms | | exact I].
    destruct l; [congruence | simpl; lia]. }
  eapply run_seqs_cons.
  { apply (run_quant_atoms false _ 0 None [] _ []); [exact I | constructor | simpl; lia | exact I]. }
  eapply run_seqs_cons.
  { apply (run_quant_atoms false _ 0 None [] _ []); [exact I | constructor | simpl; lia | exact I]. }
  eapply run_seqs_cons.
  { apply (run_quant_atoms false _ 0 (Some 1) [] _ []); [exact I | constructor | simpl; lia | simpl; lia]. }
  apply run_eol.
Qed.

Lemma toLowerCaseL_fixed l :
  Forall (fun c => lowerChar c = c) l -> toLowerCaseL l = l.
Proof.
  induction 1 as [|c l Hc _ IH]; [reflexivity|].
  unfold toLowerCaseL in *. cbn [map]. now rewrite Hc, IH.
Qed.

Lemma digits_lower_fixed l :
  forallb isDigit l = true -> Forall (fun c => lowerChar c = c) l.
Proof.
  intros H. rewrite forallb_forall in H. apply List.Forall_forall.
  intros c Hc. apply digit_lower_fixed, H, Hc.
Qed.

Lemma in_voicemailPatterns_phone : In phoneNumberPattern voicemailPatterns.
Proof. unfold voicemailPatterns. do 11 right. left. reflexivity. Qed.

(** One step of an anchored match: the next element of the sequence is a
    quantified atom that reads [cs]. *)
Ltac read_atoms chunk :=
  eapply run_seqs_cons;
  [ apply run_quant_atoms with (cs := chunk);
    [ exact I | | | ] | ].

Lemma phoneNumber_shape a b c s1 s2 e :
  length a = 3 -> length b = 3 -> length c = 4 ->
  forallb isDigit a = true -> forallb isDigit b = true -> forallb isDigit c = true ->
  In s1 [[]; chars "-"; chars "."] -> In s2 [[]; chars "-"; chars "."] ->
  In e [[]; chars "."] ->
  testL phoneNumberPattern (a ++ s1 ++ b ++ s2 ++ c ++ e) = true.
Proof.
  intros La Lb Lc Ha Hb Hc Hs1 Hs2 He.
  assert (Sep : forall s, In s [[]; chars "-"; chars "."] ->
                Forall (fun c => atomMatches false dashOrDot c = true) s /\ length s <= 1).
  { intros s [<-|[<-|[<-|[]]]]; split; repeat constructor. }
  assert (Dot : Forall (fun c => atomMatches false (str ".") c = true) e /\ length e <= 1).
  { destruct He as [<-|[<-|[]]]; split; repeat constructor. }
  destruct (Sep s1 Hs1) as [A1 L1], (Sep s2 Hs2) as [A2 L2], Dot as [A3 L3].
  unfold phoneNumberPattern, re0. rewrite <- (app_nil_r e).
  eapply testL_anchored.
  eapply run_seqs_cons; [apply run_bol|].
  read_atoms a; [now apply forallb_digits_atoms | lia | simpl; lia |].
  read_atoms s1; [exact A1 | lia | simpl; lia |].
  read_atoms b; [now apply forallb_digits_atoms | lia | simpl; lia |].
  read_atoms s2; [exact A2 | lia | simpl; lia |].
  read_atoms c; [now apply forallb_digits_atoms | lia | simpl; lia |].
  read_atoms e; [exact A3 | lia | simpl; lia |].
  apply run_eol.
Qed.

(** The closing pattern [/see you tomorrow|talk tomorrow|tomorrow/i] on an
    input whose lower-cased text includes "tomorrow". *)
Lemma tomorrow_isSessionEnding (userInput : string) :
  includes (toLowerCase userInput) "tomorrow" = true ->
  isSessionEnding userInput = true.
Proof.
  intros H. unfold isSessionEnding. apply existsb_exists.
  exists (reI (alts (map str ["see you tomorrow"; "talk tomorrow"; "tomorrow"]))).
  split; [unfold endPhrases; do 4 right; left; reflexivity|].
  unfold reI. rewrite test_words_ignoreCase; [|discriminate|vm_compute; reflexivity].
  cbn [existsb]. rewrite !orb_false_r.
  assert (Ht : includes (toLowerCase (trim userInput)) "tomorrow" = true).
  { unfold includes, toLowerCase, trim in *. rewrite !chars_ofChars in *.
    apply (includes_trim "t"%char (chars "omorro") "w"%char); auto. }
  rewrite Ht, !orb_true_r. reflexivity.
Qed.

(** *** The matcher on the inputs the source and the spec quote *)

Example voicemail_samples :
  map isVoicemailMessage
      ["8583866200"; "858-386-6200"; "866 200."; "866200.";
       "leave a message after the tone"; "let's schedule a workout at 9am"]
  = [true; true; true; true; true; false].
Proof. vm_compute. reflexivity. Qed.

Example ending_samples :
  map isSessionEnding ["thanks"; "ok thanks"; "  bye  "; "gotta go now"; "okay then"]
  = [true; true; true; true; false].
Proof. vm_compute. reflexivity. Qed.

Example trigger_samples :
  map (test needsToolsPattern) ["add milk"; "address"; "put it on my calendar"]
  = [true; false; true] /\
  map (test commitmentPattern) ["i will run"; "willing"; "i promise"]
  = [true; false; true].
Proof. split; vm_compute; reflexivity. Qed.

End ClassifierFacts.

(** ** The claims about the classifiers *)
Module ClassifierClaims.
Import JsString Regex Classifier JsStringFacts RegexFacts LiteralFacts ClassifierFacts.

(** C2 (as amended): three digits, an optional dash or period, three
    digits, an optional dash or period, four digits and an optional final
    period are classified as voicemail. *)
Theorem phone_number_is_voicemail (a b c s1 s2 e : list ascii) :
  length a = 3 -> length b = 3 -> length c = 4 ->
  forallb isDigit a = true -> forallb isDigit b = true -> forallb isDigit c = true ->
  In s1 [[]; chars "-"; chars "."] -> In s2 [[]; chars "-"; chars "."] ->
  In e [[]; chars "."] ->
  isVoicemailMessage (ofChars (a ++ s1 ++ b ++ s2 ++ c ++ e)) = true.
Proof.
  intros La Lb Lc Ha Hb Hc Hs1 Hs2 He.
  unfold isVoicemailMessage.
  destruct (test threeThreePattern _); [reflexivity|].
  assert (Hauto : existsb (fun pattern =>
                     test pattern (toLowerCase (ofChars (a ++ s1 ++ b ++ s2 ++ c ++ e))))
                    voicemailPatterns = true).
  { apply existsb_exists. exists phoneNumberPattern.
    split; [apply in_voicemailPatterns_phone|].
    unfold test, toLowerCase. rewrite !chars_ofChars.
    rewrite toLowerCaseL_fixed.
    - now apply phoneNumber_shape.
    - repeat (apply Forall_app; split); try now apply digits_lower_fixed.
      + destruct Hs1 as [<-|[<-|[<-|[]]]]; repeat constructor.
      + destruct Hs2 as [<-|[<-|[<-|[]]]]; repeat constructor.
      + destruct He as [<-|[<-|[]]]; repeat constructor. }
  rewrite Hauto. reflexivity.
Qed.

Lemma phone_number_is_voicemail_witness :
  isVoicemailMessage "858-386-6200." = true.
Proof.
  apply (phone_number_is_voicemail (chars "858") (chars "386") (chars "6200")
           (chars "-") (chars "-") (chars "."));
    first [reflexivity | simpl; tauto].
Defined.

(** C2 (as stated) fails: the space-separated 3-3-4 grouping of the spec's
    own example is not classified as voicemail. *)
Lemma space_separated_number_not_voicemail :
  forallb isDigit (chars "858" ++ chars "386" ++ chars "6200") = true /\
  isVoicemailMessage (ofChars (chars "858" ++ chars " " ++ chars "386" ++ chars " "
                                 ++ chars "6200")) = false.
Proof. split; vm_compute; reflexivity. Qed.

(** C3 (as amended): the bare closing phrase ends the session; followed by
    ", thanks" it does not, the closing patterns being anchored at both
    ends; the task request does not either. *)
Theorem isSessionEnding_examples :
  isSessionEnding "that's it" = true /\
  isSessionEnding "that's it, thanks" = false /\
  isSessionEnding "add a task to call mom" = false.
Proof. repeat split; vm_compute; reflexivity. Qed.

(** C3 (as stated) fails on its first input. *)
Lemma thats_it_thanks_does_not_end : isSessionEnding "that's it, thanks" <> true.
Proof. vm_compute. discriminate. Qed.

(** C10: a non-empty run of digits, of any length, is accepted by the
    just-numbers pattern once trimmed, and is classified as voicemail. *)
Theorem bare_digits_are_voicemail (userInput : string) :
  trimL (chars userInput) <> [] ->
  forallb isDigit (trimL (chars userInput)) = true ->
  test justNumbersPattern (trim userInput) = true /\
  isVoicemailMessage userInput = true.
Proof.
  intros Hne Hd.
  assert (Hjust : test justNumbersPattern (trim userInput) = true).
  { unfold test, trim. rewrite chars_ofChars. now apply justNumbers_digits. }
  split; [exact Hjust|].
  unfold isVoicemailMessage.
  destruct (test threeThreePattern _); [reflexivity|].
  rewrite Hjust, !orb_true_r. reflexivity.
Qed.

Lemma bare_digits_are_voicemail_witness :
  test justNumbersPattern (trim " 1 ") = true /\ isVoicemailMessage " 1 " = true.
Proof.
  apply (bare_digits_are_voicemail " 1 "); [vm_compute; discriminate | reflexivity].
Defined.

End ClassifierClaims.

(** ** Facts about the monad, the stores and the handlers *)
Module HandlerFacts.
Import JsString Regex Classifier Model Store Insight GatherRoute VoiceRoute Scenario.
Import JsStringFacts RegexFacts LiteralFacts ClassifierFacts.

(** *** The monad *)

Lemma bind_inr {A B} (m : M A) (k : A -> M B) w a w1 :
  m w = (inr a, w1) -> bind m k w = k a w1.
Proof. intros H. unfold bind. now rewrite H. Qed.

Lemma bind_inl {A B} (m : M A) (k : A -> M B) w e w1 :
  m w = (inl e, w1) -> bind m k w = (inl e, w1).
Proof. intros H. unfold bind. now rewrite H. Qed.

Lemma bind_inr_inv {A B} (m : M A) (k : A -> M B) w b w2 :
  bind m k w = (inr b, w2) ->
  exists a w1, m w = (inr a, w1) /\ k a w1 = (inr b, w2).
Proof.
  unfold bind. destruct (m w) as [[e|a] w1]; [discriminate|]. eauto.
Qed.

Lemma tryCatch_inl {A} (m : M A) h w e w1 :
  m w = (inl e, w1) -> tryCatch m h w = h e w1.
Proof. intros H. unfold tryCatch. now rewrite H. Qed.

Lemma tryCatch_inr {A} (m : M A) h w a w1 :
  m w = (inr a, w1) -> tryCatch m h w = (inr a, w1).
Proof. intros H. unfold tryCatch. now rewrite H. Qed.

(** A try whose catch block only answers never throws. *)
Lemma tryCatch_ret_total {A} (m : M A) (x : A) w :
  exists a w1, tryCatch m (fun _ => ret x) w = (inr a, w1).
Proof.
  unfold tryCatch. destruct (m w) as [[e|a] w1]; unfold ret; eauto.
Qed.

(** *** The registry and the context store *)

Lemma getSession_run env id w :
  exists w1, getSession env id w = (inr tt, w1) /\
             sessions w1 !! id = Some (sessionOf env id w) /\
             contexts w1 = contexts w /\ savedSessions w1 = savedSessions w /\
             legacyLog w1 = legacyLog w /\ missedCalls w1 = missedCalls w.
Proof.
  eexists. split; [reflexivity|]. cbn. unfold sessionOf.
  destruct (sessions w !! id) eqn:E; cbn; rewrite ?E, ?lookup_insert_eq; auto.
Qed.

Lemma sessionData_run env id w s :
  sessions w !! id = Some s -> sessionData env id w = (inr s, w).
Proof. intros H. unfold sessionData, bind, get, ret. now rewrite H. Qed.

Lemma updateSession_run id f w s :
  sessions w !! id = Some s ->
  exists w1, updateSession id f w = (inr tt, w1) /\
             sessions w1 !! id = Some (f s) /\
             contexts w1 = contexts w /\ savedSessions w1 = savedSessions w /\
             legacyLog w1 = legacyLog w /\ missedCalls w1 = missedCalls w.
Proof.
  intros H. eexists. split; [reflexivity|]. cbn.
  rewrite lookup_alter_eq, H. auto.
Qed.

Lemma endSession_saved env id w s :
  sessions w !! id = Some s ->
  saveSession env id (finalize (now env) s) = None ->
  exists w1, endSession env id w = (inr (Some (finalize (now env) s)), w1) /\
             sessions w1 !! id = None /\
             contexts w1 = contexts w /\
             savedSessions w1 = savedSessions w ++ [(id, finalize (now env) s)] /\
             legacyLog w1 = legacyLog w /\ missedCalls w1 = missedCalls w.
Proof.
  intros H Hs. eexists. split.
  - unfold endSession, bind, get, ret, modify, awaitUnit. rewrite H. cbn. rewrite Hs.
    cbn. reflexivity.
  - cbn. rewrite lookup_delete_eq. auto.
Qed.

Lemma endSession_throws env id w s e :
  sessions w !! id = Some s ->
  saveSession env id (finalize (now env) s) = Some e ->
  exists w1, endSession env id w = (inl e, w1) /\ legacyLog w1 = legacyLog w.
Proof.
  intros H Hs. eexists. split.
  - unfold endSession, bind, get, ret, modify, awaitUnit. rewrite H. cbn. rewrite Hs.
    cbn. reflexivity.
  - reflexivity.
Qed.

Lemma endSession_absent env id w :
  sessions w !! id = None -> endSession env id w = (inr None, w).
Proof.
  intros H. unfold endSession, bind, get, ret. cbn. now rewrite H.
Qed.

(** Finalizing a session never touches the context store. *)
Lemma endSession_contexts env id w :
  contexts (snd (endSession env id w)) = contexts w.
Proof.
  unfold endSession, bind, get, ret, modify, awaitUnit. cbn.
  destruct (sessions w !! id) as [s|]; cbn; [|reflexivity].
  destruct (saveSession env id _); reflexivity.
Qed.

Lemma ctxClear_run id w :
  exists w1, ctxClear id w = (inr tt, w1) /\
             contexts w1 !! id = None /\ sessions w1 = sessions w /\
             savedSessions w1 = savedSessions w /\
             legacyLog w1 = legacyLog w /\ missedCalls w1 = missedCalls w.
Proof.
  eexists. split; [reflexivity|]. cbn. rewrite lookup_delete_eq. auto.
Qed.

Lemma ctxGet_run id w : ctxGet id w = (inr (contexts w !! id), w).
Proof. reflexivity. Qed.




(** *** The branches of the handlers *)

(** What the try block of [handleSessionEnd] does, by where it stops. *)
Lemma handleSessionEnd_cases env callSid userInput response w :
  let session := sessionOf env callSid w in
  let history := default [] (contexts w !! callSid) in
  match extractSessionInsights env history session with
  | inl _ =>
      exists w', handleSessionEnd env callSid userInput response w
                 = (inr (Xml (response ++ [Say coachVoice fallbackEnding; Hangup])), w')
                 /\ legacyLog w' = legacyLog w
  | inr insights =>
      match saveSession env callSid (finalize (now env) (setState StEnding session)) with
      | Some _ =>
          exists w', handleSessionEnd env callSid userInput response w
                     = (inr (Xml (response ++ [Say coachVoice fallbackEnding; Hangup])), w')
                     /\ legacyLog w' = legacyLog w
      | None =>
          exists w', handleSessionEnd env callSid userInput response w
                     = (inr (Xml (response ++
                                  [Say coachVoice (getEndingMessage env insights); Hangup])), w')
                     /\ sessions w' !! callSid = None /\ contexts w' !! callSid = None
                     /\ legacyLog w' = legacyLog w
      end
  end.
Proof.
  intros session history. unfold handleSessionEnd.
  destruct (getSession_run env callSid w) as (w1 & R1 & S1 & C1 & V1 & L1 & M1).
  destruct (extractSessionInsights env history session) as [e|insights] eqn:Ex.
  - exists w1. split; [|exact L1].
    erewrite tryCatch_inl; [reflexivity|].
    erewrite bind_inr by exact R1.
    erewrite bind_inr by (apply sessionData_run; exact S1).
    erewrite bind_inr by apply ctxGet_run.
    rewrite C1. fold history. fold session. rewrite Ex. reflexivity.
  - destruct (updateSession_run callSid (setState StEnding) w1 _ S1)
      as (w2 & R2 & S2 & C2 & V2 & L2 & M2).
    destruct (saveSession env callSid _) as [e|] eqn:Sv.
    + destruct (endSession_throws env callSid w2 _ e S2 Sv) as (w3 & R3 & L3).
      exists w3. split; [|congruence].
      erewrite tryCatch_inl; [reflexivity|].
      erewrite bind_inr by exact R1.
      erewrite bind_inr by (apply sessionData_run; exact S1).
      erewrite bind_inr by apply ctxGet_run.
      rewrite C1. fold history. fold session. rewrite Ex.
      erewrite bind_inr by reflexivity.
      erewrite bind_inr by exact R2.
      erewrite bind_inl by exact R3. reflexivity.
    + destruct (endSession_saved env callSid w2 _ S2 Sv) as (w3 & R3 & S3 & C3 & V3 & L3 & M3).
      destruct (ctxClear_run callSid w3) as (w4 & R4 & C4 & S4 & V4 & L4 & M4).
      exists w4. split; [|repeat split; congruence].
      erewrite tryCatch_inr; [reflexivity|].
      erewrite bind_inr by exact R1.
      erewrite bind_inr by (apply sessionData_run; exact S1).
      erewrite bind_inr by apply ctxGet_run.
      rewrite C1. fold history. fold session. rewrite Ex.
      erewrite bind_inr by reflexivity.
      erewrite bind_inr by exact R2.
      erewrite bind_inr by exact R3.
      erewrite bind_inr by exact R4. reflexivity.
Qed.


Lemma voicemailPath_run env req response w :
  (forall r, logMissedCall env r = None) ->
  (forall s, saveSession env (CallSid req) s = None) ->
  exists w' s',
    voicemailPath env req response w
    = (inr (Xml (response ++ [Say coachVoice voicemailReply; Hangup])), w') /\
    sessions w' !! CallSid req = None /\
    contexts w' !! CallSid req = None /\
    savedSessions w' = savedSessions w ++ [(CallSid req, s')] /\
    sessionType s' = TyVoicemail /\ state s' = StVoicemail /\ is_Some (endedAt s') /\
    conversation s' = conversation (sessionOf env (CallSid req) w) /\
    legacyLog w' = legacyLog w.
Proof.
  intros Hlog Hsave. unfold voicemailPath.
  destruct (getSession_run env (CallSid req) w) as (w1 & R1 & S1 & C1 & V1 & L1 & M1).
  destruct (updateSession_run (CallSid req) (markAsVoicemail (now env)) w1 _ S1)
    as (w2 & R2 & S2 & C2 & V2 & L2 & M2).
  set (logStep := match NOTION_LOGS_DB_ID env with Some db => _ | None => _ end).
  assert (exists w3, logStep w2 = (inr tt, w3) /\ sessions w3 = sessions w2 /\
                     contexts w3 = contexts w2 /\ savedSessions w3 = savedSessions w2 /\
                     legacyLog w3 = legacyLog w2) as (w3 & R3 & S3 & C3 & V3 & L3).
  { subst logStep. destruct (NOTION_LOGS_DB_ID env) as [db|]; [|eexists; split; [reflexivity|auto]].
    destruct (truthy db); [|eexists; split; [reflexivity|auto]].
    unfold bind, awaitUnit. rewrite Hlog. eexists. split; [reflexivity|auto]. }
  rewrite <- S3 in S2.
  destruct (endSession_saved env (CallSid req) w3 _ S2 (Hsave _))
    as (w4 & R4 & S4 & C4 & V4 & L4 & M4).
  destruct (ctxClear_run (CallSid req) w4) as (w5 & R5 & C5 & S5 & V5 & L5 & M5).
  exists w5, (finalize (now env) (markAsVoicemail (now env) (sessionOf env (CallSid req) w))).
  split.
  - erewrite bind_inr by exact R1.
    erewrite bind_inr by exact R2.
    erewrite bind_inr by exact R3.
    erewrite bind_inr by exact R4.
    erewrite bind_inr by exact R5. reflexivity.
  - repeat split; try congruence.
    cbn. destruct (endedAt _); eauto.
Qed.

(** Peel one statement off a handler that is known to have returned. *)
Ltac returned H :=
  let a := fresh "a" in
  let w := fresh "w" in
  let E := fresh "E" in
  apply bind_inr_inv in H as (a & w & E & H); cbv beta zeta in H.

(** A normal turn that returns has said its reply, asked to keep
    listening, and written its log record. *)
Lemma normalTurn_returns env callSid userInput response w r w' :
  normalTurn env callSid userInput response w = (inr r, w') ->
  exists line record,
    r = Xml (response ++ [Say coachVoice line; Gather listenOpts]) /\
    insertOne env record = None.
Proof.
  intros H. unfold normalTurn in H.
  do 11 returned H.
  returned H. returned H.
  unfold ret in H. injection H as <- _.
  unfold awaitUnit in E11.
  destruct (insertOne env _) eqn:Hins; [discriminate|].
  eauto.
Qed.


(** Past the voicemail, end-intent and status branches [handleGather] is
    its try block under its catch block. *)
Lemma handleGather_normal env (req : Request) w :
  isVoicemailMessage (trim (default "" (SpeechResult req))) = false ->
  isSessionEnding (trim (default "" (SpeechResult req))) = false ->
  CallStatus req <> Some "completed" ->
  CallStatus req <> Some "no-answer" ->
  handleGather env req w
  = tryCatch (normalTurn env (CallSid req) (trim (default "" (SpeechResult req))) [])
      (fun _ => ret (Xml [Say coachVoice fallbackReply; Gather fallbackListenOpts])) w.
Proof.
  intros Hvm Hend Hc Hn. unfold handleGather. rewrite Hvm, Hend.
  rewrite !bool_decide_eq_false_2 by assumption. reflexivity.
Qed.

Lemma handleGather_normal_speaks env (req : Request) w :
  isVoicemailMessage (trim (default "" (SpeechResult req))) = false ->
  isSessionEnding (trim (default "" (SpeechResult req))) = false ->
  CallStatus req <> Some "completed" ->
  CallStatus req <> Some "no-answer" ->
  exists line opts w',
    handleGather env req w = (inr (Xml [Say coachVoice line; Gather opts]), w').
Proof.
  intros Hvm Hend Hc Hn. rewrite handleGather_normal by assumption.
  destruct (normalTurn env (CallSid req) (trim (default "" (SpeechResult req))) [] w)
    as [[e|r] w1] eqn:Hrun.
  - erewrite tryCatch_inl by exact Hrun. unfold ret. eauto.
  - erewrite tryCatch_inr by exact Hrun.
    destruct (normalTurn_returns _ _ _ _ _ _ _ Hrun) as (line & record & -> & _).
    cbn [app]. eauto.
Qed.

(** An event without speech is neither voicemail nor an end-intent. *)
Lemma silence_classified :
  trim "" = "" /\ isVoicemailMessage "" = false /\ isSessionEnding "" = false.
Proof. repeat split; vm_compute; reflexivity. Qed.

(** On the status "failed" [handleGather] runs a normal turn. *)
Lemma handleGather_failed_speaks env (req : Request) w :
  SpeechResult req = None ->
  CallStatus req = Some "failed" ->
  exists line opts w',
    handleGather env req w = (inr (Xml [Say coachVoice line; Gather opts]), w').
Proof.
  intros Hsp Hst. destruct silence_classified as (Htrim & Hvm & Hend).
  apply handleGather_normal_speaks; rewrite ?Hsp, ?Hst;
    change (default "" None) with ""; rewrite ?Htrim; try assumption; discriminate.
Qed.

(** The status branch of [handleGather] leaves the context of the call
    where it is. *)
Lemma handleGather_status_keeps_context env (req : Request) w :
  SpeechResult req = None ->
  CallStatus req = Some "completed" \/ CallStatus req = Some "no-answer" ->
  contexts (snd (handleGather env req w)) = contexts w.
Proof.
  intros Hsp Hst. destruct silence_classified as (Htrim & Hvm & Hend).
  unfold handleGather. rewrite Hsp. change (default "" None) with "".
  rewrite Htrim, Hvm, Hend.
  assert (Hb : bool_decide (CallStatus req = Some "completed")
               || bool_decide (CallStatus req = Some "no-answer") = true).
  { destruct Hst as [-> | ->]; reflexivity. }
  rewrite Hb. unfold bind.
  pose proof (endSession_contexts env (CallSid req) w) as Hc.
  destruct (endSession env (CallSid req) w) as [[e|r] w1]; exact Hc.
Qed.




(** The sibling handler does what the claim says on every terminal status:
    session finalized and removed, context cleared, nothing spoken. *)
Lemma handleVoice_terminal_status env (req : Request) w :
  isTerminalStatus (CallStatus req) = true ->
  (forall s, saveSession env (CallSid req) s = None) ->
  exists w',
    handleVoice env req w = (inr (Status200 None), w') /\
    sessions w' !! CallSid req = None /\ contexts w' !! CallSid req = None.
Proof.
  intros Hst Hsave. unfold handleVoice. rewrite Hst.
  destruct (sessions w !! CallSid req) as [s|] eqn:Hs.
  - destruct (endSession_saved env (CallSid req) w s Hs (Hsave _))
      as (w1 & R1 & S1 & C1 & _).
    destruct (ctxClear_run (CallSid req) w1) as (w2 & R2 & C2 & S2 & _).
    exists w2. erewrite bind_inr by exact R1. erewrite bind_inr by exact R2.
    repeat split; congruence.
  - destruct (ctxClear_run (CallSid req) w) as (w2 & R2 & C2 & S2 & _).
    exists w2. split; [|split; congruence].
    erewrite bind_inr by (apply endSession_absent; exact Hs).
    erewrite bind_inr by exact R2. reflexivity.
Qed.


Example mentions_sample :
  mentionsOf None "I will start running. then do 15 minutes of work on the thing! and 2 hrs"
  = inr ["15 minutes commitment made"; "start running";
         "do 15 minutes of work on the thing"].
Proof. vm_compute. reflexivity. Qed.

End HandlerFacts.

(** ** The claims about the handlers and the insight extractor *)
Module HandlerClaims.
Import JsString Regex Classifier Model Store Insight GatherRoute VoiceRoute Scenario.
Import JsStringFacts RegexFacts LiteralFacts ClassifierFacts HandlerFacts.







(** C5: what [handleGather] does on a terminal call status.  On "failed"
    the event is processed as a normal turn and a reply is spoken; on
    "completed" and "no-answer" the context of the call is left in the
    store.  On the opened call: after "failed" the session and the context
    are still there, after "completed" the session is finalized and the
    context is not cleared, while [handleVoice] on each of the three
    statuses finalizes, clears and stays silent. *)
Theorem gather_terminal_status_divergence :
  (forall env (req : Request) w,
      SpeechResult req = None -> CallStatus req = Some "failed" ->
      exists line opts w',
        handleGather env req w = (inr (Xml [Say coachVoice line; Gather opts]), w')) /\
  (forall env (req : Request) w,
      SpeechResult req = None ->
      CallStatus req = Some "completed" \/ CallStatus req = Some "no-answer" ->
      contexts (snd (handleGather env req w)) = contexts w) /\
  (let r := handleGather env (request None (Some "failed")) openedWorld in
   fst r = inr (Xml [Say coachVoice "Name the first task."; Gather listenOpts]) /\
   is_Some (sessions (snd r) !! "CA1") /\ is_Some (contexts (snd r) !! "CA1")) /\
  (let r := handleGather env (request None (Some "completed")) openedWorld in
   fst r = inr (Status200 None) /\
   sessions (snd r) !! "CA1" = None /\ contexts (snd r) !! "CA1" <> None) /\
  (forall status, In status ["completed"; "no-answer"; "failed"] ->
     let r := handleVoice env (request None (Some status)) openedWorld in
     fst r = inr (Status200 None) /\
     sessions (snd r) !! "CA1" = None /\ contexts (snd r) !! "CA1" = None).
Proof.
  split; [exact handleGather_failed_speaks|].
  split; [exact handleGather_status_keeps_context|].
  split; [|split].
  - vm_compute. repeat split; eauto.
  - vm_compute. repeat split; discriminate.
  - intros status [<-|[<-|[<-|[]]]]; vm_compute; repeat split.
Qed.

(** C6: a normal turn never surfaces an error.  The caller always gets a
    spoken line and an instruction to keep listening, and when any step of
    the turn throws, the line is the fixed fallback. *)
Theorem normal_turn_failure_falls_back env (req : Request) w :
  isVoicemailMessage (trim (default "" (SpeechResult req))) = false ->
  isSessionEnding (trim (default "" (SpeechResult req))) = false ->
  CallStatus req <> Some "completed" ->
  CallStatus req <> Some "no-answer" ->
  (exists line opts w',
      handleGather env req w = (inr (Xml [Say coachVoice line; Gather opts]), w')) /\
  (forall e w',
      normalTurn env (CallSid req) (trim (default "" (SpeechResult req))) [] w = (inl e, w') ->
      handleGather env req w
      = (inr (Xml [Say coachVoice fallbackReply; Gather fallbackListenOpts]), w')) /\
  ((forall record, insertOne env record <> None) ->
   exists w',
     handleGather env req w
     = (inr (Xml [Say coachVoice fallbackReply; Gather fallbackListenOpts]), w')).
Proof.
  intros Hvm Hend Hc Hn.
  split; [now apply handleGather_normal_speaks|].
  rewrite handleGather_normal by assumption.
  destruct (normalTurn env (CallSid req) (trim (default "" (SpeechResult req))) [] w)
    as [[e|r] w1] eqn:Hrun.
  - erewrite tryCatch_inl by exact Hrun. unfold ret. split; eauto.
    intros e' w' [= <- <-]. reflexivity.
  - destruct (normalTurn_returns _ _ _ _ _ _ _ Hrun) as (line & record & -> & Hins).
    split; [intros e' w' [=]|].
    intros Hall. destruct (Hall record Hins).
Qed.

Lemma normal_turn_failure_falls_back_witness :
  isVoicemailMessage (trim question) = false /\
  isSessionEnding (trim question) = false /\
  fst (normalTurn (collaborators true false) "CA1" (trim question) [] openedWorld)
  = inl (Error "reply generation unavailable") /\
  fst (handleGather (collaborators true false) (request (Some question) live) openedWorld)
  = inr (Xml [Say coachVoice fallbackReply; Gather fallbackListenOpts]).
Proof.
  assert (H1 : isVoicemailMessage (trim question) = false) by (vm_compute; reflexivity).
  assert (H2 : isSessionEnding (trim question) = false) by (vm_compute; reflexivity).
  split; [exact H1|]. split; [exact H2|]. split; [vm_compute; reflexivity|].
  rewrite (proj1 (proj2 (normal_turn_failure_falls_back (collaborators true false)
                           (request (Some question) live) openedWorld H1 H2
                           ltac:(discriminate) ltac:(discriminate)))
             (Error "reply generation unavailable")
             (snd (normalTurn (collaborators true false) "CA1" (trim question) []
                     openedWorld)));
    [reflexivity | vm_compute; reflexivity].
Defined.

(** C7: whatever happens while a session is being ended, the caller hears
    a closing line and the call is hung up; when insight extraction or the
    finalization of the session throws, the line is the generic one. *)
Theorem session_end_always_hangs_up env callSid userInput w :
  let session := sessionOf env callSid w in
  let history := default [] (contexts w !! callSid) in
  (exists line w',
      handleSessionEnd env callSid userInput [] w
      = (inr (Xml [Say coachVoice line; Hangup]), w')) /\
  (forall e, extractSessionInsights env history session = inl e ->
             exists w', handleSessionEnd env callSid userInput [] w
                        = (inr (Xml [Say coachVoice fallbackEnding; Hangup]), w')) /\
  (forall e, saveSession env callSid (finalize (now env) (setState StEnding session)) = Some e ->
             exists w', handleSessionEnd env callSid userInput [] w
                        = (inr (Xml [Say coachVoice fallbackEnding; Hangup]), w')).
Proof.
  intros session history.
  pose proof (handleSessionEnd_cases env callSid userInput [] w) as H.
  cbv zeta in H. fold session history in H.
  destruct (extractSessionInsights env history session) as [e|insights].
  - destruct H as (w' & H & _). repeat split; eauto; intros; discriminate.
  - destruct (saveSession env callSid _) as [e|].
    + destruct H as (w' & H & _). repeat split; eauto; intros; discriminate.
    + destruct H as (w' & H & _). repeat split; eauto; intros; discriminate.
Qed.

Lemma session_end_always_hangs_up_witness :
  (* the habit without text makes the extraction throw *)
  extractSessionInsights env (default [] (contexts untitledWorld !! "CA1"))
    (sessionOf env "CA1" untitledWorld)
  = inl (Error "TypeError: Cannot read properties of undefined (reading 'toLowerCase')") /\
  (exists w', handleSessionEnd env "CA1" "bye" [] untitledWorld
              = (inr (Xml [Say coachVoice fallbackEnding; Hangup]), w')) /\
  (* the session store rejects the final write *)
  (exists w', handleSessionEnd (collaborators false true) "CA1" "bye" [] openedWorld
              = (inr (Xml [Say coachVoice fallbackEnding; Hangup]), w')).
Proof.
  assert (H : extractSessionInsights env (default [] (contexts untitledWorld !! "CA1"))
                (sessionOf env "CA1" untitledWorld)
              = inl (Error "TypeError: Cannot read properties of undefined (reading 'toLowerCase')"))
    by (vm_compute; reflexivity).
  split; [exact H|]. split.
  - exact (proj1 (proj2 (session_end_always_hangs_up env "CA1" "bye" untitledWorld)) _ H).
  - apply (proj2 (proj2 (session_end_always_hangs_up (collaborators false true) "CA1" "bye"
                           openedWorld)) (Error "session store unavailable")).
    vm_compute. reflexivity.
Defined.



(** C9: every utterance whose lower-cased text includes "tomorrow" is an
    end-intent; unless it is classified as voicemail, [handleGather]
    treats it as the end of the session: the caller hears a closing line,
    the call is hung up, and no turn is logged. *)
Theorem tomorrow_ends_the_call :
  (forall s, includes (toLowerCase s) "tomorrow" = true -> isSessionEnding s = true) /\
  (forall env (req : Request) w,
      let userInput := trim (default "" (SpeechResult req)) in
      includes (toLowerCase userInput) "tomorrow" = true ->
      isVoicemailMessage userInput = false ->
      handleGather env req w = handleSessionEnd env (CallSid req) userInput [] w /\
      exists line w',
        handleGather env req w = (inr (Xml [Say coachVoice line; Hangup]), w') /\
        legacyLog w' = legacyLog w).
Proof.
  split; [exact tomorrow_isSessionEnding|].
  intros env req w userInput Hinc Hvm.
  assert (Hpath : handleGather env req w
                  = handleSessionEnd env (CallSid req) userInput [] w).
  { unfold handleGather. fold userInput.
    now rewrite Hvm, (tomorrow_isSessionEnding userInput Hinc). }
  split; [exact Hpath|]. rewrite Hpath.
  pose proof (handleSessionEnd_cases env (CallSid req) userInput [] w) as H.
  cbv zeta in H.
  destruct (extractSessionInsights _ _ _).
  - destruct H as (w' & H & L). eauto.
  - destruct (saveSession _ _ _).
    + destruct H as (w' & H & L). eauto.
    + destruct H as (w' & H & _ & _ & L). eauto.
Qed.

(** The scheduling request of the claim: a tool request by its wording,
    yet one that ends the call. *)
Lemma tomorrow_ends_the_call_witness :
  includes (toLowerCase (trim meeting)) "tomorrow" = true /\
  isVoicemailMessage (trim meeting) = false /\
  test needsToolsPattern meeting = true /\
  exists line w',
    handleGather env (request (Some meeting) live) openedWorld
    = (inr (Xml [Say coachVoice line; Hangup]), w') /\
    legacyLog w' = legacyLog openedWorld.
Proof.
  assert (H1 : includes (toLowerCase (trim meeting)) "tomorrow" = true)
    by (vm_compute; reflexivity).
  assert (H2 : isVoicemailMessage (trim meeting) = false) by (vm_compute; reflexivity).
  split; [exact H1|]. split; [exact H2|]. split; [vm_compute; reflexivity|].
  exact (proj2 (proj2 tomorrow_ends_the_call env (request (Some meeting) live)
                  openedWorld H1 H2)).
Defined.

End HandlerClaims.

(** ** Facts about splitting, joining and cutting strings *)
Module TextFacts.
Import JsString JsStringFacts.

Lemma append_nil_l s : "" +:+ s = s.
Proof. reflexivity. Qed.

Lemma append_cons c s t : String c s +:+ t = String c (s +:+ t).
Proof. reflexivity. Qed.

Lemma ofChars_app l1 l2 : ofChars (l1 ++ l2) = ofChars l1 +:+ ofChars l2.
Proof.
  induction l1 as [|c l1 IH]; [reflexivity|].
  unfold ofChars in *. cbn [app string_of_list_ascii]. now rewrite append_cons, IH.
Qed.

Lemma chars_app s1 s2 : chars (s1 +:+ s2) = chars s1 ++ chars s2.
Proof.
  induction s1 as [|c s1 IH]; [reflexivity|].
  unfold chars in *. rewrite append_cons. cbn [app list_ascii_of_string]. now rewrite IH.
Qed.

Lemma length_chars s : length (chars s) = String.length s.
Proof. induction s as [|c s IH]; simpl; [reflexivity|]. unfold chars in *. simpl. now rewrite IH. Qed.

Lemma length_ofChars l : String.length (ofChars l) = length l.
Proof. rewrite <- length_chars, chars_ofChars. reflexivity. Qed.

Lemma length_append s1 s2 : String.length (s1 +:+ s2) = String.length s1 + String.length s2.
Proof.
  induction s1 as [|c s1 IH]; [reflexivity|].
  rewrite append_cons. cbn [String.length]. now rewrite IH.
Qed.

Lemma append_assoc s1 s2 s3 : (s1 +:+ s2) +:+ s3 = s1 +:+ (s2 +:+ s3).
Proof.
  induction s1 as [|c s1 IH]; [reflexivity|]. rewrite !append_cons. now f_equal.
Qed.

Lemma append_nil_r s : s +:+ "" = s.
Proof. induction s as [|c s IH]; [reflexivity|]. rewrite append_cons. now f_equal. Qed.

Lemma splitL_nonempty sep l : splitL sep l <> [].
Proof.
  destruct l as [|c l]; simpl; [discriminate|].
  destruct (ascii_dec c sep); [discriminate|]. destruct (splitL sep l); discriminate.
Qed.

(** Joining the pieces of a split with the separator gives the string
    back. *)
Lemma join_split sep s : join (String sep "") (split sep s) = s.
Proof.
  unfold split. rewrite <- (ofChars_chars s) at 2.
  induction (chars s) as [|c l IH]; [reflexivity|].
  cbn [splitL]. destruct (ascii_dec c sep) as [->|Hne].
  - cbn [map]. pose proof (splitL_nonempty sep l) as Hn.
    destruct (splitL sep l) as [|w ws] eqn:E; [congruence|].
    cbn [map join] in *. rewrite IH. reflexivity.
  - pose proof (splitL_nonempty sep l) as Hn.
    destruct (splitL sep l) as [|w ws] eqn:E; [congruence|].
    cbn [map] in *. destruct ws as [|w' ws].
    + cbn [map join] in *. unfold ofChars in *.
      cbn [string_of_list_ascii]. now rewrite IH.
    + cbn [map join] in *. unfold ofChars in *.
      cbn [string_of_list_ascii]. rewrite append_cons. now rewrite IH.
Qed.

Lemma join_cons sep x l : l <> [] -> join sep (x :: l) = x +:+ sep +:+ join sep l.
Proof. destruct l; [congruence | reflexivity]. Qed.

(** Dropping the last piece cuts the joined string at its last separator. *)
Lemma join_removelast sep ws :
  2 <= length ws ->
  join sep ws = join sep (removelast ws) +:+ sep +:+ List.last ws "".
Proof.
  induction ws as [|x ws IH]; intros H; [simpl in H; lia|].
  destruct ws as [|y ws]; [simpl in H; lia|].
  destruct ws as [|z ws]; [reflexivity|].
  change (removelast (x :: y :: z :: ws)) with (x :: removelast (y :: z :: ws)).
  change (List.last (x :: y :: z :: ws) "") with (List.last (y :: z :: ws) "").
  assert (Hr : removelast (y :: z :: ws) <> []).
  { change (removelast (y :: z :: ws)) with (y :: removelast (z :: ws)). discriminate. }
  rewrite (join_cons sep x (y :: z :: ws)) by discriminate.
  rewrite (join_cons sep x _ Hr).
  rewrite IH by (simpl; lia).
  rewrite !append_assoc. reflexivity.
Qed.

Lemma splitL_no_sep sep l :
  Forall (fun c => c <> sep) l -> splitL sep l = [l].
Proof.
  induction 1 as [|c l Hc _ IH]; [reflexivity|].
  cbn [splitL]. destruct (ascii_dec c sep); [contradiction|]. now rewrite IH.
Qed.

Lemma includesL_char_false c l :
  includesL [c] l = false -> Forall (fun a => a <> c) l.
Proof.
  induction l as [|a l IH]; intros H; [constructor|].
  cbn [includesL startsWithL] in H. apply orb_false_iff in H as [H1 H2].
  constructor; [|now apply IH].
  intros ->. destruct (ascii_dec c c); [discriminate|congruence].
Qed.

Lemma includesL_char_true c l :
  includesL [c] l = true -> length (splitL c l) >= 2.
Proof.
  induction l as [|a l IH]; intros H.
  - discriminate.
  - cbn [includesL startsWithL] in H. cbn [splitL].
    destruct (ascii_dec a c) as [->|Hne].
    + pose proof (splitL_nonempty c l). destruct (splitL c l); [congruence|]. simpl. lia.
    + destruct (ascii_dec c a); [congruence|]. simpl in H. specialize (IH H).
      destruct (splitL c l); simpl in *; lia.
Qed.

Lemma splitL_pieces sep l :
  Forall (fun piece => Forall (fun c => c <> sep) piece) (splitL sep l).
Proof.
  induction l as [|c l IH]; [repeat constructor|].
  cbn [splitL]. destruct (ascii_dec c sep) as [->|Hne].
  - constructor; [constructor | exact IH].
  - destruct (splitL sep l) as [|piece pieces]; [repeat constructor; exact Hne|].
    inversion IH; subst. constructor; [constructor; assumption | assumption].
Qed.

Lemma includesL_char_absent c l :
  Forall (fun a => a <> c) l -> includesL [c] l = false.
Proof.
  induction 1 as [|a l Ha _ IH]; [reflexivity|].
  cbn [includesL startsWithL]. rewrite IH.
  destruct (ascii_dec c a); [congruence | reflexivity].
Qed.

Lemma last_Forall {A} (P : A -> Prop) l d : Forall P l -> P d -> P (List.last l d).
Proof.
  induction 1 as [|x l Hx Hl IH]; intros Hd; [exact Hd|].
  destruct l; [exact Hx | now apply IH].
Qed.

Lemma last_map {A B} (g : A -> B) l d : List.last (map g l) (g d) = g (List.last l d).
Proof.
  induction l as [|x l IH]; [reflexivity|]. destruct l; [reflexivity | exact IH].
Qed.

(** The last piece of a split holds no separator. *)
Lemma split_last_piece sep s :
  includes (List.last (split sep s) "") (String sep "") = false.
Proof.
  unfold split, includes.
  change (List.last (map ofChars (splitL sep (chars s))) "")
    with (List.last (map ofChars (splitL sep (chars s))) (ofChars [])).
  rewrite last_map, chars_ofChars. apply includesL_char_absent.
  apply (last_Forall (fun piece => Forall (fun c => c <> sep) piece));
    [apply splitL_pieces | constructor].
Qed.

Lemma substring0_prefix n s : exists t, s = substring0 n s +:+ t.
Proof.
  exists (ofChars (drop n (chars s))). unfold substring0.
  rewrite <- ofChars_app, take_drop. symmetry. apply ofChars_chars.
Qed.

Lemma substring0_length n s : String.length (substring0 n s) <= n.
Proof. unfold substring0. rewrite length_ofChars, length_take. lia. Qed.

End TextFacts.

(** ** Properties of the closing line *)
Module ClosingLineProperties.
Import JsString Regex Classifier Model Store Insight Scenario JsStringFacts TextFacts.

(** X1: the closing line built from the top priority.  What is spoken is a
    prefix of the priority, never longer than 30 units: the whole priority
    when it has at most 30 units; otherwise its first 30 units cut back to
    the last space among them (what follows the cut within those units
    holds no space), and nothing at all when they hold no space. *)
Theorem ending_message_cuts_at_a_space env insights priority others :
  priorities insights = priority :: others ->
  exists short tail,
    getEndingMessage env insights = short +:+ " locked in. Execute." /\
    priority = short +:+ tail /\
    String.length short <= 30 /\
    (String.length priority <= 30 -> short = priority) /\
    (30 < String.length priority ->
     if includes (substring0 30 priority) " "
     then exists lastWord rest,
            substring0 30 priority = short +:+ " " +:+ lastWord /\
            includes lastWord " " = false /\
            tail = " " +:+ lastWord +:+ rest
     else short = "").
Proof.
  intros Hp. unfold getEndingMessage. rewrite Hp.
  destruct (30 <? String.length priority) eqn:Hlong.
  - apply Nat.ltb_lt in Hlong.
    destruct (substring0_prefix 30 priority) as [t0 Ht0].
    pose proof (substring0_length 30 priority) as Hsub.
    set (sub := substring0 30 priority) in *.
    pose proof (join_split " "%char sub) as Hjoin.
    destruct (includes sub " ") eqn:Hinc.
    + assert (Hlen : 2 <= length (split " "%char sub)).
      { unfold split. rewrite length_map. apply includesL_char_true. exact Hinc. }
      rewrite (join_removelast " " _ Hlen) in Hjoin.
      set (short := join " " (removelast (split " "%char sub))) in *.
      exists short, (" " +:+ List.last (split " "%char sub) "" +:+ t0).
      split; [reflexivity|]. split; [|split; [|split]].
      * rewrite Ht0 at 1. rewrite <- Hjoin at 1. now rewrite !append_assoc.
      * rewrite <- Hjoin in Hsub. rewrite length_append in Hsub. lia.
      * intros. lia.
      * intros _. exists (List.last (split " "%char sub) ""), t0.
        split; [symmetry; exact Hjoin|]. split; [apply split_last_piece | reflexivity].
    + assert (Hone : split " "%char sub = [sub]).
      { unfold split. rewrite splitL_no_sep.
        - cbn [map]. now rewrite ofChars_chars.
        - apply includesL_char_false. exact Hinc. }
      rewrite Hone. cbn [removelast join].
      exists "", priority. repeat split; try reflexivity; cbn; try lia.
  - apply Nat.ltb_ge in Hlong.
    exists priority, "". split; [reflexivity|]. split; [now rewrite append_nil_r|].
    split; [exact Hlong|]. split; [reflexivity|]. intros. lia.
Qed.


Lemma ending_message_cuts_at_a_space_witness :
  let insights :=
    {| date := "2023-11-14";
       priorities := ["work on the quarterly budget review with finance"];
       mood := "Neutral"; energyLevel := "Medium"; notes := "" |} in
  getEndingMessage env insights = "work on the quarterly budget locked in. Execute." /\
  substring0 30 "work on the quarterly budget review with finance"
  = "work on the quarterly budget r" /\
  exists short tail,
    getEndingMessage env insights = short +:+ " locked in. Execute." /\
    "work on the quarterly budget review with finance" = short +:+ tail /\
    String.length short <= 30.
Proof.
  intros insights. split; [vm_compute; reflexivity|]. split; [vm_compute; reflexivity|].
  destruct (ending_message_cuts_at_a_space env insights _ [] eq_refl)
    as (short & tail & H1 & H2 & H3 & _).
  exists short, tail. auto.
Defined.

End ClosingLineProperties.

(** ** Facts about the insight extractor *)
Module InsightFacts.
Import JsString Regex Classifier Model Store Insight Scenario JsStringFacts TextFacts.

Lemma seen_In x seen : existsb (String.eqb x) seen = true <-> In x seen.
Proof.
  rewrite existsb_exists. split.
  - intros (y & Hy & E). apply String.eqb_eq in E. now subst.
  - intros H. exists x. split; [exact H | apply String.eqb_refl].
Qed.

Lemma uniqueFrom_In seen l x :
  In x (uniqueFrom seen l) <-> In x l /\ ~ In x seen.
Proof.
  revert seen. induction l as [|y l IH]; intros seen; cbn [uniqueFrom].
  - simpl. tauto.
  - destruct (existsb (String.eqb y) seen) eqn:E.
    + apply seen_In in E. rewrite IH. simpl. split.
      * intros [H1 H2]. auto.
      * intros [[<-|H1] H2]; [contradiction | auto].
    + assert (Hy : ~ In y seen).
      { intros H. apply seen_In in H. congruence. }
      simpl. rewrite IH. simpl. split.
      * intros [<-|[H1 H2]]; [auto|]. split; [auto|]. intros H. apply H2. auto.
      * intros [[<-|H1] H2]; [auto|].
        destruct (String.eqb_spec y x) as [->|Hne]; [auto|].
        right. split; [exact H1|]. intros [E'|H3]; [congruence | contradiction].
Qed.

Lemma uniqueFrom_NoDup seen l : List.NoDup (uniqueFrom seen l).
Proof.
  revert seen. induction l as [|y l IH]; intros seen; cbn [uniqueFrom]; [constructor|].
  destruct (existsb (String.eqb y) seen); [apply IH|].
  constructor; [|apply IH].
  rewrite uniqueFrom_In. intros [_ H]. apply H. now left.
Qed.

Lemma unique_head x l : exists rest, unique (x :: l) = x :: rest.
Proof. unfold unique. cbn. eauto. Qed.

Lemma NoDup_take_list {A} n (l : list A) : List.NoDup l -> List.NoDup (take n l).
Proof.
  intros H. revert n. induction H as [|x l Hx H IH]; intros [|n]; cbn; try constructor.
  - intros Hin. apply Hx. clear -Hin. revert n Hin.
    induction l as [|y l IHl]; intros [|n] Hin; cbn in *; try contradiction.
    destruct Hin as [->|Hin]; [now left | right; eauto].
  - apply IH.
Qed.

Lemma In_take {A} n (l : list A) x : In x (take n l) -> In x l.
Proof.
  revert n. induction l as [|y l IH]; intros [|n] H; cbn in *; try contradiction.
  destruct H as [->|H]; [now left | right; eauto].
Qed.

(** The habits loop throws exactly when some habit has no text, whatever
    the message. *)
Lemma habitMentions_throws msg hs :
  (exists e, habitMentions msg hs = inl e) <-> Exists (fun h => habitText h = None) hs.
Proof.
  induction hs as [|h hs IH]; cbn [habitMentions].
  - split; [intros [e [=]] | intros H; inversion H].
  - destruct (habitText h) as [text|] eqn:Ht.
    + destruct (habitMentions msg hs) as [e|more].
      * split; [intros _; right; apply IH; eauto | eauto].
      * split.
        -- intros [e [=]].
        -- intros H. inversion H as [? ? H1|? ? H1]; subst; [congruence|].
           apply IH in H1 as [e [=]].
    + split; [intros _; now left | eauto].
Qed.

Lemma mentionsOf_throws plan msg :
  (exists e, mentionsOf plan msg = inl e) <->
  exists p, plan = Some p /\ Exists (fun h => habitText h = None) (habits p).
Proof.
  unfold mentionsOf. destruct plan as [p|].
  - pose proof (habitMentions_throws msg (habits p)) as Hh.
    destruct (habitMentions msg (habits p)) as [e|m].
    + split; [intros _; exists p; split; [reflexivity | apply Hh; eauto] | eauto].
    + split; [intros [e [=]] | intros (p' & [= <-] & H)].
      apply Hh in H as [e [=]].
  - split; [intros [e [=]] | intros (p' & [=] & _)].
Qed.

Lemma taskMentionsOf_throws plan msgs :
  (exists e, taskMentionsOf plan msgs = inl e) <->
  msgs <> [] /\ exists p, plan = Some p /\ Exists (fun h => habitText h = None) (habits p).
Proof.
  induction msgs as [|msg msgs IH]; cbn [taskMentionsOf].
  - split; [intros [e [=]] | intros [H _]; congruence].
  - pose proof (mentionsOf_throws plan msg) as Hm.
    destruct (mentionsOf plan msg) as [e|here].
    + split; [intros _; split; [discriminate | apply Hm; eauto] | eauto].
    + destruct (taskMentionsOf plan msgs) as [e|later].
      * split; [intros _; split; [discriminate | apply IH; eauto] | eauto].
      * split; [intros [e [=]]|]. intros [_ H]. apply Hm in H as [e [=]].
Qed.

End InsightFacts.

(** ** Properties of the insight extractor *)
Module InsightProperties.
Import JsString Regex Classifier Model Store Insight Scenario JsStringFacts TextFacts InsightFacts.

(** X2: the priorities of a summary are at most three, pairwise distinct,
    all among the task mentions, and the first mention is the top
    priority. *)
Theorem priorities_are_three_distinct_mentions env history session insights :
  extractSessionInsights env history session = inr insights ->
  exists mentions,
    taskMentionsOf (todaysPlan session) (userMessagesOf history) = inr mentions /\
    length (priorities insights) <= 3 /\
    List.NoDup (priorities insights) /\
    (forall p, In p (priorities insights) -> In p mentions) /\
    hd_error (priorities insights) = hd_error mentions.
Proof.
  unfold extractSessionInsights. intros H.
  destruct (taskMentionsOf _ _) as [e|mentions]; [discriminate|].
  destruct (moodOf _) as [m en]. injection H as <-. cbn [priorities].
  exists mentions. split; [reflexivity|]. split; [|split; [|split]].
  - rewrite length_take. lia.
  - apply NoDup_take_list, uniqueFrom_NoDup.
  - intros p Hp. apply In_take in Hp. apply uniqueFrom_In in Hp. tauto.
  - destruct mentions as [|x l]; [reflexivity|].
    destruct (unique_head x l) as [rest ->]. reflexivity.
Qed.

Lemma priorities_are_three_distinct_mentions_witness :
  let history :=
    [ {| role := system; content := "persona" |};
      {| role := user; content := "I will start running. then do 15 minutes of work" |};
      {| role := user; content := "start running. focus on email! 15 minutes, begin now" |} ] in
  exists insights,
    extractSessionInsights env history (newSession 0%Z) = inr insights /\
    priorities insights
    = ["15 minutes commitment made"; "start running"; "do 15 minutes of work"] /\
    exists mentions,
      taskMentionsOf None (userMessagesOf history) = inr mentions /\
      length (priorities insights) <= 3 /\
      List.NoDup (priorities insights) /\
      (forall p, In p (priorities insights) -> In p mentions) /\
      hd_error (priorities insights) = hd_error mentions.
Proof.
  intros history.
  destruct (extractSessionInsights env history (newSession 0%Z)) as [e|insights] eqn:E;
    [vm_compute in E; discriminate|].
  exists insights. split; [reflexivity|]. split.
  - vm_compute in E. injection E as <-. reflexivity.
  - exact (priorities_are_three_distinct_mentions env history (newSession 0%Z) insights E).
Defined.

(** X3: insight extraction throws exactly when there is a user turn to scan
    and the day plan of the session has a habit without text. *)
Theorem extraction_throws_exactly_on_textless_habit env history session :
  (exists e, extractSessionInsights env history session = inl e) <->
  userMessagesOf history <> [] /\
  exists plan, todaysPlan session = Some plan /\
               Exists (fun h => habitText h = None) (habits plan).
Proof.
  rewrite <- taskMentionsOf_throws. unfold extractSessionInsights.
  destruct (taskMentionsOf _ _) as [e|mentions].
  - split; eauto.
  - destruct (moodOf _). split; intros [e [=]].
Qed.

Lemma blank_first_word text :
  text = "" \/ (exists t, text = " " +:+ t) ->
  hd "" (split " "%char (toLowerCase text)) = "".
Proof.
  intros [->|[t ->]]; [reflexivity|].
  unfold split, toLowerCase. rewrite chars_ofChars, chars_app.
  change (chars " ") with [" "%char]. unfold toLowerCaseL. cbn [app map].
  change (lowerChar " ") with " "%char. cbn [splitL].
  destruct (ascii_dec " " " "); [reflexivity | congruence].
Qed.

Lemma includes_empty s : includes s "" = true.
Proof. unfold includes. destruct (chars s); reflexivity. Qed.

(** X4: a habit whose text is empty or begins with a space has an empty
    first word, which every message includes: when it heads the plan it is
    the top priority of every session with a user turn. *)
Theorem blank_habit_is_always_top_priority env history session plan habit others text insights :
  todaysPlan session = Some plan ->
  habits plan = habit :: others ->
  habitText habit = Some text ->
  text = "" \/ (exists t, text = " " +:+ t) ->
  userMessagesOf history <> [] ->
  extractSessionInsights env history session = inr insights ->
  exists rest, priorities insights = text :: rest.
Proof.
  intros Hplan Hhabits Htext Hblank Hmsgs H.
  unfold extractSessionInsights in H. rewrite Hplan in H.
  destruct (userMessagesOf history) as [|msg msgs]; [congruence|].
  cbn [taskMentionsOf] in H. unfold mentionsOf in H. rewrite Hhabits in H.
  cbn [habitMentions] in H. rewrite Htext in H.
  rewrite (blank_first_word text Hblank), includes_empty in H.
  destruct (habitMentions msg others) as [e|more]; [discriminate|].
  destruct (taskMentionsOf (Some plan) msgs) as [e|later]; [discriminate|].
  destruct (moodOf _) as [m en]. injection H as <-. cbn [priorities].
  cbn [app]. eauto.
Qed.

Lemma blank_habit_is_always_top_priority_witness :
  let habit := {| habitText := Some " Stretch"; habitTitle := None |} in
  let plan := {| events := []; habits := [habit] |} in
  let session := setTodaysPlan plan (newSession 0%Z) in
  let history := [ {| role := user; content := "nothing planned" |} ] in
  exists insights,
    extractSessionInsights env history session = inr insights /\
    exists rest, priorities insights = " Stretch" :: rest.
Proof.
  intros habit plan session history.
  destruct (extractSessionInsights env history session) as [e|insights] eqn:E;
    [vm_compute in E; discriminate|].
  exists insights. split; [reflexivity|].
  apply (blank_habit_is_always_top_priority env history session plan habit [] " Stretch"
           insights eq_refl eq_refl eq_refl);
    [right; exists "Stretch"; reflexivity | discriminate | exact E].
Defined.

End InsightProperties.

(** ** The matcher and letter case *)
Module CaseFacts.
Import JsString Regex Classifier CaseBlind JsStringFacts RegexFacts TextFacts.

Lemma byEnumeration (P : ascii -> bool) :
  forallb P allAscii = true -> forall c, P c = true.
Proof. apply forall_ascii. Qed.

Lemma lowerChar_idem c : lowerChar (lowerChar c) = lowerChar c.
Proof.
  assert (H : forall c, bool_decide (lowerChar (lowerChar c) = lowerChar c) = true)
    by (apply byEnumeration; vm_compute; reflexivity).
  specialize (H c). now apply bool_decide_eq_true in H.
Qed.

Lemma lowerChar_whiteSpace c : isWhiteSpace (lowerChar c) = isWhiteSpace c.
Proof.
  assert (H : forall c, eqb (isWhiteSpace (lowerChar c)) (isWhiteSpace c) = true)
    by (apply byEnumeration; vm_compute; reflexivity).
  apply eqb_prop, H.
Qed.

Lemma lowerChar_wordChar c : isWordChar (lowerChar c) = isWordChar c.
Proof.
  assert (H : forall c, eqb (isWordChar (lowerChar c)) (isWordChar c) = true)
    by (apply byEnumeration; vm_compute; reflexivity).
  apply eqb_prop, H.
Qed.

Lemma toLowerCaseL_idem l : toLowerCaseL (toLowerCaseL l) = toLowerCaseL l.
Proof.
  unfold toLowerCaseL. rewrite map_map. apply map_ext. intros c. apply lowerChar_idem.
Qed.

Lemma toLowerCase_idem s : toLowerCase (toLowerCase s) = toLowerCase s.
Proof. unfold toLowerCase. now rewrite chars_ofChars, toLowerCaseL_idem. Qed.

Lemma atomCaseBlind_spec i r c :
  atomCaseBlind i r = true -> atomMatches i r (lowerChar c) = atomMatches i r c.
Proof.
  intros H. unfold atomCaseBlind in H. rewrite forallb_forall in H.
  apply eqb_prop, H, in_allAscii.
Qed.

Lemma stepAtom_lower i r x :
  atomCaseBlind i r = true ->
  stepAtom i r (lowerPos x) = map lowerPos (stepAtom i r x).
Proof.
  intros H. unfold stepAtom, lowerPos. cbn [rest before].
  destruct (rest x) as [|c l]; [reflexivity|].
  unfold toLowerCaseL. cbn [map]. rewrite (atomCaseBlind_spec i r c H).
  destruct (atomMatches i r c); reflexivity.
Qed.

Lemma flat_map_map_in {A B C} (g : B -> list C) (h : A -> B) l :
  flat_map g (map h l) = flat_map (fun a => g (h a)) l.
Proof. induction l as [|a l IH]; cbn; congruence. Qed.

Lemma map_flat_map {A B C} (g : B -> C) (h : A -> list B) l :
  map g (flat_map h l) = flat_map (fun a => map g (h a)) l.
Proof. induction l as [|a l IH]; cbn; [reflexivity|]. now rewrite map_app, IH. Qed.

Lemma length_rest_lowerPos x : length (rest (lowerPos x)) = length (rest x).
Proof. unfold lowerPos, toLowerCaseL. cbn [rest]. apply length_map. Qed.

Lemma repeatMatcher_lower body :
  (forall x, body (lowerPos x) = map lowerPos (body x)) ->
  forall fuel min max x,
    repeatMatcher body fuel min max (lowerPos x)
    = map lowerPos (repeatMatcher body fuel min max x).
Proof.
  intros Hb. induction fuel as [|fuel IH]; intros min max x; [reflexivity|].
  cbn [repeatMatcher].
  assert (Hagain : forall max',
    flat_map (fun y => if (min =? 0) && (length (rest y) =? length (rest (lowerPos x)))
                       then [] else repeatMatcher body fuel (pred min) max' y)
             (body (lowerPos x))
    = map lowerPos
        (flat_map (fun y => if (min =? 0) && (length (rest y) =? length (rest x))
                            then [] else repeatMatcher body fuel (pred min) max' y)
                  (body x))).
  { intros max'. rewrite Hb, flat_map_map_in, map_flat_map.
    apply flat_map_ext. intros y. rewrite !length_rest_lowerPos.
    destruct (_ && _); [reflexivity | apply IH]. }
  destruct max as [[|m]|]; [reflexivity | |];
    rewrite Hagain; destruct (min =? 0); rewrite ?map_app; reflexivity.
Qed.

(** On a pattern blind to letter case, lower-casing the input lower-cases
    the positions of the matches and changes nothing else. *)
Lemma run_lower i r :
  caseBlind i r = true ->
  forall x, run i r (lowerPos x) = map lowerPos (run i r x).
Proof.
  induction r as [| | | | | | r1 IH1 r2 IH2 | r1 IH1 r2 IH2 | min max r IH | r IH | | |];
    cbn [caseBlind]; intros H x; cbn [run];
    try (now apply stepAtom_lower); try reflexivity.
  - apply andb_true_iff in H as [H1 H2].
    rewrite IH1, flat_map_map_in, map_flat_map by assumption.
    apply flat_map_ext. intros y. now apply IH2.
  - apply andb_true_iff in H as [H1 H2].
    now rewrite IH1, IH2, map_app.
  - rewrite length_rest_lowerPos. apply repeatMatcher_lower. now apply IH.
  - now apply IH.
  - destruct x as [[b|] l]; reflexivity.
  - destruct x as [b [|c l]]; reflexivity.
  - assert (Hb : isWordBefore (lowerPos x) = isWordBefore x).
    { unfold isWordBefore, lowerPos. cbn [before].
      destruct (before x); cbn; [apply lowerChar_wordChar | reflexivity]. }
    assert (Ha : isWordAfter (lowerPos x) = isWordAfter x).
    { unfold isWordAfter, lowerPos, toLowerCaseL. cbn [rest].
      destruct (rest x); cbn; [reflexivity | apply lowerChar_wordChar]. }
    rewrite Hb, Ha. destruct (xorb _ _); reflexivity.
Qed.

Lemma matchesSomewhere_lower i r p l :
  caseBlind i r = true ->
  matchesSomewhere i r (lowerChar <$> p) (toLowerCaseL l) = matchesSomewhere i r p l.
Proof.
  intros H. revert p. induction l as [|c l IH]; intros p.
  - cbn [matchesSomewhere toLowerCaseL map].
    change (Pos (lowerChar <$> p) []) with (lowerPos (Pos p [])).
    rewrite run_lower by assumption. destruct (run i r (Pos p [])); reflexivity.
  - unfold toLowerCaseL. cbn [matchesSomewhere map].
    change (Pos (lowerChar <$> p) (lowerChar c :: map lowerChar l))
      with (lowerPos (Pos p (c :: l))).
    rewrite run_lower by assumption.
    change (Some (lowerChar c)) with (lowerChar <$> Some c).
    fold (toLowerCaseL l). rewrite IH.
    destruct (run i r (Pos p (c :: l))); reflexivity.
Qed.

(** A pattern blind to letter case tests the same on an input and on its
    lower case. *)
Lemma test_lower re s :
  caseBlindRegExp re = true -> test re (toLowerCase s) = test re s.
Proof.
  intros H. unfold test, toLowerCase. rewrite chars_ofChars.
  rewrite !testL_matchesSomewhere.
  exact (matchesSomewhere_lower (ignoreCase re) (body re) None (chars s) H).
Qed.

(** *** Trimming *)

Lemma trimStartL_snoc l c :
  trimStartL (l ++ [c])
  = match trimStartL l with
    | [] => if isWhiteSpace c then [] else [c]
    | t => t ++ [c]
    end.
Proof.
  induction l as [|a l IH]; cbn [app trimStartL]; [reflexivity|].
  destruct (isWhiteSpace a); [exact IH | reflexivity].
Qed.

Lemma trimEndL_cons c l :
  trimEndL (c :: l)
  = match trimEndL l with
    | [] => if isWhiteSpace c then [] else [c]
    | t => c :: t
    end.
Proof.
  unfold trimEndL. cbn [rev]. rewrite trimStartL_snoc.
  destruct (trimStartL (rev l)) as [|a t] eqn:E;
    [destruct (isWhiteSpace c); reflexivity|].
  rewrite rev_app_distr. cbn [rev app].
  destruct (rev t ++ [a]) eqn:E'; [destruct (rev t); discriminate | reflexivity].
Qed.

Lemma trimEndL_nil : trimEndL [] = [].
Proof. reflexivity. Qed.

Lemma trimStartL_idem l : trimStartL (trimStartL l) = trimStartL l.
Proof.
  induction l as [|c l IH]; cbn [trimStartL]; [reflexivity|].
  destruct (isWhiteSpace c) eqn:E; [exact IH|]. cbn [trimStartL]. now rewrite E.
Qed.

Lemma trimEndL_idem l : trimEndL (trimEndL l) = trimEndL l.
Proof. unfold trimEndL. now rewrite rev_involutive, trimStartL_idem. Qed.

Lemma trimEndL_blank l : Forall (fun c => isWhiteSpace c = true) l -> trimEndL l = [].
Proof.
  induction 1 as [|c l Hc _ IH]; [reflexivity|]. now rewrite trimEndL_cons, IH, Hc.
Qed.

Lemma trimEndL_blank_inv l : trimEndL l = [] -> Forall (fun c => isWhiteSpace c = true) l.
Proof.
  induction l as [|c l IH]; [constructor|].
  rewrite trimEndL_cons. destruct (trimEndL l) as [|a t]; [|discriminate].
  destruct (isWhiteSpace c) eqn:E; [|discriminate]. intros _. constructor; auto.
Qed.

Lemma trimStartL_blank l : Forall (fun c => isWhiteSpace c = true) l -> trimStartL l = [].
Proof. induction 1 as [|c l Hc _ IH]; cbn; [reflexivity|]. now rewrite Hc. Qed.

Lemma trim_commute l : trimStartL (trimEndL l) = trimEndL (trimStartL l).
Proof.
  induction l as [|c l IH]; [reflexivity|].
  rewrite trimEndL_cons. cbn [trimStartL].
  destruct (isWhiteSpace c) eqn:E.
  - destruct (trimEndL l) as [|a t] eqn:Et.
    + apply trimEndL_blank_inv in Et.
      now rewrite (trimStartL_blank l Et).
    + cbn [trimStartL]. rewrite E. exact IH.
  - destruct (trimEndL l) as [|a t] eqn:Et.
    + cbn [trimStartL]. rewrite E. rewrite trimEndL_cons, Et, E. reflexivity.
    + cbn [trimStartL]. rewrite E. rewrite trimEndL_cons, Et. reflexivity.
Qed.

Lemma trimL_idem l : trimL (trimL l) = trimL l.
Proof.
  unfold trimL. rewrite trim_commute, trimStartL_idem, trimEndL_idem. reflexivity.
Qed.

Lemma trim_idem s : trim (trim s) = trim s.
Proof. unfold trim. now rewrite chars_ofChars, trimL_idem. Qed.

Lemma trimStartL_lower l : trimStartL (toLowerCaseL l) = toLowerCaseL (trimStartL l).
Proof.
  unfold toLowerCaseL. induction l as [|c l IH]; cbn [map trimStartL]; [reflexivity|].
  rewrite lowerChar_whiteSpace. destruct (isWhiteSpace c); [exact IH | reflexivity].
Qed.

Lemma trimL_lower l : trimL (toLowerCaseL l) = toLowerCaseL (trimL l).
Proof.
  unfold trimL, trimEndL. rewrite trimStartL_lower.
  unfold toLowerCaseL. rewrite <- map_rev. fold (toLowerCaseL (rev (trimStartL l))).
  rewrite trimStartL_lower. unfold toLowerCaseL. now rewrite map_rev.
Qed.

Lemma trim_lower s : trim (toLowerCase s) = toLowerCase (trim s).
Proof. unfold trim, toLowerCase. now rewrite !chars_ofChars, trimL_lower. Qed.

End CaseFacts.

(** ** Properties of the two classifiers *)
Module ClassifierProperties.
Import JsString Regex Classifier CaseBlind TurnVocabulary.
Import JsStringFacts RegexFacts LiteralFacts ClassifierFacts TextFacts CaseFacts.

Lemma existsb_ext_in {A} (g h : A -> bool) l :
  (forall a, In a l -> g a = h a) -> existsb g l = existsb h l.
Proof.
  induction l as [|a l IH]; intros E; cbn; [reflexivity|].
  rewrite (E a) by now left. rewrite IH; [reflexivity|]. intros b Hb. apply E. now right.
Qed.

Lemma endPhrases_caseBlind : forallb caseBlindRegExp endPhrases = true.
Proof. vm_compute. reflexivity. Qed.

Lemma numericPatterns_caseBlind p :
  In p [threeThreePattern; shortNumericPattern; justNumbersPattern] ->
  caseBlindRegExp p = true.
Proof.
  revert p. apply forallb_forall. vm_compute. reflexivity.
Qed.

Lemma isSessionEnding_normalized (userInput : string) :
  isSessionEnding userInput = isSessionEnding (toLowerCase (trim userInput)).
Proof.
  unfold isSessionEnding.
  rewrite trim_lower, trim_idem.
  apply existsb_ext_in. intros p Hp. symmetry. apply test_lower.
  pose proof endPhrases_caseBlind as H. rewrite forallb_forall in H. now apply H.
Qed.

(** X5: the end-intent classifier reads nothing but the trimmed,
    lower-cased utterance: letter case and surrounding blanks never change
    its answer. *)
Theorem isSessionEnding_reads_trimmed_lower_case (userInput : string) :
  isSessionEnding userInput = isSessionEnding (toLowerCase (trim userInput)) /\
  isSessionEnding (toLowerCase userInput) = isSessionEnding userInput /\
  isSessionEnding (trim userInput) = isSessionEnding userInput.
Proof.
  split; [apply isSessionEnding_normalized|]. split.
  - rewrite (isSessionEnding_normalized (toLowerCase userInput)),
      (isSessionEnding_normalized userInput).
    now rewrite trim_lower, toLowerCase_idem.
  - rewrite (isSessionEnding_normalized (trim userInput)),
      (isSessionEnding_normalized userInput).
    now rewrite trim_idem.
Qed.

(** X6: the voicemail classifier is blind to letter case. *)
Theorem isVoicemailMessage_ignores_case (userInput : string) :
  isVoicemailMessage (toLowerCase userInput) = isVoicemailMessage userInput.
Proof.
  unfold isVoicemailMessage. rewrite trim_lower, toLowerCase_idem.
  rewrite (test_lower threeThreePattern), (test_lower shortNumericPattern),
    (test_lower justNumbersPattern);
    [reflexivity | apply numericPatterns_caseBlind; simpl; tauto ..].
Qed.

Lemma closers_end : forallb isSessionEnding closers = true.
Proof. vm_compute. reflexivity. Qed.

(** X7: an utterance that is one of the closing phrases, in any letter case
    and with any blanks around it, is an end-intent: a bare "no", "ok" or
    "good" ends the session. *)
Theorem bare_closer_ends_session (userInput : string) :
  In (toLowerCase (trim userInput)) closers -> isSessionEnding userInput = true.
Proof.
  intros H. rewrite isSessionEnding_normalized.
  pose proof closers_end as Hc. rewrite forallb_forall in Hc. now apply Hc.
Qed.

Lemma bare_closer_ends_session_witness :
  In (toLowerCase (trim "  No ")) closers /\ isSessionEnding "  No " = true.
Proof.
  assert (H : In (toLowerCase (trim "  No ")) closers) by (vm_compute; tauto).
  split; [exact H | exact (bare_closer_ends_session "  No " H)].
Defined.

End ClassifierProperties.

(** ** Shapes of utterance the classifiers accept *)
Module ClassifierShapes.
Import JsString Regex Classifier CaseBlind.
Import JsStringFacts RegexFacts LiteralFacts ClassifierFacts TextFacts CaseFacts.

(** X8: an utterance that mentions "end call", "hang up", "gotta go" or
    "have to go" anywhere, in any letter case, is an end-intent. *)
Theorem leave_phrase_anywhere_ends_session (userInput phrase : string) :
  In phrase ["end call"; "hang up"; "gotta go"; "have to go"] ->
  includes (toLowerCase userInput) phrase = true ->
  isSessionEnding userInput = true.
Proof.
  intros Hin H. unfold isSessionEnding. apply existsb_exists.
  exists (reI (alts (map str ["end call"; "hang up"; "gotta go"; "have to go"]))).
  split; [unfold endPhrases; do 3 right; left; reflexivity|].
  unfold reI. rewrite test_words_ignoreCase; [|discriminate|vm_compute; reflexivity].
  apply existsb_exists. exists phrase. split; [exact Hin|].
  unfold includes, toLowerCase, trim in *. rewrite !chars_ofChars in *.
  destruct Hin as [<-|[<-|[<-|[<-|[]]]]].
  - apply (includes_trim "e"%char (chars "nd cal") "l"%char); auto.
  - apply (includes_trim "h"%char (chars "ang u") "p"%char); auto.
  - apply (includes_trim "g"%char (chars "otta g") "o"%char); auto.
  - apply (includes_trim "h"%char (chars "ave to g") "o"%char); auto.
Qed.

Lemma leave_phrase_anywhere_ends_session_witness :
  includes (toLowerCase "Sorry, I really GOTTA GO now") "gotta go" = true /\
  isSessionEnding "Sorry, I really GOTTA GO now" = true.
Proof.
  assert (H : includes (toLowerCase "Sorry, I really GOTTA GO now") "gotta go" = true)
    by (vm_compute; reflexivity).
  split; [exact H|].
  apply (leave_phrase_anywhere_ends_session _ "gotta go"); [simpl; tauto | exact H].
Defined.

Lemma blankOrDot_atoms sep :
  Forall (fun c => isWhiteSpace c = true \/ c = "."%char) sep ->
  Forall (fun c => atomMatches false (Class false [CSpace; CChar "."%char]) c = true) sep.
Proof.
  induction 1 as [|c sep [Hc | ->] _ IH]; constructor; try exact IH; cbn.
  - now rewrite Hc.
  - reflexivity.
Qed.

(** X9: digits, then any run of blanks and periods, then digits or none,
    then at most one period: whenever the trimmed utterance has this shape
    it is classified as voicemail, so a spoken time such as "10 30" or
    "9.30" hangs up the call. *)
Theorem number_groups_are_voicemail (userInput : string) (a sep b e : list ascii) :
  trimL (chars userInput) = a ++ sep ++ b ++ e ->
  a <> [] ->
  forallb isDigit a = true -> forallb isDigit b = true ->
  Forall (fun c => isWhiteSpace c = true \/ c = "."%char) sep ->
  In e [[]; chars "."] ->
  isVoicemailMessage userInput = true.
Proof.
  intros Hshape Ha Da Db Hsep He.
  assert (Hjust : test justNumbersPattern (trim userInput) = true).
  { unfold test, trim. rewrite chars_ofChars, Hshape.
    assert (Dot : Forall (fun c => atomMatches false (str ".") c = true) e /\ length e <= 1).
    { destruct He as [<-|[<-|[]]]; split; repeat constructor. }
    destruct Dot as [A3 L3].
    unfold justNumbersPattern, re0. rewrite <- (app_nil_r e).
    eapply testL_anchored.
    eapply run_seqs_cons; [apply run_bol|].
    eapply run_seqs_cons.
    { apply run_quant_atoms with (cs := a);
        [exact I | now apply forallb_digits_atoms | | exact I].
      destruct a; [congruence | simpl; lia]. }
    eapply run_seqs_cons.
    { apply run_quant_atoms with (cs := sep);
        [exact I | now apply blankOrDot_atoms | lia | exact I]. }
    eapply run_seqs_cons.
    { apply run_quant_atoms with (cs := b);
        [exact I | now apply forallb_digits_atoms | lia | exact I]. }
    eapply run_seqs_cons.
    { apply run_quant_atoms with (cs := e); [exact I | exact A3 | lia | simpl; lia]. }
    apply run_eol. }
  unfold isVoicemailMessage.
  destruct (test threeThreePattern _); [reflexivity|].
  rewrite Hjust, !orb_true_r. reflexivity.
Qed.

Lemma number_groups_are_voicemail_witness :
  trimL (chars " 10 30 ") = chars "10" ++ chars " " ++ chars "30" ++ [] /\
  isVoicemailMessage " 10 30 " = true /\ isVoicemailMessage "9.30" = true.
Proof.
  split; [reflexivity|]. split.
  - apply (number_groups_are_voicemail " 10 30 " (chars "10") (chars " ") (chars "30") []);
      first [reflexivity | discriminate | simpl; tauto
            | repeat constructor; left; reflexivity].
  - apply (number_groups_are_voicemail "9.30" (chars "9") (chars ".") (chars "30") []);
      first [reflexivity | discriminate | simpl; tauto
            | repeat constructor; right; reflexivity].
Defined.

End ClassifierShapes.

(** ** What the handlers touch *)
Module FootprintFacts.
Import JsString Regex Classifier Model Store Insight GatherRoute VoiceRoute StatusRoute.
Import Footprint.
Local Open Scope handler_scope.

Lemma touchesOnly_refl id w : touchesOnly id w w.
Proof.
  split; [|split; [|split; [|split]]]; auto; exists []; rewrite app_nil_r; auto.
Qed.

Lemma touchesOnly_trans id w1 w2 w3 :
  touchesOnly id w1 w2 -> touchesOnly id w2 w3 -> touchesOnly id w1 w3.
Proof.
  intros (S1 & C1 & (v1 & V1 & F1) & (l1 & L1 & G1) & (m1 & M1))
         (S2 & C2 & (v2 & V2 & F2) & (l2 & L2 & G2) & (m2 & M2)).
  split; [|split; [|split; [|split]]].
  - intros id' Hne. rewrite S2, S1; auto.
  - intros id' Hne. rewrite C2, C1; auto.
  - exists (v1 ++ v2). rewrite V2, V1, <- app_assoc. split; [reflexivity|].
    apply Forall_app; auto.
  - exists (l1 ++ l2). rewrite L2, L1, <- app_assoc. split; [reflexivity|].
    apply Forall_app; auto.
  - exists (m1 ++ m2). now rewrite M2, M1, <- app_assoc.
Qed.

Lemma confined_ret {A} id (a : A) : confined id (ret a).
Proof. intros w. apply touchesOnly_refl. Qed.

Lemma confined_throw {A} id e : confined id (@throw A e).
Proof. intros w. apply touchesOnly_refl. Qed.

Lemma confined_get id : confined id get.
Proof. intros w. apply touchesOnly_refl. Qed.

Lemma confined_await {A} id (r : Exn + A) : confined id (await r).
Proof. destruct r; [apply confined_throw | apply confined_ret]. Qed.

Lemma confined_awaitUnit id r : confined id (awaitUnit r).
Proof. destruct r; [apply confined_throw | apply confined_ret]. Qed.

Lemma confined_bind {A B} id (m : M A) (k : A -> M B) :
  confined id m -> (forall a, confined id (k a)) -> confined id (bind m k).
Proof.
  intros Hm Hk w. unfold bind. specialize (Hm w).
  destruct (m w) as [[e|a] w1]; cbn in *; [exact Hm|].
  eapply touchesOnly_trans; [exact Hm | apply Hk].
Qed.

Lemma confined_tryCatch {A} id (m : M A) h :
  confined id m -> (forall e, confined id (h e)) -> confined id (tryCatch m h).
Proof.
  intros Hm Hh w. unfold tryCatch. specialize (Hm w).
  destruct (m w) as [[e|a] w1]; cbn in *; [|exact Hm].
  eapply touchesOnly_trans; [exact Hm | apply Hh].
Qed.

Lemma confined_if {A} id (b : bool) (m1 m2 : M A) :
  confined id m1 -> confined id m2 -> confined id (if b then m1 else m2).
Proof. now destruct b. Qed.

(** A write to the registry entry of the call. *)
Lemma confined_sessions id (f : gmap string Session -> gmap string Session) :
  (forall m id', id' <> id -> f m !! id' = m !! id') ->
  confined id (modify (withSessions f)).
Proof.
  intros Hf w. cbn. split; [|split; [|split; [|split]]];
    try (exists []; rewrite app_nil_r; now auto); intros; cbn; auto.
Qed.

(** A write to the context entry of the call. *)
Lemma confined_contexts id (f : gmap string (list Message) -> gmap string (list Message)) :
  (forall m id', id' <> id -> f m !! id' = m !! id') ->
  confined id (modify (withContexts f)).
Proof.
  intros Hf w. cbn. split; [|split; [|split; [|split]]];
    try (exists []; rewrite app_nil_r; now auto); intros; cbn; auto.
Qed.

Lemma confined_getSession env id : confined id (getSession env id).
Proof.
  apply confined_sessions. intros m id' Hne.
  destruct (m !! id); [reflexivity|]. now rewrite lookup_insert_ne.
Qed.

Lemma confined_updateSession id f : confined id (updateSession id f).
Proof.
  apply confined_sessions. intros m id' Hne. now rewrite lookup_alter_ne.
Qed.

Lemma confined_sessionData env id : confined id (sessionData env id).
Proof.
  apply confined_bind; [apply confined_get | intros; apply confined_ret].
Qed.

Lemma confined_ctxGet id : confined id (ctxGet id).
Proof.
  apply confined_bind; [apply confined_get | intros; apply confined_ret].
Qed.

Lemma confined_ctxSet id h : confined id (ctxSet id h).
Proof.
  apply confined_contexts. intros m id' Hne. now rewrite lookup_insert_ne.
Qed.

Lemma confined_ctxClear id : confined id (ctxClear id).
Proof.
  apply confined_contexts. intros m id' Hne. now rewrite lookup_delete_ne.
Qed.

Lemma confined_historyPush id aliased h msg : confined id (historyPush id aliased h msg).
Proof.
  apply confined_bind; [|intros; apply confined_ret].
  apply confined_if; [apply confined_ctxSet | apply confined_ret].
Qed.

Lemma confined_endSession env id : confined id (endSession env id).
Proof.
  apply confined_bind; [apply confined_get|]. intros w0.
  destruct (sessions w0 !! id) as [s|]; [|apply confined_ret].
  apply confined_bind.
  { apply confined_sessions. intros m id' Hne. now rewrite lookup_insert_ne. }
  intros _. apply confined_bind; [apply confined_awaitUnit|].
  intros _. apply confined_bind; [|intros; apply confined_ret].
  intros w. unfold modify.
  cbn [snd sessions contexts savedSessions legacyLog missedCalls].
  split; [|split; [|split; [|split]]].
  - intros id' Hne. cbn [sessions]. now rewrite lookup_delete_ne.
  - auto.
  - eexists. split; [reflexivity|]. repeat constructor.
  - exists []. rewrite app_nil_r. auto.
  - exists []. now rewrite app_nil_r.
Qed.

(** Appending a record to the missed-call log. *)
Lemma confined_missed id record :
  confined id (modify (fun w =>
    {| sessions := sessions w; contexts := contexts w;
       savedSessions := savedSessions w; legacyLog := legacyLog w;
       missedCalls := missedCalls w ++ [record] |})).
Proof.
  intros w. cbn. split; [|split; [|split; [|split]]]; auto;
    try (exists []; rewrite app_nil_r; now auto).
  now exists [record].
Qed.

(** Appending a record of the call to the turn log. *)
Lemma confined_logged id record :
  logCallSid record = id ->
  confined id (modify (fun w =>
    {| sessions := sessions w; contexts := contexts w;
       savedSessions := savedSessions w; legacyLog := legacyLog w ++ [record];
       missedCalls := missedCalls w |})).
Proof.
  intros Hid w. cbn. split; [|split; [|split; [|split]]]; auto.
  - exists []. rewrite app_nil_r. auto.
  - exists [record]. split; [reflexivity|]. repeat constructor. exact Hid.
  - exists []. now rewrite app_nil_r.
Qed.

Create HintDb confined.

#[local] Hint Resolve confined_ret confined_throw confined_get confined_await
  confined_awaitUnit confined_getSession confined_updateSession confined_sessionData
  confined_ctxGet confined_ctxSet confined_ctxClear confined_historyPush
  confined_endSession confined_missed : confined.

(** Walk through a handler statement by statement. *)
Ltac confine :=
  repeat first
    [ progress eauto with confined
    | apply confined_bind; [|intros]
    | apply confined_tryCatch; [|intros]
    | apply confined_if
    | apply confined_logged; reflexivity
    | match goal with
      | |- confined _ (match ?x with _ => _ end) => destruct x
      end ].

Lemma confined_handleSessionEnd env callSid userInput response :
  confined callSid (handleSessionEnd env callSid userInput response).
Proof. unfold handleSessionEnd. confine. Qed.

Lemma confined_voicemailPath env req response :
  confined (CallSid req) (voicemailPath env req response).
Proof. unfold voicemailPath. confine. Qed.

Lemma confined_toolTurn env callSid history :
  confined callSid (toolTurn env callSid history).
Proof. unfold toolTurn. confine. Qed.

Lemma confined_chatTurn env callSid history :
  confined callSid (chatTurn env callSid history).
Proof. unfold chatTurn. confine. Qed.

Lemma confined_normalTurn env callSid userInput response :
  confined callSid (normalTurn env callSid userInput response).
Proof.
  unfold normalTurn.
  pose proof (confined_toolTurn env callSid).
  pose proof (confined_chatTurn env callSid).
  confine.
Qed.

(** X10: whatever the request, the collaborators and the state,
    [handleGather] touches only the call of the request: every other call
    keeps its session and its context, nothing is removed from the session
    store, the turn log or the missed-call log, and what is added to the
    session store and the turn log carries the call id of the request.
    This holds on every branch and also when the handler throws. *)
Theorem gather_touches_only_its_call env (req : Request) w :
  touchesOnly (CallSid req) w (snd (handleGather env req w)).
Proof.
  revert w. change (confined (CallSid req) (handleGather env req)).
  unfold handleGather.
  pose proof (confined_voicemailPath env req).
  pose proof (confined_handleSessionEnd env (CallSid req)).
  pose proof (confined_normalTurn env (CallSid req)).
  confine.
Qed.

(** X11: [handleVoice] touches only the call of the request, on the
    terminal-status branch, in the try block and in the catch block. *)
Theorem voice_touches_only_its_call env (req : Request) w :
  touchesOnly (CallSid req) w (snd (handleVoice env req w)).
Proof.
  revert w. change (confined (CallSid req) (handleVoice env req)).
  unfold handleVoice. confine.
Qed.

(** X12: [handleStatus] touches only the call of the request, whatever
    the status and also when the missed-call log or the session store
    throws. *)
Theorem status_touches_only_its_call env (req : Request) w :
  touchesOnly (CallSid req) w (snd (handleStatus env req w)).
Proof.
  revert w. change (confined (CallSid req) (handleStatus env req)).
  unfold handleStatus. confine.
Qed.

End FootprintFacts.

(** ** The turn of [handleGather], step by step *)
Module TurnFacts.
Import JsString Regex Classifier Model Store Insight GatherRoute VoiceRoute.
Import TurnVocabulary HandlerFacts.
Local Open Scope handler_scope.

Lemma noteAll_fields notes s :
  decisions (noteAll notes s) = decisions s ++ notes /\
  conversation (noteAll notes s) = conversation s /\
  state (noteAll notes s) = state s /\
  sessionType (noteAll notes s) = sessionType s /\
  todaysPlan (noteAll notes s) = todaysPlan s /\
  dayAnalysis (noteAll notes s) = dayAnalysis s /\
  startedAt (noteAll notes s) = startedAt s /\
  endedAt (noteAll notes s) = endedAt s.
Proof.
  revert s. induction notes as [|n notes IH]; intros s.
  - cbn. rewrite app_nil_r. tauto.
  - cbn [noteAll foldl]. destruct (IH (addDecision n s)) as (D & C & St & Ty & P & A & B & E).
    unfold noteAll in *. rewrite D, C, St, Ty, P, A, B, E. cbn.
    rewrite <- app_assoc. tauto.
Qed.

Lemma typed_fields s :
  sessionType (typed s) = typedAs (sessionType s) /\
  conversation (typed s) = conversation s /\ decisions (typed s) = decisions s /\
  state (typed s) = state s /\ dayAnalysis (typed s) = dayAnalysis s /\
  todaysPlan (typed s) = todaysPlan s /\
  startedAt (typed s) = startedAt s /\ endedAt (typed s) = endedAt s.
Proof. unfold typed, typedAs. destruct (sessionType s) eqn:E; cbn; rewrite ?E; tauto. Qed.

Lemma chatReply_typed env s h : chatReply env (typed s) h = chatReply env s h.
Proof.
  unfold chatReply. destruct (typed_fields s) as (_ & C & _ & _ & A & _).
  now rewrite C, A.
Qed.

Lemma typing_full id w s :
  sessions w !! id = Some s ->
  exists w1,
    match sessionType s with
    | TyUnknown => updateSession id (setSessionType TyConversation)
    | _ => ret tt
    end w = (inr tt, w1) /\
    sessions w1 !! id = Some (typed s) /\ contexts w1 = contexts w /\
    savedSessions w1 = savedSessions w /\ legacyLog w1 = legacyLog w /\
    missedCalls w1 = missedCalls w.
Proof.
  intros Hs. unfold typed.
  destruct (sessionType s); try (exists w; split; [reflexivity|auto 10]).
  destruct (updateSession_run id (setSessionType TyConversation) w s Hs)
    as (w1 & R & S & C & V & L & M).
  exists w1. auto 10.
Qed.

Lemma ctxSet_full id h w :
  exists w1, ctxSet id h w = (inr tt, w1) /\ sessions w1 = sessions w /\
             contexts w1 !! id = Some h /\
             savedSessions w1 = savedSessions w /\ legacyLog w1 = legacyLog w /\
             missedCalls w1 = missedCalls w.
Proof.
  eexists. split; [reflexivity|]. cbn. rewrite lookup_insert_eq. auto 10.
Qed.

Lemma historyPush_full id aliased h msg w :
  exists w1, historyPush id aliased h msg w = (inr (h ++ [msg]), w1) /\
             sessions w1 = sessions w /\
             contexts w1 !! id = (if aliased then Some (h ++ [msg]) else contexts w !! id) /\
             savedSessions w1 = savedSessions w /\ legacyLog w1 = legacyLog w /\
             missedCalls w1 = missedCalls w.
Proof.
  unfold historyPush. destruct aliased.
  - destruct (ctxSet_full id (h ++ [msg]) w) as (w1 & R & S & C & V & L & M).
    exists w1. erewrite bind_inr by exact R. auto 10.
  - exists w. erewrite bind_inr by reflexivity. auto 10.
Qed.

(** A turn without a tool request answers with [chatReply] or throws what
    the plain generation threw; it writes nothing. *)
Lemma chatTurn_run env id h w s :
  sessions w !! id = Some s ->
  chatTurn env id h w
  = (match chatReply env s h with inr r => inr (r, None) | inl e => inl e end, w).
Proof.
  intros Hs. unfold chatTurn. erewrite bind_inr by (apply sessionData_run; exact Hs).
  unfold chatReply, truthyOpt. destruct (dayAnalysis s) as [analysis|].
  - destruct (truthy analysis).
    + change (default "" (Some analysis)) with analysis.
      unfold bind, tryCatch, await.
      destruct (generateConversationalResponse env _ _); cbn; [|reflexivity].
      destruct (llmReply env h); reflexivity.
    + unfold bind, await. destruct (llmReply env h); reflexivity.
  - unfold bind, await. destruct (llmReply env h); reflexivity.
Qed.


(** A keyword turn that the reply generation answers in plain text. *)
Lemma toolTurn_text env id h w llmResponse :
  llmReplyWithTools env h = inr llmResponse ->
  type llmResponse <> "tool_call" ->
  toolTurn env id h w = (inr (llmContent llmResponse, None), w).
Proof.
  intros Hllm Hty. unfold toolTurn. rewrite Hllm. erewrite bind_inr by reflexivity.
  now rewrite bool_decide_eq_false_2 by exact Hty.
Qed.

(** The try block of [handleGather] up to its reply step: the session is
    there and typed, the user's message is pushed. *)
Lemma normalTurn_prefix env callSid userInput response w :
  let s0 := sessionOf env callSid w in
  let stored := contexts w !! callSid in
  let h1 := default [] stored ++ [{| role := user; content := userInput |}] in
  exists w3,
    normalTurn env callSid userInput response w
    = bind (if test needsToolsPattern userInput then toolTurn env callSid h1
            else chatTurn env callSid h1) (fun reply =>
      history <- historyPush callSid (bool_decide (is_Some stored)) h1
                   {| role := assistant; content := fst reply |} ;;
      ctxSet callSid history ;;;
      updateSession callSid (addExchange userInput (fst reply) (exchangeMeta (snd reply))) ;;;
      (if test commitmentPattern userInput
       then updateSession callSid (addDecision ("User commitment: " +:+ userInput))
       else ret tt) ;;;
      session <- sessionData env callSid ;;
      awaitUnit (insertOne env (turnRecord env callSid userInput (fst reply) (snd reply)
                                  (state session))) ;;;
      modify (fun w =>
                {| sessions := sessions w; contexts := contexts w;
                   savedSessions := savedSessions w;
                   legacyLog := legacyLog w ++
                     [turnRecord env callSid userInput (fst reply) (snd reply) (state session)];
                   missedCalls := missedCalls w |}) ;;;
      ret (Xml (response ++ [Say coachVoice (fst reply); Gather listenOpts]))) w3 /\
    sessions w3 !! callSid = Some (typed s0) /\
    contexts w3 !! callSid = (if bool_decide (is_Some stored) then Some h1 else None) /\
    savedSessions w3 = savedSessions w /\ legacyLog w3 = legacyLog w /\
    missedCalls w3 = missedCalls w.
Proof.
  intros s0 stored h1.
  destruct (getSession_run env callSid w) as (w1 & R1 & S1 & C1 & V1 & L1 & M1).
  destruct (typing_full callSid w1 _ S1) as (w2 & R2 & S2 & C2 & V2 & L2 & M2).
  destruct (historyPush_full callSid (bool_decide (is_Some stored)) (default [] stored)
              {| role := user; content := userInput |} w2)
    as (w3 & R3 & S3 & C3 & V3 & L3 & M3).
  exists w3. split.
  - unfold normalTurn.
    erewrite bind_inr by exact R1.
    erewrite bind_inr by apply ctxGet_run.
    cbv zeta. rewrite C1. fold stored.
    erewrite bind_inr by (apply sessionData_run; exact S1).
    erewrite bind_inr by exact R2.
    erewrite bind_inr by exact R3. reflexivity.
  - rewrite S3, C3, C2, C1. fold stored.
    split; [exact S2|]. split.
    + destruct stored; reflexivity.
    + repeat split; congruence.
Qed.

(** The rest of the try block once the reply step has answered. *)
Lemma normalTurn_suffix env callSid userInput response
      (stored : option (list Message)) h1 reply toolResult w4 s4 :
  sessions w4 !! callSid = Some s4 ->
  let sFinal := noteAll (commitmentNote userInput)
                  (addExchange userInput reply (exchangeMeta toolResult) s4) in
  let record := turnRecord env callSid userInput reply toolResult (state s4) in
  exists w',
    (history <- historyPush callSid (bool_decide (is_Some stored)) h1
                   {| role := assistant; content := reply |} ;;
     ctxSet callSid history ;;;
     updateSession callSid (addExchange userInput reply (exchangeMeta toolResult)) ;;;
     (if test commitmentPattern userInput
      then updateSession callSid (addDecision ("User commitment: " +:+ userInput))
      else ret tt) ;;;
     session <- sessionData env callSid ;;
     awaitUnit (insertOne env (turnRecord env callSid userInput reply toolResult
                                 (state session))) ;;;
     modify (fun w =>
               {| sessions := sessions w; contexts := contexts w;
                  savedSessions := savedSessions w;
                  legacyLog := legacyLog w ++
                    [turnRecord env callSid userInput reply toolResult (state session)];
                  missedCalls := missedCalls w |}) ;;;
     ret (Xml (response ++ [Say coachVoice reply; Gather listenOpts]))) w4
    = (match insertOne env record with
       | None => inr (Xml (response ++ [Say coachVoice reply; Gather listenOpts]))
       | Some e => inl e
       end, w') /\
    sessions w' !! callSid = Some sFinal /\
    contexts w' !! callSid = Some (h1 ++ [{| role := assistant; content := reply |}]) /\
    savedSessions w' = savedSessions w4 /\
    legacyLog w' = legacyLog w4 ++ (match insertOne env record with
                                    | None => [record] | Some _ => [] end) /\
    missedCalls w' = missedCalls w4.
Proof.
  intros S4 sFinal record.
  destruct (historyPush_full callSid (bool_decide (is_Some stored)) h1
              {| role := assistant; content := reply |} w4)
    as (w5 & R5 & S5 & C5 & V5 & L5 & M5).
  destruct (ctxSet_full callSid (h1 ++ [{| role := assistant; content := reply |}]) w5)
    as (w6 & R6 & S6 & C6 & V6 & L6 & M6).
  rewrite <- S5, <- S6 in S4.
  destruct (updateSession_run callSid
              (addExchange userInput reply (exchangeMeta toolResult)) w6 _ S4)
    as (w7 & R7 & S7 & C7 & V7 & L7 & M7).
  assert (exists w8,
    (if test commitmentPattern userInput
     then updateSession callSid (addDecision ("User commitment: " +:+ userInput))
     else ret tt) w7 = (inr tt, w8) /\
    sessions w8 !! callSid = Some sFinal /\ contexts w8 = contexts w7 /\
    savedSessions w8 = savedSessions w7 /\ legacyLog w8 = legacyLog w7 /\
    missedCalls w8 = missedCalls w7) as (w8 & R8 & S8 & C8 & V8 & L8 & M8).
  { subst sFinal. unfold commitmentNote.
    destruct (test commitmentPattern userInput).
    - destruct (updateSession_run callSid
                  (addDecision ("User commitment: " +:+ userInput)) w7 _ S7)
        as (w8 & R & S & C & V & L & M).
      exists w8. auto 10.
    - exists w7. split; [reflexivity|auto 10]. }
  assert (Hst : state sFinal = state s4).
  { subst sFinal. destruct (noteAll_fields (commitmentNote userInput)
      (addExchange userInput reply (exchangeMeta toolResult) s4)) as (_ & _ & -> & _).
    reflexivity. }
  erewrite bind_inr by exact R5.
  erewrite bind_inr by exact R6.
  erewrite bind_inr by exact R7.
  erewrite bind_inr by exact R8.
  erewrite bind_inr by (apply sessionData_run; exact S8).
  rewrite Hst. fold record.
  destruct (insertOne env record) as [e|].
  - exists w8. split; [reflexivity|]. rewrite app_nil_r.
    repeat split; congruence.
  - eexists. split; [reflexivity|]. cbn.
    repeat split; congruence.
Qed.

End TurnFacts.

(** ** Properties of a turn of [handleGather] *)
Module TurnProperties.
Import JsString Regex Classifier Model Store Insight GatherRoute VoiceRoute Scenario.
Import TurnVocabulary Variants HandlerFacts TurnFacts.
Local Open Scope handler_scope.

Lemma reachesTurn_inv (req : Request) :
  reachesTurn req = true ->
  isVoicemailMessage (trim (default "" (SpeechResult req))) = false /\
  isSessionEnding (trim (default "" (SpeechResult req))) = false /\
  CallStatus req <> Some "completed" /\ CallStatus req <> Some "no-answer".
Proof.
  unfold reachesTurn. cbv zeta. intros H.
  apply andb_true_iff in H as [H Hst]. apply andb_true_iff in H as [Hvm Hend].
  apply negb_true_iff in Hvm, Hend, Hst. apply orb_false_iff in Hst as [Hc Hn].
  apply bool_decide_eq_false in Hc, Hn. auto.
Qed.

Lemma handleGather_turn env (req : Request) w :
  reachesTurn req = true ->
  handleGather env req w
  = tryCatch (normalTurn env (CallSid req) (trim (default "" (SpeechResult req))) [])
      (fun _ => ret (Xml [Say coachVoice fallbackReply; Gather fallbackListenOpts])) w.
Proof.
  intros H. apply reachesTurn_inv in H as (Hvm & Hend & Hc & Hn).
  now apply handleGather_normal.
Qed.

(** The whole try block for a reply step that answers [reply] and records
    [notes]. *)
Lemma normalTurn_answered env callSid userInput response w reply toolResult notes :
  let s0 := sessionOf env callSid w in
  let stored := contexts w !! callSid in
  let h1 := default [] stored ++ [{| role := user; content := userInput |}] in
  (forall w3, sessions w3 !! callSid = Some (typed s0) ->
     exists w4,
       (if test needsToolsPattern userInput then toolTurn env callSid h1
        else chatTurn env callSid h1) w3 = (inr (reply, toolResult), w4) /\
       sessions w4 !! callSid = Some (noteAll notes (typed s0)) /\
       contexts w4 = contexts w3 /\ savedSessions w4 = savedSessions w3 /\
       legacyLog w4 = legacyLog w3 /\ missedCalls w4 = missedCalls w3) ->
  let record := turnRecord env callSid userInput reply toolResult (state s0) in
  exists w' s',
    normalTurn env callSid userInput response w
    = (match insertOne env record with
       | None => inr (Xml (response ++ [Say coachVoice reply; Gather listenOpts]))
       | Some e => inl e
       end, w') /\
    contexts w' !! callSid
    = Some (default [] stored ++ [{| role := user; content := userInput |};
                                  {| role := assistant; content := reply |}]) /\
    sessions w' !! callSid = Some s' /\
    conversation s'
    = conversation s0 ++ [{| exUser := userInput; exAssistant := reply;
                             exMeta := exchangeMeta toolResult |}] /\
    decisions s' = decisions s0 ++ notes ++ commitmentNote userInput /\
    sessionType s' = typedAs (sessionType s0) /\ state s' = state s0 /\
    legacyLog w' = legacyLog w ++ (match insertOne env record with
                                   | None => [record] | Some _ => [] end) /\
    savedSessions w' = savedSessions w /\ missedCalls w' = missedCalls w.
Proof.
  intros s0 stored h1 Hstep record.
  destruct (normalTurn_prefix env callSid userInput response w)
    as (w3 & Hrun & S3 & C3 & V3 & L3 & M3).
  fold s0 stored h1 in Hrun, S3, C3.
  destruct (Hstep w3 S3) as (w4 & R4 & S4 & C4 & V4 & L4 & M4).
  destruct (normalTurn_suffix env callSid userInput response stored h1 reply toolResult
              w4 _ S4) as (w' & R & S & C & V & L & M).
  destruct (typed_fields s0) as (Ty & Cv & Dc & St & _).
  destruct (noteAll_fields notes (typed s0)) as (D1 & C1 & St1 & Ty1 & _).
  destruct (noteAll_fields (commitmentNote userInput)
              (addExchange userInput reply (exchangeMeta toolResult)
                 (noteAll notes (typed s0)))) as (D2 & C2 & St2 & Ty2 & _).
  rewrite St1, St in R, L. fold record in R, L.
  exists w'. eexists. split; [|split; [|split; [exact S|]]].
  - rewrite Hrun. erewrite bind_inr by exact R4. exact R.
  - rewrite C. subst h1. now rewrite <- app_assoc.
  - rewrite C2, D2, St2, Ty2. cbn [addExchange conversation decisions state sessionType].
    rewrite C1, D1, St1, Ty1, Cv, Dc, St, Ty, <- app_assoc.
    repeat split; congruence.
Qed.

(** X13: a turn without a tool keyword.  When the reply generation
    answers (the contextual one when the session carries a truthy day
    analysis and it returns, the plain one otherwise, also for an empty
    analysis) and the turn log accepts the record, the caller hears that
    reply and is listened to again; the context of the call grows by the
    user's message and the reply, the session by one exchange without tool
    metadata and by a commitment decision exactly when the commitment
    pattern matches; one record is logged and nothing else is written. *)
Theorem chat_turn_records_and_speaks env (req : Request) w reply :
  let callSid := CallSid req in
  let userInput := trim (default "" (SpeechResult req)) in
  let s0 := sessionOf env callSid w in
  let history := default [] (contexts w !! callSid) in
  let record := turnRecord env callSid userInput reply None (state s0) in
  reachesTurn req = true ->
  test needsToolsPattern userInput = false ->
  chatReply env s0 (history ++ [{| role := user; content := userInput |}]) = inr reply ->
  insertOne env record = None ->
  exists w' s',
    handleGather env req w
    = (inr (Xml [Say coachVoice reply; Gather listenOpts]), w') /\
    contexts w' !! callSid
    = Some (history ++ [{| role := user; content := userInput |};
                        {| role := assistant; content := reply |}]) /\
    sessions w' !! callSid = Some s' /\
    conversation s'
    = conversation s0 ++ [{| exUser := userInput; exAssistant := reply;
                             exMeta := exchangeMeta None |}] /\
    decisions s' = decisions s0 ++ commitmentNote userInput /\
    sessionType s' = typedAs (sessionType s0) /\ state s' = state s0 /\
    legacyLog w' = legacyLog w ++ [record] /\
    savedSessions w' = savedSessions w /\ missedCalls w' = missedCalls w.
Proof.
  intros callSid userInput s0 history record Hturn Hkw Hreply Hlog.
  rewrite handleGather_turn by exact Hturn. fold callSid userInput.
  destruct (normalTurn_answered env callSid userInput [] w reply None [])
    as (w' & s' & R & C & S & Cv & D & Ty & St & L & V & M).
  { intros w3 S3. exists w3. rewrite Hkw. rewrite chatTurn_run with (s := typed (sessionOf env callSid w)) by exact S3.
    rewrite chatReply_typed. fold s0 history. rewrite Hreply. auto 10. }
  fold s0 history record in R, C, Cv, D, Ty, St, L. rewrite Hlog in R, L.
  exists w', s'. erewrite tryCatch_inr by exact R. auto 12.
Qed.

Lemma chat_turn_records_and_speaks_witness :
  reachesTurn (request (Some question) live) = true /\
  test needsToolsPattern (trim question) = false /\
  exists w' s',
    handleGather env (request (Some question) live) openedWorld
    = (inr (Xml [Say coachVoice "Name the first task."; Gather listenOpts]), w') /\
    contexts w' !! "CA1"
    = Some (default [] (contexts openedWorld !! "CA1") ++
            [{| role := user; content := question |};
             {| role := assistant; content := "Name the first task." |}]) /\
    sessions w' !! "CA1" = Some s' /\ length (conversation s') = 2 /\ decisions s' = [].
Proof.
  assert (H1 : reachesTurn (request (Some question) live) = true) by (vm_compute; reflexivity).
  assert (H2 : test needsToolsPattern (trim question) = false) by (vm_compute; reflexivity).
  split; [exact H1|]. split; [exact H2|].
  destruct (chat_turn_records_and_speaks env (request (Some question) live) openedWorld
              "Name the first task." H1 H2 ltac:(vm_compute; reflexivity) eq_refl)
    as (w' & s' & R & C & S & Cv & D & _).
  exists w', s'. split; [exact R|]. split; [exact C|]. split; [exact S|].
  split; [rewrite Cv | rewrite D]; vm_compute; reflexivity.
Defined.

(** The day analysis selects the generation by its truthiness: an empty
    analysis is answered by the plain generation, a non-empty one by the
    contextual generation. *)
Example day_analysis_selects_the_generation :
  fst (handleGather env (request (Some question) live) (withAnalysis "" openedWorld))
  = inr (Xml [Say coachVoice "Name the first task."; Gather listenOpts]) /\
  fst (handleGather env (request (Some question) live)
         (withAnalysis "Two meetings before noon" openedWorld))
  = inr (Xml [Say coachVoice "Stay on plan."; Gather listenOpts]).
Proof. split; vm_compute; reflexivity. Qed.





(** X16: when the reply generation throws (the tool-aware one on a keyword
    turn, the plain one otherwise, the contextual one being skipped for a
    missing or empty day analysis or having thrown too), the caller hears
    the fallback line; the session exists and is typed but gains no
    exchange; the user's message stays in the stored context without an
    answer when the store already held an array for the call, and no
    context is created when it did not. *)
Theorem reply_failure_leaves_utterance_unanswered env (req : Request) w :
  let callSid := CallSid req in
  let userInput := trim (default "" (SpeechResult req)) in
  let s0 := sessionOf env callSid w in
  let stored := contexts w !! callSid in
  let history := default [] stored ++ [{| role := user; content := userInput |}] in
  reachesTurn req = true ->
  (if test needsToolsPattern userInput
   then exists e', llmReplyWithTools env history = inl e'
   else exists e', chatReply env s0 history = inl e') ->
  exists w',
    handleGather env req w
    = (inr (Xml [Say coachVoice fallbackReply; Gather fallbackListenOpts]), w') /\
    contexts w' !! callSid = match stored with Some _ => Some history | None => None end /\
    sessions w' !! callSid
    = Some (setSessionType (typedAs (sessionType s0)) s0) /\
    legacyLog w' = legacyLog w /\ savedSessions w' = savedSessions w /\
    missedCalls w' = missedCalls w.
Proof.
  intros callSid userInput s0 stored history Hturn Hfail.
  rewrite handleGather_turn by exact Hturn. fold callSid userInput.
  destruct (normalTurn_prefix env callSid userInput [] w)
    as (w3 & Hrun & S3 & C3 & V3 & L3 & M3).
  fold s0 stored history in Hrun, S3, C3.
  assert (Hthrow : exists e',
            (if test needsToolsPattern userInput then toolTurn env callSid history
             else chatTurn env callSid history) w3 = (inl e', w3)).
  { destruct (test needsToolsPattern userInput); destruct Hfail as (e' & He'); exists e'.
    - unfold toolTurn. rewrite He'. reflexivity.
    - rewrite chatTurn_run with (s := typed s0) by exact S3.
      rewrite chatReply_typed, He'. reflexivity. }
  destruct Hthrow as (e' & Hthrow).
  exists w3. split.
  - erewrite tryCatch_inl; [reflexivity|]. rewrite Hrun.
    erewrite bind_inl by exact Hthrow. reflexivity.
  - rewrite S3, C3. split.
    + unfold stored. destruct (contexts w !! callSid); reflexivity.
    + split; [|auto]. f_equal. unfold typed, typedAs.
      destruct s0 as [st ty cv dc pl an sa ea]. destruct ty; reflexivity.
Qed.

Lemma reply_failure_leaves_utterance_unanswered_witness :
  reachesTurn (request (Some question) live) = true /\
  exists w',
    handleGather (collaborators true false) (request (Some question) live) openedWorld
    = (inr (Xml [Say coachVoice fallbackReply; Gather fallbackListenOpts]), w') /\
    contexts w' !! "CA1"
    = Some (default [] (contexts openedWorld !! "CA1") ++
            [{| role := user; content := question |}]).
Proof.
  assert (H1 : reachesTurn (request (Some question) live) = true) by (vm_compute; reflexivity).
  split; [exact H1|].
  destruct (reply_failure_leaves_utterance_unanswered (collaborators true false)
              (request (Some question) live) openedWorld H1
              (ex_intro _ (Error "reply generation unavailable") eq_refl))
    as (w' & R & C & _).
  exists w'. split; [exact R|]. etransitivity; [exact C|]. vm_compute. reflexivity.
Defined.

End TurnProperties.

(** ** Properties of the other branches of [handleGather] *)
Module BranchProperties.
Import JsString Regex Classifier Model Store Insight GatherRoute VoiceRoute Scenario.
Import TurnVocabulary Variants HandlerFacts TurnFacts.
Local Open Scope handler_scope.

(** X17: when the missed-call log and the session store accept their
    writes, [handleGather] never throws, and what it sends is a bare
    acknowledgement, one line followed by a hang-up, or one line followed
    by a request to keep listening. *)
Theorem gather_always_answers env (req : Request) w :
  (forall r, logMissedCall env r = None) ->
  (forall s, saveSession env (CallSid req) s = None) ->
  exists r w',
    handleGather env req w = (inr r, w') /\
    (r = Status200 None \/
     (exists line, r = Xml [Say coachVoice line; Hangup]) \/
     (exists line opts, r = Xml [Say coachVoice line; Gather opts])).
Proof.
  intros Hlog Hsave.
  destruct (isVoicemailMessage (trim (default "" (SpeechResult req)))) eqn:Hvm.
  { destruct (voicemailPath_run env req [] w Hlog Hsave) as (w' & s' & R & _).
    unfold handleGather. rewrite Hvm. rewrite R. cbn [app]. eauto 10. }
  destruct (isSessionEnding (trim (default "" (SpeechResult req)))) eqn:Hend.
  { pose proof (handleSessionEnd_cases env (CallSid req)
                  (trim (default "" (SpeechResult req))) [] w) as H.
    cbv zeta in H. unfold handleGather. rewrite Hvm, Hend.
    destruct (extractSessionInsights env _ _).
    - destruct H as (w' & -> & _). cbn [app]. eauto 10.
    - destruct (saveSession env _ _).
      + destruct H as (w' & -> & _). cbn [app]. eauto 10.
      + destruct H as (w' & -> & _). cbn [app]. eauto 10. }
  destruct (bool_decide (CallStatus req = Some "completed")
            || bool_decide (CallStatus req = Some "no-answer")) eqn:Hst.
  { unfold handleGather. rewrite Hvm, Hend, Hst.
    destruct (sessions w !! CallSid req) as [s|] eqn:Hs.
    - destruct (endSession_saved env (CallSid req) w s Hs (Hsave _)) as (w1 & R1 & _).
      erewrite bind_inr by exact R1. unfold ret. eauto 10.
    - erewrite bind_inr by (apply endSession_absent; exact Hs). unfold ret. eauto 10. }
  apply orb_false_iff in Hst as [Hc Hn]. apply bool_decide_eq_false in Hc, Hn.
  destruct (handleGather_normal_speaks env req w Hvm Hend Hc Hn) as (line & opts & w' & R).
  rewrite R. eauto 10.
Qed.

Lemma gather_always_answers_witness :
  exists r w', handleGather env (request (Some greeting) live) openedWorld = (inr r, w').
Proof.
  destruct (gather_always_answers env (request (Some greeting) live) openedWorld
              (fun _ => eq_refl) (fun _ => eq_refl)) as (r & w' & R & _).
  exists r, w'. exact R.
Defined.

(** X18: in the voicemail branch the missed-call log is written outside
    any try block: when it throws, [handleGather] throws the same value and
    sends nothing; the session stays in the registry, marked as voicemail,
    and is neither saved nor removed, and the context of the call is kept. *)
Theorem voicemail_log_failure_escapes env (req : Request) w db e :
  isVoicemailMessage (trim (default "" (SpeechResult req))) = true ->
  NOTION_LOGS_DB_ID env = Some db ->
  truthy db = true ->
  logMissedCall env {| missedDb := db; missedTo := To req;
                       missedReason := "voicemail-answered" |} = Some e ->
  exists w',
    handleGather env req w = (inl e, w') /\
    sessions w' !! CallSid req
    = Some (markAsVoicemail (now env) (sessionOf env (CallSid req) w)) /\
    contexts w' = contexts w /\ savedSessions w' = savedSessions w /\
    legacyLog w' = legacyLog w /\ missedCalls w' = missedCalls w.
Proof.
  intros Hvm Hdb Htr Hlog. unfold handleGather. rewrite Hvm. unfold voicemailPath.
  destruct (getSession_run env (CallSid req) w) as (w1 & R1 & S1 & C1 & V1 & L1 & M1).
  destruct (updateSession_run (CallSid req) (markAsVoicemail (now env)) w1 _ S1)
    as (w2 & R2 & S2 & C2 & V2 & L2 & M2).
  exists w2. split; [|repeat split; congruence].
  erewrite bind_inr by exact R1.
  erewrite bind_inr by exact R2.
  rewrite Hdb, Htr, Hlog. reflexivity.
Qed.

Lemma voicemail_log_failure_escapes_witness :
  isVoicemailMessage (trim greeting) = true /\
  exists w',
    handleGather (withOutage false true env) (request (Some greeting) live) openedWorld
    = (inl (Error "missed-call log unavailable"), w') /\
    savedSessions w' = [].
Proof.
  assert (H1 : isVoicemailMessage (trim greeting) = true) by (vm_compute; reflexivity).
  split; [exact H1|].
  destruct (voicemail_log_failure_escapes (withOutage false true env)
              (request (Some greeting) live) openedWorld "logs-db"
              (Error "missed-call log unavailable") H1 eq_refl eq_refl eq_refl)
    as (w' & R & _ & _ & V & _).
  exists w'. split; [exact R|]. rewrite V. vm_compute. reflexivity.
Defined.

(** X19: an end-intent whose insights are extracted and whose session the
    store accepts: the caller hears the closing line chosen from those
    insights, read from the context before it is cleared; the session is
    saved once, ended (or still in the terminal state it had), with an end
    time and with its exchanges and decisions as they were, and it leaves
    the registry together with the context of the call. *)
Theorem session_end_saves_the_session env (req : Request) w insights :
  let callSid := CallSid req in
  let userInput := trim (default "" (SpeechResult req)) in
  let s0 := sessionOf env callSid w in
  let history := default [] (contexts w !! callSid) in
  isVoicemailMessage userInput = false ->
  isSessionEnding userInput = true ->
  extractSessionInsights env history s0 = inr insights ->
  saveSession env callSid (finalize (now env) (setState StEnding s0)) = None ->
  exists w' s',
    handleGather env req w
    = (inr (Xml [Say coachVoice (getEndingMessage env insights); Hangup]), w') /\
    sessions w' !! callSid = None /\ contexts w' !! callSid = None /\
    savedSessions w' = savedSessions w ++ [(callSid, s')] /\
    state s' = (if isTerminal (state s0) then state s0 else StEnded) /\
    is_Some (endedAt s') /\
    conversation s' = conversation s0 /\ decisions s' = decisions s0 /\
    legacyLog w' = legacyLog w /\ missedCalls w' = missedCalls w.
Proof.
  intros callSid userInput s0 history Hvm Hend Hex Hsave.
  unfold handleGather. fold callSid userInput. rewrite Hvm, Hend.
  unfold handleSessionEnd.
  destruct (getSession_run env callSid w) as (w1 & R1 & S1 & C1 & V1 & L1 & M1).
  destruct (updateSession_run callSid (setState StEnding) w1 _ S1)
    as (w2 & R2 & S2 & C2 & V2 & L2 & M2).
  destruct (endSession_saved env callSid w2 _ S2 Hsave)
    as (w3 & R3 & S3 & C3 & V3 & L3 & M3).
  destruct (ctxClear_run callSid w3) as (w4 & R4 & C4 & S4 & V4 & L4 & M4).
  exists w4, (finalize (now env) (setState StEnding s0)).
  split.
  - erewrite tryCatch_inr; [reflexivity|].
    erewrite bind_inr by exact R1.
    erewrite bind_inr by (apply sessionData_run; exact S1).
    erewrite bind_inr by apply ctxGet_run.
    rewrite C1. fold history. fold s0. rewrite Hex.
    erewrite bind_inr by reflexivity.
    erewrite bind_inr by exact R2.
    erewrite bind_inr by exact R3.
    erewrite bind_inr by exact R4. reflexivity.
  - split; [congruence|]. split; [exact C4|].
    split; [rewrite V4, V3, V2, V1; reflexivity|].
    split; [|split; [|split; [reflexivity|split; [reflexivity|split; congruence]]]].
    + cbn. destruct (state s0); reflexivity.
    + cbn. destruct (endedAt s0); eauto.
Qed.

Lemma session_end_saves_the_session_witness :
  isVoicemailMessage (trim "bye") = false /\
  isSessionEnding (trim "bye") = true /\
  exists w' s',
    handleGather env (request (Some "bye") live) openedWorld
    = (inr (Xml [Say coachVoice "Plans set. Time to work."; Hangup]), w') /\
    savedSessions w' = [("CA1", s')] /\ state s' = StEnded.
Proof.
  assert (H1 : isVoicemailMessage (trim "bye") = false) by (vm_compute; reflexivity).
  assert (H2 : isSessionEnding (trim "bye") = true) by (vm_compute; reflexivity).
  split; [exact H1|]. split; [exact H2|].
  destruct (session_end_saves_the_session env (request (Some "bye") live) openedWorld
              _ H1 H2 ltac:(vm_compute; reflexivity) eq_refl)
    as (w' & s' & R & _ & _ & V & St & _).
  exists w', s'. split; [|split].
  - rewrite R.
    apply (f_equal (fun line => (inr (Xml [Say coachVoice line; Hangup]), w'))).
    vm_compute. reflexivity.
  - rewrite V. reflexivity.
  - rewrite St. vm_compute. reflexivity.
Defined.

(** X20: a tool call succeeds exactly when its action is one of the two
    known ones, the matching service is configured, and the client call
    returned a truthy value; when these conditions hold the result is the
    success record that names the service and the item. *)
Theorem tool_call_success_conditions env toolCall :
  let taskAdded :=
    action toolCall = Some "add_task" /\
    truthyOpt (NOTION_TASKS_DB_ID env) = true /\
    addTask env (default "" (NOTION_TASKS_DB_ID env)) (task toolCall) "Medium" = inr true in
  let eventAdded :=
    action toolCall = Some "add_event" /\
    truthyOpt (GOOGLE_CALENDAR_ACCESS_TOKEN env) = true /\
    addEvent env (title toolCall) (time toolCall) = inr true in
  (success (executeToolCall env toolCall) = true <-> taskAdded \/ eventAdded) /\
  (taskAdded ->
   executeToolCall env toolCall
   = {| tool := Some "add_task"; success := true; message := "Added to your tasks.";
        item := task toolCall |}) /\
  (eventAdded ->
   executeToolCall env toolCall
   = {| tool := Some "add_event"; success := true; message := "Added to your calendar.";
        item := Some (interp (title toolCall) +:+ " at " +:+ interp (time toolCall)) |}).
Proof.
  intros taskAdded eventAdded. subst taskAdded eventAdded.
  unfold executeToolCall, truthyOpt.
  destruct (bool_decide (action toolCall = Some "add_task")) eqn:Ht.
  - apply bool_decide_eq_true in Ht.
    assert (Hne : action toolCall <> Some "add_event") by (rewrite Ht; discriminate).
    destruct (NOTION_TASKS_DB_ID env) as [db|].
    + change (default "" (Some db)) with db.
      destruct (truthy db).
      * destruct (addTask env db (task toolCall) "Medium") as [e|[|]]; cbn;
          (split; [split; [intros H; try discriminate H; left; auto
                          | intros [(_ & _ & H) | (H & _)]; [try discriminate H; reflexivity
                                                            | contradiction]]
                  | split; [intros (_ & _ & H); try discriminate H; reflexivity
                           | intros (H & _); contradiction]]).
      * cbn. split; [split; [discriminate | intros [(_ & H & _) | (H & _)];
                                              [discriminate | contradiction]]
                    | split; [intros (_ & H & _); discriminate
                             | intros (H & _); contradiction]].
    + cbn. split; [split; [discriminate | intros [(_ & H & _) | (H & _)];
                                            [discriminate | contradiction]]
                  | split; [intros (_ & H & _); discriminate
                           | intros (H & _); contradiction]].
  - apply bool_decide_eq_false in Ht.
    destruct (bool_decide (action toolCall = Some "add_event")) eqn:He.
    + apply bool_decide_eq_true in He.
      destruct (GOOGLE_CALENDAR_ACCESS_TOKEN env) as [tok|]; cbn.
      * destruct (truthy tok).
        -- destruct (addEvent env (title toolCall) (time toolCall)) as [e|[|]]; cbn;
             (split; [split; [intros H; try discriminate H; right; auto
                             | intros [(H & _) | (_ & _ & H)]; [contradiction
                                                               | try discriminate H; reflexivity]]
                     | split; [intros (H & _); contradiction
                              | intros (_ & _ & H); try discriminate H; reflexivity]]).
        -- split; [split; [discriminate | intros [(H & _) | (_ & H & _)];
                                            [contradiction | discriminate]]
                  | split; [intros (H & _); contradiction
                           | intros (_ & H & _); discriminate]].
      * split; [split; [discriminate | intros [(H & _) | (_ & H & _)];
                                         [contradiction | discriminate]]
               | split; [intros (H & _); contradiction
                        | intros (_ & H & _); discriminate]].
    + apply bool_decide_eq_false in He. cbn.
      split; [split; [discriminate | intros [(H & _) | (H & _)]; contradiction]
             | split; intros (H & _); contradiction].
Qed.

Lemma tool_call_success_conditions_witness :
  executeToolCall env addTaskCall
  = {| tool := Some "add_task"; success := true; message := "Added to your tasks.";
       item := Some "call the dentist" |}.
Proof.
  pose proof (tool_call_success_conditions env addTaskCall) as H. cbv zeta in H.
  apply (proj1 (proj2 H)). repeat split; reflexivity.
Defined.

End BranchProperties.

(** ** Properties of [voice.js] *)
Module VoiceProperties.
Import JsString Regex Classifier Model Store Insight GatherRoute VoiceRoute StatusRoute Scenario.
Import TurnVocabulary Variants HandlerFacts TurnFacts TextFacts.
Local Open Scope handler_scope.

(** X21: on a status that is not terminal [handleVoice] never throws,
    whatever the day-plan source does: it says an opener first and ends
    the document with a hang-up, and it replaces whatever context the call
    had by exactly the system prompt followed by that opener; the external
    stores are not written. *)
Theorem voice_resets_the_context env (req : Request) w :
  isTerminalStatus (CallStatus req) = false ->
  exists opener verbs w',
    handleVoice env req w = (inr (Xml (Say coachVoice opener :: verbs)), w') /\
    last verbs = Some Hangup /\
    contexts w' !! CallSid req
    = Some [ {| role := system; content := systemPrompt env |};
             {| role := assistant; content := opener |} ] /\
    savedSessions w' = savedSessions w /\ legacyLog w' = legacyLog w /\
    missedCalls w' = missedCalls w.
Proof.
  intros Hst. unfold handleVoice. rewrite Hst.
  destruct (getTodayPlan env) as [e|plan] eqn:Hplan.
  - destruct (ctxSet_full (CallSid req)
                [ {| role := system; content := systemPrompt env |};
                  {| role := assistant; content := "Morning. Time to work. What's first?" |} ] w)
      as (w1 & R1 & S1 & C1 & V1 & L1 & M1).
    do 2 eexists. exists w1. split.
    { erewrite tryCatch_inl by reflexivity.
      erewrite bind_inr by exact R1. reflexivity. }
    split; [reflexivity|]. auto 10.
  - destruct (getSession_run env (CallSid req) w) as (w1 & R1 & S1 & C1 & V1 & L1 & M1).
    destruct (updateSession_run (CallSid req) (setTodaysPlan plan) w1 _ S1)
      as (w2 & R2 & S2 & C2 & V2 & L2 & M2).
    destruct (ctxSet_full (CallSid req)
                [ {| role := system; content := systemPrompt env |};
                  {| role := assistant;
                     content := generateDominantOpener env (habits plan) (events plan) |} ] w2)
      as (w3 & R3 & S3 & C3 & V3 & L3 & M3).
    rewrite <- S3 in S2.
    destruct (updateSession_run (CallSid req)
                (addExchange "SESSION_START"
                   (generateDominantOpener env (habits plan) (events plan))
                   {| toolUsed := None; toolSuccess := None;
                      taskCount := Some (length (habits plan));
                      eventCount := Some (length (events plan)) |}) w3 _ S2)
      as (w4 & R4 & S4 & C4 & V4 & L4 & M4).
    destruct (updateSession_run (CallSid req) (setState StOverview) w4 _ S4)
      as (w5 & R5 & S5 & C5 & V5 & L5 & M5).
    do 2 eexists. exists w5. split.
    { erewrite tryCatch_inr; [reflexivity|].
      erewrite bind_inr by reflexivity.
      erewrite bind_inr by exact R1.
      erewrite bind_inr by exact R2.
      erewrite bind_inr by exact R3.
      erewrite bind_inr by exact R4.
      erewrite bind_inr by exact R5. reflexivity. }
    split; [reflexivity|]. split; [rewrite C5, C4; exact C3|].
    repeat split; congruence.
Qed.

Lemma voice_resets_the_context_witness :
  exists opener verbs w',
    handleVoice env (request None live) openedWorld
    = (inr (Xml (Say coachVoice opener :: verbs)), w') /\
    contexts w' !! "CA1"
    = Some [ {| role := system; content := systemPrompt env |};
             {| role := assistant; content := opener |} ].
Proof.
  destruct (voice_resets_the_context env (request None live) openedWorld eq_refl)
    as (opener & verbs & w' & R & _ & C & _).
  exists opener, verbs, w'. split; [exact R | exact C].
Defined.

(** X22: when the day plan loads, [handleVoice] opens with
    [generateDominantOpener] of its habits and events, and the session of
    the call (created if absent) carries the plan and gains the
    SESSION_START exchange with the two counts; it moves to the overview
    state unless it was already in a terminal one. *)
Theorem voice_records_the_plan env (req : Request) w plan :
  let s0 := sessionOf env (CallSid req) w in
  let opener := generateDominantOpener env (habits plan) (events plan) in
  isTerminalStatus (CallStatus req) = false ->
  getTodayPlan env = inr plan ->
  exists verbs w' s',
    handleVoice env req w = (inr (Xml (Say coachVoice opener :: verbs)), w') /\
    sessions w' !! CallSid req = Some s' /\
    todaysPlan s' = Some plan /\
    conversation s'
    = conversation s0 ++
      [{| exUser := "SESSION_START"; exAssistant := opener;
          exMeta := {| toolUsed := None; toolSuccess := None;
                       taskCount := Some (length (habits plan));
                       eventCount := Some (length (events plan)) |} |}] /\
    state s' = (if isTerminal (state s0) then state s0 else StOverview) /\
    decisions s' = decisions s0 /\ sessionType s' = sessionType s0.
Proof.
  intros s0 opener Hst Hplan. unfold handleVoice. rewrite Hst, Hplan.
  destruct (getSession_run env (CallSid req) w) as (w1 & R1 & S1 & C1 & V1 & L1 & M1).
  destruct (updateSession_run (CallSid req) (setTodaysPlan plan) w1 _ S1)
    as (w2 & R2 & S2 & C2 & V2 & L2 & M2).
  destruct (ctxSet_full (CallSid req)
              [ {| role := system; content := systemPrompt env |};
                {| role := assistant; content := opener |} ] w2)
    as (w3 & R3 & S3 & C3 & V3 & L3 & M3).
  rewrite <- S3 in S2.
  destruct (updateSession_run (CallSid req)
              (addExchange "SESSION_START" opener
                 {| toolUsed := None; toolSuccess := None;
                    taskCount := Some (length (habits plan));
                    eventCount := Some (length (events plan)) |}) w3 _ S2)
    as (w4 & R4 & S4 & C4 & V4 & L4 & M4).
  destruct (updateSession_run (CallSid req) (setState StOverview) w4 _ S4)
    as (w5 & R5 & S5 & C5 & V5 & L5 & M5).
  eexists. exists w5. eexists. split.
  { erewrite tryCatch_inr; [reflexivity|].
    erewrite bind_inr by reflexivity.
    erewrite bind_inr by exact R1.
    erewrite bind_inr by exact R2.
    erewrite bind_inr by exact R3.
    erewrite bind_inr by exact R4.
    erewrite bind_inr by exact R5. reflexivity. }
  split; [exact S5|]. cbn. fold s0. auto 10.
Qed.

Lemma voice_records_the_plan_witness :
  exists verbs w' s',
    handleVoice env (request None live) emptyWorld
    = (inr (Xml (Say coachVoice "On time. Let's work. Workout 30 min needs doing. Start now or explain why not." :: verbs)), w') /\
    sessions w' !! "CA1" = Some s' /\ todaysPlan s' = Some plan /\ state s' = StOverview.
Proof.
  destruct (voice_records_the_plan env (request None live) emptyWorld plan eq_refl eq_refl)
    as (verbs & w' & s' & R & S & P & _ & St & _).
  exists verbs, w', s'. split; [|split; [exact S|split; [exact P|]]].
  - rewrite R.
    apply (f_equal (fun line => (inr (Xml (Say coachVoice line :: verbs)), w'))).
    vm_compute. reflexivity.
  - rewrite St. vm_compute. reflexivity.
Defined.

(** X23: when the day-plan source throws, the caller still gets the fixed
    opener and the context of the call is set, but the session registry is
    left exactly as it was: no session is created for the call. *)
Theorem voice_plan_failure_creates_no_session env (req : Request) w e :
  isTerminalStatus (CallStatus req) = false ->
  getTodayPlan env = inl e ->
  exists w',
    handleVoice env req w
    = (inr (Xml [ Say coachVoice "Morning. Time to work. What's first?";
                  Gather listenOpts;
                  Say coachVoice "Call back when ready.";
                  Hangup ]), w') /\
    sessions w' = sessions w.
Proof.
  intros Hst Hplan. unfold handleVoice. rewrite Hst, Hplan.
  destruct (ctxSet_full (CallSid req)
              [ {| role := system; content := systemPrompt env |};
                {| role := assistant; content := "Morning. Time to work. What's first?" |} ] w)
    as (w1 & R1 & S1 & C1 & V1 & L1 & M1).
  exists w1. split; [|exact S1].
  erewrite tryCatch_inl by reflexivity.
  erewrite bind_inr by exact R1. reflexivity.
Qed.

Lemma voice_plan_failure_creates_no_session_witness :
  exists w',
    handleVoice (withoutPlan env) (request None live) emptyWorld
    = (inr (Xml [ Say coachVoice "Morning. Time to work. What's first?";
                  Gather listenOpts; Say coachVoice "Call back when ready."; Hangup ]), w') /\
    sessions w' = ∅.
Proof.
  destruct (voice_plan_failure_creates_no_session (withoutPlan env) (request None live)
              emptyWorld (Error "day plan unavailable") eq_refl eq_refl) as (w' & R & S).
  exists w'. split; [exact R | exact S].
Defined.

(** *** The opener *)

Lemma filter_take_one {A} (P : A -> Prop) `{forall x, Decision (P x)} (l : list A) :
  filter P (take 1 (filter P l)) = take 1 (filter P l).
Proof.
  induction l as [|x l IH]; [reflexivity|].
  rewrite filter_cons. destruct (decide (P x)) as [Hp|Hp]; [|exact IH].
  cbn [take]. rewrite filter_cons. destruct (decide (P x)); [reflexivity|contradiction].
Qed.

(** X24: the opener reads at most the first two habits and the first
    event that starts within three hours: every other habit or event of
    the plan is ignored. *)
Theorem opener_reads_two_habits_and_one_event env (habits : list Habit) (events : list Event) :
  generateDominantOpener env habits events
  = generateDominantOpener env (take 2 habits)
      (take 1 (filter (fun e => isSoon env e = true) events)).
Proof.
  unfold generateDominantOpener.
  rewrite filter_take_one, take_take. cbn [Nat.min].
  destruct (filter (fun e => isSoon env e = true) events) as [|e l]; reflexivity.
Qed.

(** X25: the events are not sorted: when the first listed event that
    starts within three hours is ninety minutes away or more, the opener
    mentions no event at all, even if an event listed after it is nearer. *)
Theorem far_first_event_silences_the_rest env (habits : list Habit) (events : list Event)
        nextEvent others start :
  filter (fun e => isSoon env e = true) events = nextEvent :: others ->
  eventStart nextEvent = Some start ->
  (90 * 60000 <= start - now env)%Z ->
  generateDominantOpener env habits events = generateDominantOpener env habits [].
Proof.
  intros Hsoon Hstart Hfar. unfold generateDominantOpener.
  rewrite Hsoon, Hstart, filter_nil.
  change (default 0%Z (Some start)) with start.
  assert (Hm : (90 <= (start - now env) / 60000)%Z).
  { apply Z.div_le_lower_bound; lia. }
  destruct (Z.ltb_spec ((start - now env) / 60000) 60); [lia|].
  destruct (Z.ltb_spec ((start - now env) / 60000) 90); [lia|].
  reflexivity.
Qed.

Lemma far_first_event_silences_the_rest_witness :
  generateDominantOpener env [] [eventIn env "Review" 120; eventIn env "Standup" 10]
  = "On time. Let's work. No excuses today. What's your focus?".
Proof.
  rewrite (far_first_event_silences_the_rest env []
             [eventIn env "Review" 120; eventIn env "Standup" 10]
             (eventIn env "Review" 120) [eventIn env "Standup" 10]
             (now env + 120 * 60000)%Z
             ltac:(vm_compute; reflexivity) eq_refl ltac:(vm_compute; discriminate)).
  vm_compute. reflexivity.
Defined.

(** X26: the name a habit is spoken with is never empty and never longer
    than twenty-three units, whatever the habit's text and title. *)
Theorem habitName_length (h : Habit) :
  1 <= String.length (habitName h) <= 23.
Proof.
  unfold habitName.
  set (text := default "Task" _).
  assert (Hne : 1 <= String.length text).
  { subst text. unfold orElse, truthyOpt.
    destruct (habitText h) as [[|c s]|]; cbn; try lia;
      destruct (habitTitle h) as [[|c' s']|]; cbn; lia. }
  destruct (Nat.ltb_spec 20 (String.length text)) as [Hlong|Hshort].
  - rewrite length_append. cbn [String.length].
    pose proof (substring0_length 20 text).
    assert (String.length (substring0 20 text) = 20).
    { unfold substring0. rewrite length_ofChars, length_take, length_chars. lia. }
    lia.
  - lia.
Qed.

End VoiceProperties.

(** ** Properties of the status callback *)
Module StatusProperties.
Import JsString Regex Classifier Model Store Insight GatherRoute VoiceRoute StatusRoute Scenario.
Import TurnVocabulary Variants HandlerFacts TurnFacts.
Local Open Scope handler_scope.

(** X27: a status other than no-answer, failed, canceled and completed
    (or none at all) is acknowledged with "OK" and changes nothing. *)
Theorem status_ignores_other_statuses env (req : Request) w :
  isMissedStatus (CallStatus req) = false ->
  CallStatus req <> Some "completed" ->
  handleStatus env req w = (inr (Status200 (Some "OK")), w).
Proof.
  intros Hm Hc. unfold handleStatus. rewrite Hm.
  rewrite bool_decide_eq_false_2 by exact Hc. reflexivity.
Qed.

Lemma status_ignores_other_statuses_witness :
  handleStatus env (request None (Some "ringing")) openedWorld
  = (inr (Status200 (Some "OK")), openedWorld).
Proof.
  apply status_ignores_other_statuses; [reflexivity | discriminate].
Defined.

(** Finalizing and forgetting a call whose session the store accepts. *)
Lemma cleanup_run env id w :
  (forall s, saveSession env id s = None) ->
  exists w',
    (_ <- endSession env id ;; ctxClear id) w = (inr tt, w') /\
    sessions w' !! id = None /\ contexts w' !! id = None /\
    savedSessions w'
    = savedSessions w ++ match sessions w !! id with
                         | Some s => [(id, finalize (now env) s)]
                         | None => []
                         end /\
    legacyLog w' = legacyLog w /\ missedCalls w' = missedCalls w.
Proof.
  intros Hsave. destruct (sessions w !! id) as [s|] eqn:Hs.
  - destruct (endSession_saved env id w s Hs (Hsave _))
      as (w1 & R1 & S1 & C1 & V1 & L1 & M1).
    destruct (ctxClear_run id w1) as (w2 & R2 & C2 & S2 & V2 & L2 & M2).
    exists w2. erewrite bind_inr by exact R1. rewrite R2.
    repeat split; congruence.
  - destruct (ctxClear_run id w) as (w2 & R2 & C2 & S2 & V2 & L2 & M2).
    exists w2. erewrite bind_inr by (apply endSession_absent; exact Hs). rewrite R2.
    rewrite app_nil_r. repeat split; congruence.
Qed.

(** X28: a missed call (no-answer, failed or canceled) whose writes are
    accepted: exactly one missed-call record is written when the log
    database is configured, carrying the dialled number and the status as
    its reason, and none otherwise; the session of the call, if there is
    one, is finalized, saved and removed, and the context of the call is
    cleared; the answer is "OK". *)
Theorem missed_call_is_logged_and_cleaned_up env (req : Request) w status :
  CallStatus req = Some status ->
  isMissedStatus (Some status) = true ->
  (forall r, logMissedCall env r = None) ->
  (forall s, saveSession env (CallSid req) s = None) ->
  exists w',
    handleStatus env req w = (inr (Status200 (Some "OK")), w') /\
    missedCalls w'
    = missedCalls w ++
      match NOTION_LOGS_DB_ID env with
      | Some db => if truthy db
                   then [{| missedDb := db; missedTo := To req; missedReason := status |}]
                   else []
      | None => []
      end /\
    sessions w' !! CallSid req = None /\ contexts w' !! CallSid req = None /\
    savedSessions w'
    = savedSessions w ++ match sessions w !! CallSid req with
                         | Some s => [(CallSid req, finalize (now env) s)]
                         | None => []
                         end /\
    legacyLog w' = legacyLog w.
Proof.
  intros Hst Hm Hlog Hsave. unfold handleStatus. rewrite Hst, Hm.
  assert (Hc : bool_decide (Some status = Some "completed") = false).
  { apply bool_decide_eq_false. intros [= ->]. discriminate Hm. }
  rewrite Hc.
  set (logStep := match NOTION_LOGS_DB_ID env with Some db => _ | None => _ end).
  assert (exists w1, logStep w = (inr tt, w1) /\ sessions w1 = sessions w /\
                     contexts w1 = contexts w /\ savedSessions w1 = savedSessions w /\
                     legacyLog w1 = legacyLog w /\
                     missedCalls w1
                     = missedCalls w ++
                       match NOTION_LOGS_DB_ID env with
                       | Some db => if truthy db
                                    then [{| missedDb := db; missedTo := To req;
                                             missedReason := status |}]
                                    else []
                       | None => []
                       end) as (w1 & R1 & S1 & C1 & V1 & L1 & M1).
  { subst logStep. destruct (NOTION_LOGS_DB_ID env) as [db|].
    - destruct (truthy db).
      + unfold bind, awaitUnit. rewrite Hlog. eexists. split; [reflexivity|]. cbn. auto 10.
      + exists w. rewrite app_nil_r. split; [reflexivity|auto 10].
    - exists w. rewrite app_nil_r. split; [reflexivity|auto 10]. }
  destruct (cleanup_run env (CallSid req) w1 Hsave) as (w2 & R2 & S2 & C2 & V2 & L2 & M2).
  exists w2. split.
  - erewrite bind_inr; [reflexivity|].
    erewrite bind_inr by exact R1. exact R2.
  - rewrite S1, V1 in V2. repeat split; congruence.
Qed.

Lemma missed_call_is_logged_and_cleaned_up_witness :
  exists w',
    handleStatus env (request None (Some "canceled")) openedWorld
    = (inr (Status200 (Some "OK")), w') /\
    missedCalls w'
    = [{| missedDb := "logs-db"; missedTo := Some "+15550100"; missedReason := "canceled" |}] /\
    sessions w' !! "CA1" = None.
Proof.
  destruct (missed_call_is_logged_and_cleaned_up env (request None (Some "canceled"))
              openedWorld "canceled" eq_refl eq_refl (fun _ => eq_refl) (fun _ => eq_refl))
    as (w' & R & M & S & _).
  exists w'. split; [exact R|]. split; [|exact S].
  rewrite M. vm_compute. reflexivity.
Defined.

(** X29: a completed call is cleaned up without a missed-call record:
    the session, if there is one, is finalized, saved and removed and the
    context is cleared. *)
Theorem completed_call_is_cleaned_up env (req : Request) w :
  CallStatus req = Some "completed" ->
  (forall s, saveSession env (CallSid req) s = None) ->
  exists w',
    handleStatus env req w = (inr (Status200 (Some "OK")), w') /\
    missedCalls w' = missedCalls w /\
    sessions w' !! CallSid req = None /\ contexts w' !! CallSid req = None /\
    savedSessions w'
    = savedSessions w ++ match sessions w !! CallSid req with
                         | Some s => [(CallSid req, finalize (now env) s)]
                         | None => []
                         end /\
    legacyLog w' = legacyLog w.
Proof.
  intros Hst Hsave. unfold handleStatus. rewrite Hst.
  change (isMissedStatus (Some "completed")) with false.
  rewrite bool_decide_eq_true_2 by reflexivity.
  destruct (cleanup_run env (CallSid req) w Hsave) as (w2 & R2 & S2 & C2 & V2 & L2 & M2).
  exists w2. split.
  - erewrite bind_inr by reflexivity.
    erewrite bind_inr by exact R2. reflexivity.
  - auto 10.
Qed.

Lemma completed_call_is_cleaned_up_witness :
  exists w',
    handleStatus env (request None (Some "completed")) openedWorld
    = (inr (Status200 (Some "OK")), w') /\
    missedCalls w' = [] /\ sessions w' !! "CA1" = None /\ contexts w' !! "CA1" = None.
Proof.
  destruct (completed_call_is_cleaned_up env (request None (Some "completed"))
              openedWorld eq_refl (fun _ => eq_refl))
    as (w' & R & M & S & C & _).
  exists w'. split; [exact R|]. split; [|split; [exact S | exact C]].
  rewrite M. vm_compute. reflexivity.
Defined.

(** X30: the missed-call log is written before the cleanup and outside
    any try block: when it throws, [handleStatus] throws the same value,
    sends no acknowledgement, and leaves the session and the context of the
    call where they were. *)
Theorem missed_call_log_failure_skips_cleanup env (req : Request) w status db e :
  CallStatus req = Some status ->
  isMissedStatus (Some status) = true ->
  NOTION_LOGS_DB_ID env = Some db ->
  truthy db = true ->
  logMissedCall env {| missedDb := db; missedTo := To req; missedReason := status |}
  = Some e ->
  handleStatus env req w = (inl e, w).
Proof.
  intros Hst Hm Hdb Htr Hlog. unfold handleStatus.
  rewrite Hst, Hm, Hdb, Htr. cbv zeta.
  change (default "" (Some status)) with status.
  rewrite Hlog. reflexivity.
Qed.

Lemma missed_call_log_failure_skips_cleanup_witness :
  handleStatus (withOutage false true env) (request None (Some "no-answer")) openedWorld
  = (inl (Error "missed-call log unavailable"), openedWorld).
Proof.
  apply (missed_call_log_failure_skips_cleanup (withOutage false true env)
           (request None (Some "no-answer")) openedWorld "no-answer" "logs-db");
    reflexivity.
Defined.

End StatusProperties.
